(** * PsicoMetric (WISC-V): score-conversion pipeline, table loaders and
      patient store, embedded from the Python sources.

    - [core/converter.py]   : [WISCConverter] (age bands, range cells,
                              raw-to-scaled conversion, JSON loader)
    - [data/tablas_wiscv.py]: [cargar_tablas_completas]
    - [main.py]             : [DatabaseManager], [ConversorCompuestos],
                              [ConversorCIT], [calcular_escala_total_cit]

    Python integers are [Z]; Python floats are IEEE-754 binary64 values,
    taken from [SpecFloat] with [prec = 53] and [emax = 1024]; exceptions
    are an explicit sum type and every function that can raise returns a
    [resultado]. Strings are sequences of 8-bit characters; the characters
    above 127 are neither digits nor blanks. *)

From Stdlib Require Import ZArith Lia String Ascii List Bool DecimalString.
From Stdlib Require Import Reals Lra.
From Stdlib Require Import DecimalPos.
From Stdlib Require Import Floats.SpecFloat.
From stdpp Require Import base option gmap strings list.

Open Scope string_scope.
Open Scope Z_scope.

(** ** Python exceptions and the error monad *)

(** The place a [ValueError] was raised at (its message). *)
Inductive motivo : Type :=
  | LiteralInvalido            (* int(): invalid literal for int() *)
  | Desempaquetado             (* wrong number of values to unpack *)
  | SecuenciaVacia             (* min()/max() of an empty sequence *)
  | EdadFueraDeRango           (* "Edad ... fuera de rango válido" *)
  | ErrorConvertirEdad (causa : motivo)  (* "Error al convertir edad ..." *)
  | SubpruebaNoEncontrada      (* "Subprueba no encontrada" *)
  | PuntajeFueraDeRango        (* "Puntaje bruto ... fuera de rango" *)
  | TablasNoCargadas           (* "No se cargaron las tablas de compuestos" *)
  | EscalaNoEncontrada         (* "Escala ... no encontrada en las tablas" *)
  | TablaCITNoCargada          (* "No se cargó la tabla CIT" *)
  | NaNAEntero.                (* round(): cannot convert float NaN *)

Inductive excepcion : Type :=
  | ValueError (m : motivo)
  | JSONDecodeError            (* subclass of ValueError *)
  | KeyError
  | IndexError
  | TypeError
  | ZeroDivisionError
  | OverflowError
  | UnboundLocalError
  | FileNotFoundError
  | NotADirectoryError
  | ImportError
  | ExceptionGenerica.         (* raise Exception("...") *)

Inductive resultado (A : Type) : Type :=
  | Ok (a : A)
  | Error (e : excepcion).
Arguments Ok {A} a.
Arguments Error {A} e.

Definition ligar {A B : Type} (r : resultado A) (k : A -> resultado B)
  : resultado B :=
  match r with
  | Ok a => k a
  | Error e => Error e
  end.

Notation "'let*' p := r 'in' k" := (ligar r (fun p => k))
  (at level 10, p pattern, r at level 100, k at level 200).

(** [isinstance(e, ValueError)] *)
Definition es_ValueError (e : excepcion) : bool :=
  match e with
  | ValueError _ | JSONDecodeError => true
  | _ => false
  end.

(** [try: r  except ValueError: return v] *)
Definition salvo_ValueError {A : Type} (r : resultado A) (v : A)
  : resultado A :=
  match r with
  | Ok a => Ok a
  | Error e => if es_ValueError e then Ok v else Error e
  end.

(** ** Python strings *)

Definition codigo (c : ascii) : Z := Z.of_N (N_of_ascii c).

(** The blanks [str.strip()] removes: TAB LF VT FF CR, FS GS RS US and
    SPACE. *)
Definition es_espacio (c : ascii) : bool :=
  let n := codigo c in
  ((9 <=? n) && (n <=? 13)) || ((28 <=? n) && (n <=? 32)).

(** The blanks [int()] skips around a literal: TAB LF VT FF CR and SPACE
    only; FS GS RS US are invalid there. *)
Definition es_blanco (c : ascii) : bool :=
  let n := codigo c in
  ((9 <=? n) && (n <=? 13)) || (n =? 32).

Definition es_digito (c : ascii) : bool :=
  let n := codigo c in (48 <=? n) && (n <=? 57).

Definition valor_digito (c : ascii) : Z := codigo c - 48.

Definition guion : ascii := "-"%char.
Definition dos_puntos : ascii := ":"%char.
Definition subrayado : ascii := "_"%char.
Definition signo_mas : ascii := "+"%char.

Fixpoint quitar_espacios_izq (l : list ascii) : list ascii :=
  match l with
  | c :: l' => if es_espacio c then quitar_espacios_izq l' else l
  | [] => []
  end.

(** [s.strip()] on the character list. *)
Definition quitar_espacios (l : list ascii) : list ascii :=
  rev (quitar_espacios_izq (rev (quitar_espacios_izq l))).

Fixpoint quitar_blancos_izq (l : list ascii) : list ascii :=
  match l with
  | c :: l' => if es_blanco c then quitar_blancos_izq l' else l
  | [] => []
  end.

(** The literal [int()] reads, without the blanks around it. *)
Definition quitar_blancos (l : list ascii) : list ascii :=
  rev (quitar_blancos_izq (rev (quitar_blancos_izq l))).

(** Decimal digits, single underscores allowed between two digits. *)
Fixpoint leer_digitos (acc : Z) (tras_subrayado : bool) (l : list ascii)
  : option Z :=
  match l with
  | [] => if tras_subrayado then None else Some acc
  | c :: l' =>
      if es_digito c then leer_digitos (10 * acc + valor_digito c) false l'
      else if Ascii.eqb c subrayado then
        (if tras_subrayado then None else leer_digitos acc true l')
      else None
  end.

Definition leer_natural (l : list ascii) : option Z :=
  match l with
  | c :: l' => if es_digito c then leer_digitos (valor_digito c) false l'
               else None
  | [] => None
  end.

Definition leer_entero (l : list ascii) : option Z :=
  match quitar_blancos l with
  | c :: l' =>
      if Ascii.eqb c guion then Z.opp <$> leer_natural l'
      else if Ascii.eqb c signo_mas then leer_natural l'
      else leer_natural (c :: l')
  | [] => None
  end.

(** [int(s)] for a string [s], base 10. The text is taken to be ASCII:
    a character above 127 is read as neither a digit nor a blank. *)
Definition py_int (s : string) : resultado Z :=
  match leer_entero (list_ascii_of_string s) with
  | Some n => Ok n
  | None => Error (ValueError LiteralInvalido)
  end.

(** [s.split(sep)] for a one-character separator: never empty. *)
Fixpoint partir (sep : ascii) (s : string) : list string :=
  match s with
  | EmptyString => [EmptyString]
  | String c s' =>
      if Ascii.eqb c sep then EmptyString :: partir sep s'
      else match partir sep s' with
           | p :: ps => String c p :: ps
           | [] => [String c EmptyString]
           end
  end.

(** [c in s] for a character. *)
Fixpoint contiene_caracter (c : ascii) (s : string) : bool :=
  match s with
  | EmptyString => false
  | String d s' => Ascii.eqb d c || contiene_caracter c s'
  end.

(** [aguja in s] for strings. *)
Fixpoint contiene (aguja s : string) : bool :=
  String.prefix aguja s ||
  match s with
  | EmptyString => false
  | String _ s' => contiene aguja s'
  end.

(** ** core/converter.py : WISCConverter *)

Module Converter.

(** A row of a band's table: the scaled score and, per subtest code, the
    cell of raw scores ([fila.get(subprueba)] is the lookup). *)
Record fila : Type := {
  puntaje_escala : Z;
  celdas : gmap string string
}.

(** [self.data]: the keys of ['subpruebas'] and, per band id, the
    ['tabla'] of ['grupos_etarios']. *)
Record datos : Type := {
  subpruebas : gset string;
  grupos_etarios : gmap string (list fila)
}.

(** The literal list [grupos] of [_convertir_edad_a_grupo]. *)
Definition grupos : list ((Z * Z) * (Z * Z) * string) :=
  [ ((6, 0), (6, 5), "6_0_6_5");       ((6, 6), (6, 11), "6_6_6_11");
    ((7, 0), (7, 5), "7_0_7_5");       ((7, 6), (7, 11), "7_6_7_11");
    ((8, 0), (8, 5), "8_0_8_5");       ((8, 6), (8, 11), "8_6_8_11");
    ((9, 0), (9, 5), "9_0_9_5");       ((9, 6), (9, 11), "9_6_9_11");
    ((10, 0), (10, 5), "10_0_10_5");   ((10, 6), (10, 11), "10_6_10_11");
    ((11, 0), (11, 5), "11_0_11_5");   ((11, 6), (11, 11), "11_6_11_11");
    ((12, 0), (12, 5), "12_0_12_5");   ((12, 6), (12, 11), "12_6_12_11");
    ((13, 0), (13, 5), "13_0_13_5");   ((13, 6), (13, 11), "13_6_13_11");
    ((14, 0), (14, 5), "14_0_14_5");   ((14, 6), (14, 11), "14_6_14_11");
    ((15, 0), (15, 5), "15_0_15_5");   ((15, 6), (15, 11), "15_6_15_11");
    ((16, 0), (16, 5), "16_0_16_5");   ((16, 6), (16, 11), "16_6_16_11") ].

Definition min_en_meses (g : (Z * Z) * (Z * Z) * string) : Z :=
  let '((a, m), _, _) := g in a * 12 + m.
Definition max_en_meses (g : (Z * Z) * (Z * Z) * string) : Z :=
  let '(_, (a, m), _) := g in a * 12 + m.
Definition grupo_id (g : (Z * Z) * (Z * Z) * string) : string :=
  let '(_, _, i) := g in i.

Definition en_grupo (edad_en_meses : Z) (g : (Z * Z) * (Z * Z) * string)
  : bool :=
  (min_en_meses g <=? edad_en_meses) && (edad_en_meses <=? max_en_meses g).

(** The [for ... in grupos] loop: the first band that holds the age. *)
Fixpoint buscar_grupo (gs : list ((Z * Z) * (Z * Z) * string))
    (edad_en_meses : Z) : resultado string :=
  match gs with
  | g :: gs' => if en_grupo edad_en_meses g then Ok (grupo_id g)
                else buscar_grupo gs' edad_en_meses
  | [] => Error (ValueError EdadFueraDeRango)
  end.

(** [años_str, meses_str = edad_formato.split(':')] and the two [int()]. *)
Definition leer_edad (edad_formato : string) : resultado (Z * Z) :=
  match partir dos_puntos edad_formato with
  | [a_str; m_str] =>
      let* a := py_int a_str in
      let* m := py_int m_str in
      Ok (a, m)
  | _ => Error (ValueError Desempaquetado)
  end.

Definition motivo_de (e : excepcion) : motivo :=
  match e with
  | ValueError m => m
  | _ => LiteralInvalido
  end.

(** The body is wrapped in [except Exception as e: raise ValueError(...)]. *)
Definition _convertir_edad_a_grupo (edad_formato : string)
  : resultado string :=
  match (let* (a, m) := leer_edad edad_formato in
         buscar_grupo grupos (a * 12 + m)) with
  | Ok g => Ok g
  | Error e => Error (ValueError (ErrorConvertirEdad (motivo_de e)))
  end.

(** [min_val, max_val = map(int, rango_str.split('-'))]: the iterator is
    consumed one item at a time, a third item is still converted before
    the unpacking fails. *)
Definition desempaquetar_dos_enteros (partes : list string)
  : resultado (Z * Z) :=
  match partes with
  | [] => Error (ValueError Desempaquetado)
  | a :: r =>
      let* x := py_int a in
      match r with
      | [] => Error (ValueError Desempaquetado)
      | b :: r' =>
          let* y := py_int b in
          match r' with
          | [] => Ok (x, y)
          | c :: _ => let* _ := py_int c in Error (ValueError Desempaquetado)
          end
      end
  end.

(** [_esta_en_rango(puntaje, rango_str)]; [None] is the value [fila.get]
    gives for a missing key. *)
Definition _esta_en_rango (puntaje : Z) (rango_str : option string)
  : resultado bool :=
  match rango_str with
  | None => Ok false
  | Some s =>
      if String.eqb s "" || String.eqb s "-" then Ok false
      else if contiene_caracter guion s then
        salvo_ValueError
          (let* (min_val, max_val) :=
             desempaquetar_dos_enteros (partir guion s) in
           Ok ((min_val <=? puntaje) && (puntaje <=? max_val)))
          false
      else
        salvo_ValueError (let* n := py_int s in Ok (puntaje =? n)) false
  end.

(** The [for i, fila in enumerate(tabla)] scan of [convertir_puntaje]. *)
Fixpoint buscar_en_tabla (tabla : list fila) (subprueba : string)
    (puntaje_bruto : Z) : resultado Z :=
  match tabla with
  | f :: tabla' =>
      let* b := _esta_en_rango puntaje_bruto (celdas f !! subprueba) in
      if b then Ok (puntaje_escala f)
      else buscar_en_tabla tabla' subprueba puntaje_bruto
  | [] => Error (ValueError PuntajeFueraDeRango)
  end.

(** The subtest check, with the [INF] to [IN] substitution. *)
Definition resolver_subprueba (d : datos) (subprueba : string)
  : resultado string :=
  if decide (subprueba ∈ subpruebas d) then Ok subprueba
  else if String.eqb subprueba "INF" then Ok "IN"
  else Error (ValueError SubpruebaNoEncontrada).

(** [convertir_puntaje]; the outer [except Exception: raise] re-raises. *)
Definition convertir_puntaje (d : datos) (edad_formato subprueba : string)
    (puntaje_bruto : Z) : resultado Z :=
  let* grupo := _convertir_edad_a_grupo edad_formato in
  let* sub := resolver_subprueba d subprueba in
  let* tabla := match grupos_etarios d !! grupo with
           | Some t => Ok t
           | None => Error KeyError
           end in
  buscar_en_tabla tabla sub puntaje_bruto.

End Converter.

(** ** Files and the JSON loaders *)

(** What [open] and [json.load] find at a path. *)
Inductive archivo (A : Type) : Type :=
  | Ausente                    (* open(): FileNotFoundError *)
  | Malformado                 (* json.load(): JSONDecodeError *)
  | Contenido (a : A).
Arguments Ausente {A}.
Arguments Malformado {A}.
Arguments Contenido {A} a.

Definition abrir_y_leer {A : Type} (f : archivo A) : resultado A :=
  match f with
  | Ausente => Error FileNotFoundError
  | Malformado => Error JSONDecodeError
  | Contenido a => Ok a
  end.

(** [d[clave]] on a loaded JSON object, [None] when the key is missing. *)
Definition clave_obligatoria {A : Type} (v : option A) : resultado A :=
  match v with
  | Some a => Ok a
  | None => Error KeyError
  end.

Module CargaConverter.
Import Converter.

(** [WISCConverter._cargar_datos]: the file holds an object whose key
    ['WISC_V_tablas_conversion'] may be missing. Each of the three
    handlers raises a plain [Exception]. *)
Definition _cargar_datos (f : archivo (option datos)) : resultado datos :=
  match (let* json := abrir_y_leer f in clave_obligatoria json) with
  | Ok d => Ok d
  | Error _ => Error ExceptionGenerica
  end.

(** [conversor = WISCConverter()] runs when the module is imported. *)
Definition modulo_converter (f : archivo (option datos)) : resultado datos :=
  _cargar_datos f.

(** main.py: [try: from core.converter import conversor
             except ImportError: conversor = None]. *)
Definition importar_conversor (f : archivo (option datos))
  : resultado (option datos) :=
  match modulo_converter f with
  | Ok d => Ok (Some d)
  | Error ImportError => Ok None
  | Error e => Error e
  end.

End CargaConverter.

(** ** data/tablas_wiscv.py *)

Module TablasWiscv.

(** A band's file: subtest code, scaled score, cell of raw scores. *)
Abbreviation tabla_grupo := (gmap string (gmap string string)).

(** [os.path.exists] and [os.listdir] on the ['tablas'] folder, each
    entry with what reading it gives. *)
Inductive carpeta : Type :=
  | NoExiste
  | NoEsCarpeta
  | Carpeta (entradas : list (string * archivo tabla_grupo)).

Definition listdir (c : carpeta)
  : resultado (list (string * archivo tabla_grupo)) :=
  match c with
  | NoExiste => Error FileNotFoundError
  | NoEsCarpeta => Error NotADirectoryError
  | Carpeta l => Ok l
  end.

(** [s.replace(viejo, nuevo)], left to right, without overlap. *)
Fixpoint reemplazar_desde (saltar : nat) (viejo nuevo s : string) : string :=
  match s with
  | EmptyString => EmptyString
  | String c s' =>
      match saltar with
      | S k => reemplazar_desde k viejo nuevo s'
      | O =>
          if String.prefix viejo s
          then nuevo ++ reemplazar_desde (String.length viejo - 1) viejo nuevo s'
          else String c (reemplazar_desde O viejo nuevo s')
      end
  end.

Definition reemplazar (viejo nuevo s : string) : string :=
  reemplazar_desde O viejo nuevo s.

(** [s.endswith(sufijo)] *)
Definition termina_en (sufijo s : string) : bool :=
  let n := String.length s in
  let k := String.length sufijo in
  (k <=? n)%nat && String.eqb (String.substring (n - k) k s) sufijo.

(** [clave_orden]: the integer before the first colon, 0 when [int]
    raises. *)
Definition clave_orden (grupo : string) : Z :=
  match partir dos_puntos grupo with
  | parte_edad :: _ =>
      match py_int parte_edad with
      | Ok n => n
      | Error _ => 0
      end
  | [] => 0
  end.

(** [list.sort(key=...)]: stable insertion by key. *)
Fixpoint insertar_por_clave {A : Type} (clave : A -> Z) (x : A) (l : list A)
  : list A :=
  match l with
  | [] => [x]
  | y :: l' => if clave x <=? clave y then x :: y :: l'
               else y :: insertar_por_clave clave x l'
  end.

Definition ordenar_por_clave {A : Type} (clave : A -> Z) (l : list A)
  : list A :=
  fold_right (fun x acc => insertar_por_clave clave x acc) [] l.

(** [obtener_tablas_por_defecto] *)
Definition obtener_tablas_por_defecto : gmap string tabla_grupo :=
  {[ "8:6-8:11" :=
     {[ "CC" := list_to_map
          [("1", "0-3"); ("2", "4"); ("3", "5"); ("4", "6-7"); ("5", "8-9");
           ("6", "10-11"); ("7", "12-14"); ("8", "15-16"); ("9", "17-19");
           ("10", "20-21"); ("11", "22-24"); ("12", "25-27"); ("13", "28-30");
           ("14", "31-32"); ("15", "33-35"); ("16", "36-37"); ("17", "38-39");
           ("18", "40-41"); ("19", "42-58")] ;
        "BAL" := list_to_map
          [("1", "0-3"); ("2", "4-5"); ("3", "6-7"); ("4", "8-9"); ("5", "10");
           ("6", "11"); ("7", "12"); ("8", "13"); ("9", "14"); ("10", "15-16");
           ("11", "17"); ("12", "19"); ("13", "20-20"); ("14", "21-22");
           ("15", "23"); ("16", "24-25"); ("17", "26"); ("18", "27");
           ("19", "28-34")] ]} ]}.

Definition es_archivo_de_tabla (archivo : string) : bool :=
  termina_en ".json" archivo && negb (String.eqb archivo "INFO.json").

(** The loading loop: a file that cannot be read is skipped. *)
Fixpoint cargar_archivos (l : list (string * archivo tabla_grupo))
    (tablas : gmap string tabla_grupo) (archivos_cargados : nat)
  : gmap string tabla_grupo * nat :=
  match l with
  | [] => (tablas, archivos_cargados)
  | (nombre_archivo, f) :: l' =>
      match abrir_y_leer f with
      | Ok t =>
          let nombre_grupo :=
            reemplazar "_" ":" (reemplazar ".json" "" nombre_archivo) in
          cargar_archivos l' (<[nombre_grupo := t]> tablas)
            (S archivos_cargados)
      | Error _ => cargar_archivos l' tablas archivos_cargados
      end
  end.

(** [cargar_tablas_completas] *)
Definition cargar_tablas_completas (c : carpeta)
  : resultado (gmap string tabla_grupo) :=
  match c with
  | NoExiste => Ok obtener_tablas_por_defecto
  | _ =>
      let* listado := listdir c in
      let archivos_json :=
        filter (fun e => es_archivo_de_tabla (fst e) = true) listado in
      let ordenados :=
        ordenar_por_clave
          (fun e => clave_orden (reemplazar "_" ":" (fst e))) archivos_json in
      let '(tablas, archivos_cargados) := cargar_archivos ordenados ∅ O in
      if (0 <? archivos_cargados)%nat then Ok tablas
      else Ok obtener_tablas_por_defecto
  end.

End TablasWiscv.

(** ** Python floats (IEEE-754 binary64) *)

Module Flotante.

Definition prec : Z := 53.
Definition emax : Z := 1024.

Abbreviation flotante := spec_float.

Definition fmul : flotante -> flotante -> flotante := SFmul prec emax.
Definition fadd : flotante -> flotante -> flotante := SFadd prec emax.

(** An integer as an unrounded mantissa with exponent 0. *)
Definition entero_crudo (n : Z) : flotante :=
  match n with
  | Z0 => S754_zero false
  | Zpos p => S754_finite false p 0
  | Zneg p => S754_finite true p 0
  end.

(** [float(n)] as the arithmetic operators convert an [int] operand:
    rounded to nearest even, [OverflowError] beyond the largest float. *)
Definition de_entero (n : Z) : resultado flotante :=
  match binary_normalize prec emax n 0 false with
  | S754_infinity _ => Error OverflowError
  | f => Ok f
  end.

(** [a / b] on two [int]: the correctly rounded quotient. *)
Definition division_real (a b : Z) : resultado flotante :=
  if b =? 0 then Error ZeroDivisionError
  else if a =? 0 then Ok (S754_zero (b <? 0))
  else match SFdiv prec emax (entero_crudo a) (entero_crudo b) with
       | S754_infinity _ => Error OverflowError
       | f => Ok f
       end.

(** [x * n] and [n + x] with a [float] [x] and an [int] [n]. *)
Definition por_entero (x : flotante) (n : Z) : resultado flotante :=
  let* y := de_entero n in Ok (fmul x y).

Definition entero_mas (n : Z) (x : flotante) : resultado flotante :=
  let* y := de_entero n in Ok (fadd y x).

(** The literal [0.7]. *)
Definition cero_coma_siete : flotante :=
  S754_finite false 6305039478318694 (-53).

(** The integer nearest to [m * 2^e], ties to even. *)
Definition entero_mas_cercano (m e : Z) : Z :=
  match e with
  | Z0 => m
  | Zpos _ => m * 2 ^ e
  | Zneg _ =>
      let d := 2 ^ (- e) in
      let q := m / d in
      let r := m mod d in
      match 2 * r ?= d with
      | Lt => q
      | Gt => q + 1
      | Eq => if Z.even q then q else q + 1
      end
  end.

(** [round(x)] with one argument. *)
Definition py_round (x : flotante) : resultado Z :=
  match x with
  | S754_zero _ => Ok 0
  | S754_infinity _ => Error OverflowError
  | S754_nan => Error (ValueError NaNAEntero)
  | S754_finite s m e => Ok (cond_Zopp s (entero_mas_cercano (Zpos m) e))
  end.

End Flotante.

(** ** Values of the composite tables *)

(** A percentile as the JSON file gives it: a string or an integer. *)
Inductive escalar_json : Type :=
  | JTexto (s : string)
  | JEntero (n : Z).

(** [str(v)] *)
Definition py_str (v : escalar_json) : string :=
  match v with
  | JTexto s => s
  | JEntero n => NilZero.string_of_int (Z.to_int n)
  end.

(** [min(l)], [max(l)] *)
Definition py_min (l : list Z) : resultado Z :=
  match l with
  | [] => Error (ValueError SecuenciaVacia)
  | x :: l' => Ok (fold_left Z.min l' x)
  end.

Definition py_max (l : list Z) : resultado Z :=
  match l with
  | [] => Error (ValueError SecuenciaVacia)
  | x :: l' => Ok (fold_left Z.max l' x)
  end.

(** [l[i]] for [i >= 0] and [l[-k]] for [k >= 1]. *)
Definition indice {A : Type} (l : list A) (i : nat) : resultado A :=
  match l !! i with
  | Some a => Ok a
  | None => Error IndexError
  end.

Definition indice_desde_el_final {A : Type} (l : list A) (k : nat)
  : resultado A :=
  if (k <=? length l)%nat then indice l (length l - k)%nat
  else Error IndexError.

(** ** main.py : ConversorCompuestos *)

Module Compuestos.
Import Flotante.

Record fila : Type := {
  suma : Z;
  valor : Z;
  percentil : escalar_json;
  conf_90 : string;
  conf_95 : string
}.

Record tabla_escala : Type := {
  nombre : string;
  datos : list fila
}.

(** The dictionary [convertir_compuesto] returns. *)
Record conversion : Type := {
  compuesto : Z;
  r_percentil : escalar_json;
  r_conf_90 : string;
  r_conf_95 : string;
  nombre_escala : string
}.

(** [cargar_tablas_compuestos]: the three candidate paths in order, the
    first that exists is read; the value is the object under
    ['tablas_conversion'], the empty structure on any failure. *)
Definition primera_ruta {A : Type} (rutas : list (archivo A)) : resultado (archivo A) :=
  match List.find (fun f => match f with Ausente => false | _ => true end) rutas with
  | Some f => Ok f
  | None => Error FileNotFoundError
  end.

Definition cargar_tablas_compuestos
    (rutas : list (archivo (option (gmap string tabla_escala))))
  : gmap string tabla_escala :=
  match (let* f := primera_ruta rutas in
         let* json := abrir_y_leer f in
         clave_obligatoria json) with
  | Ok tablas => tablas
  | Error _ => ∅
  end.

Definition de_fila (t : tabla_escala) (f : fila) : conversion :=
  {| compuesto := valor f;
     r_percentil := percentil f;
     r_conf_90 := conf_90 f;
     r_conf_95 := conf_95 f;
     nombre_escala := nombre t |}.

(** The branch [suma_escalar < min(sumas)]. *)
Definition extrapolar_bajo (t : tabla_escala) (suma_escalar : Z)
  : resultado conversion :=
  let* fila_min := indice (datos t) 0 in
  let* fila_sig := indice (datos t) 1 in
  let* pendiente :=
    division_real (valor fila_sig - valor fila_min)
                  (suma fila_sig - suma fila_min) in
  let* producto := por_entero pendiente (suma_escalar - suma fila_min) in
  let* valor_extrapolado := entero_mas (valor fila_min) producto in
  let* redondeado := py_round valor_extrapolado in
  Ok {| compuesto := Z.max 40 (Z.min 160 redondeado);
        r_percentil := percentil fila_min;
        r_conf_90 := conf_90 fila_min;
        r_conf_95 := conf_95 fila_min;
        nombre_escala := nombre t |}.

(** The branch [suma_escalar > max(sumas)]. *)
Definition extrapolar_alto (t : tabla_escala) (suma_escalar : Z)
  : resultado conversion :=
  let* fila_max := indice_desde_el_final (datos t) 1 in
  let* fila_ant := indice_desde_el_final (datos t) 2 in
  let* pendiente :=
    division_real (valor fila_max - valor fila_ant)
                  (suma fila_max - suma fila_ant) in
  let pendiente_conservadora := fmul pendiente cero_coma_siete in
  let* producto :=
    por_entero pendiente_conservadora (suma_escalar - suma fila_max) in
  let* valor_extrapolado := entero_mas (valor fila_max) producto in
  let* redondeado := py_round valor_extrapolado in
  Ok {| compuesto := Z.max (valor fila_max) (Z.min 160 redondeado);
        r_percentil :=
          if contiene "99.9" (py_str (percentil fila_max))
          then JTexto ">99.9" else percentil fila_max;
        r_conf_90 := conf_90 fila_max;
        r_conf_95 := conf_95 fila_max;
        nombre_escala := nombre t |}.

(** The body of the interpolation loop for the rows [i] and [i+1]. *)
Definition interpolar_entre (t : tabla_escala) (fila_inf fila_sup : fila)
    (suma_escalar : Z) : resultado conversion :=
  let* ratio :=
    division_real (suma_escalar - suma fila_inf)
                  (suma fila_sup - suma fila_inf) in
  let* producto := por_entero ratio (valor fila_sup - valor fila_inf) in
  let* v := entero_mas (valor fila_inf) producto in
  let* redondeado := py_round v in
  Ok {| compuesto := redondeado;
        r_percentil := percentil fila_inf;
        r_conf_90 := conf_90 fila_inf;
        r_conf_95 := conf_95 fila_inf;
        nombre_escala := nombre t |}.

(** [for i in range(len(datos)-1)]: [None] when the loop ends without a
    [return]. *)
Fixpoint interpolar (t : tabla_escala) (filas : list fila) (suma_escalar : Z)
  : option (resultado conversion) :=
  match filas with
  | fila_inf :: ((fila_sup :: _) as resto) =>
      if (suma fila_inf <=? suma_escalar) && (suma_escalar <=? suma fila_sup)
      then Some (interpolar_entre t fila_inf fila_sup suma_escalar)
      else interpolar t resto suma_escalar
  | _ => None
  end.

(** The part of [convertir_compuesto] that works on one index table. *)
Definition convertir_en_tabla (t : tabla_escala) (suma_escalar : Z)
  : resultado conversion :=
  match List.find (fun f => suma f =? suma_escalar) (datos t) with
  | Some f => Ok (de_fila t f)
  | None =>
      let sumas := map suma (datos t) in
      let* minimo := py_min sumas in
      if suma_escalar <? minimo then extrapolar_bajo t suma_escalar
      else
        let* maximo := py_max sumas in
        if suma_escalar >? maximo then extrapolar_alto t suma_escalar
        else
          match interpolar t (datos t) suma_escalar with
          | Some r => r
          | None =>
              let* ultima := indice_desde_el_final (datos t) 1 in
              Ok (de_fila t ultima)
          end
  end.

(** [convertir_compuesto]; the [except Exception: ... raise] re-raises. *)
Definition convertir_compuesto (tablas_conversion : gmap string tabla_escala)
    (escala_abrev : string) (suma_escalar : Z) : resultado conversion :=
  if decide (tablas_conversion = ∅) then Error (ValueError TablasNoCargadas)
  else
    match tablas_conversion !! escala_abrev with
    | None => Error (ValueError EscalaNoEncontrada)
    | Some t => convertir_en_tabla t suma_escalar
    end.

End Compuestos.

(** ** main.py : ConversorCIT and calcular_escala_total_cit *)

Module CIT.
Import Flotante.

Record fila : Type := {
  suma : Z;
  cit : Z;
  percentil : escalar_json;
  conf_90 : string;
  conf_95 : string
}.

(** The dictionary [convertir_cit] returns. *)
Record conversion : Type := {
  compuesto : Z;
  r_percentil : escalar_json;
  r_conf_90 : string;
  r_conf_95 : string
}.

(** The JSON object of [wisc_v_cit.json]: whether it has the key
    ['tabla'] (it is printed after loading) and its ['datos']. *)
Record json_cit : Type := {
  tiene_tabla : bool;
  json_datos : option (list fila)
}.

(** [cargar_tabla_cit]: [{"datos": []}] on any failure. *)
Definition cargar_tabla_cit (rutas : list (archivo json_cit)) : json_cit :=
  match (let* f := Compuestos.primera_ruta rutas in
         let* json := abrir_y_leer f in
         if tiene_tabla json then Ok json else Error KeyError) with
  | Ok json => json
  | Error _ => {| tiene_tabla := false; json_datos := Some [] |}
  end.

Definition de_fila (f : fila) : conversion :=
  {| compuesto := cit f;
     r_percentil := percentil f;
     r_conf_90 := conf_90 f;
     r_conf_95 := conf_95 f |}.

Definition interpolar_entre (fila_inf fila_sup : fila) (suma_escalar : Z)
  : resultado conversion :=
  let* ratio :=
    division_real (suma_escalar - suma fila_inf)
                  (suma fila_sup - suma fila_inf) in
  let* producto := por_entero ratio (cit fila_sup - cit fila_inf) in
  let* v := entero_mas (cit fila_inf) producto in
  let* redondeado := py_round v in
  Ok {| compuesto := redondeado;
        r_percentil := percentil fila_inf;
        r_conf_90 := conf_90 fila_inf;
        r_conf_95 := conf_95 fila_inf |}.

Fixpoint interpolar (filas : list fila) (suma_escalar : Z)
  : option (resultado conversion) :=
  match filas with
  | fila_inf :: ((fila_sup :: _) as resto) =>
      if (suma fila_inf <=? suma_escalar) && (suma_escalar <=? suma fila_sup)
      then Some (interpolar_entre fila_inf fila_sup suma_escalar)
      else interpolar resto suma_escalar
  | _ => None
  end.

(** [convertir_cit] on the loaded ['datos']. When the interpolation loop
    ends without a [return], the variable [fila] still holds the last row
    the first loop visited. *)
Definition convertir_en_datos (datos : list fila) (suma_escalar : Z)
  : resultado conversion :=
  match datos with
  | [] => Error (ValueError TablaCITNoCargada)
  | _ =>
      match List.find (fun f => suma f =? suma_escalar) datos with
      | Some f => Ok (de_fila f)
      | None =>
          let sumas := map suma datos in
          let* minimo := py_min sumas in
          if suma_escalar <? minimo then
            let* f := indice datos 0 in Ok (de_fila f)
          else
            let* maximo := py_max sumas in
            if suma_escalar >? maximo then
              let* f := indice_desde_el_final datos 1 in Ok (de_fila f)
            else
              match interpolar datos suma_escalar with
              | Some r => r
              | None =>
                  let* f := indice_desde_el_final datos 1 in Ok (de_fila f)
              end
      end
  end.

Definition convertir_cit (tabla_cit : json_cit) (suma_escalar : Z)
  : resultado conversion :=
  let* datos := clave_obligatoria (json_datos tabla_cit) in
  convertir_en_datos datos suma_escalar.

Definition subpruebas_principales : list string :=
  ["CC"; "AN"; "MR"; "RD"; "CLA"; "VOC"; "BAL"].

(** [calcular_escala_total_cit]: [None] is the branch that only clears
    the row, [Some r] the branch that calls [convertir_cit] (the row shows
    the result, or is cleared when the call raised). *)
Definition calcular_escala_total_cit (tabla_cit : json_cit)
    (puntajes_escalares : gmap string Z) : option (resultado conversion) :=
  let puntajes_disponibles :=
    omap (fun subtest => puntajes_escalares !! subtest)
         subpruebas_principales in
  if (length puntajes_disponibles =? 7)%nat
  then Some (convertir_cit tabla_cit (fold_left Z.add puntajes_disponibles 0))
  else None.

End CIT.

(** ** main.py : DatabaseManager *)

Module BaseDatos.

Record paciente : Type := {
  p_id : string;
  p_nombre : string;
  p_dni : option string;
  p_fecha_nacimiento : string;
  p_notas : option string;
  p_fecha_registro : string
}.

Record evaluacion : Type := {
  e_id : string;
  e_paciente_id : string;
  e_fecha_evaluacion : string;
  e_datos_evaluacion : string
}.

(** The two tables of the SQLite file. *)
Record base : Type := {
  pacientes : list paciente;
  evaluaciones : list evaluacion
}.

(** The two statements [eliminar_paciente] sends. *)
Inductive consulta : Type :=
  | BorrarEvaluacionesDe (paciente_id : string)
      (* DELETE FROM evaluaciones WHERE paciente_id = ? *)
  | BorrarPaciente (paciente_id : string).
      (* DELETE FROM pacientes WHERE id = ? *)

Definition sin_evaluaciones_de (id : string) (l : list evaluacion)
  : list evaluacion :=
  filter (fun e => e_paciente_id e ≠ id) l.

(** The effect of a statement. Every connection runs
    [PRAGMA foreign_keys = ON] and [evaluaciones.paciente_id] is declared
    [ON DELETE CASCADE]: deleting a patient deletes its evaluations. *)
Definition aplicar (q : consulta) (db : base) : base :=
  match q with
  | BorrarEvaluacionesDe id =>
      {| pacientes := pacientes db;
         evaluaciones := sin_evaluaciones_de id (evaluaciones db) |}
  | BorrarPaciente id =>
      {| pacientes := filter (fun p => p_id p ≠ id) (pacientes db);
         evaluaciones := sin_evaluaciones_de id (evaluaciones db) |}
  end.

(** [ejecutar_consulta] without [fetch]: [sqlite_ok] tells whether
    connecting, executing and committing went through; when SQLite raises,
    nothing is committed and the method returns [False]. *)
Definition ejecutar_consulta (sqlite_ok : bool) (q : consulta) (db : base)
  : base * bool :=
  if sqlite_ok then (aplicar q db, true) else (db, false).

(** [eliminar_paciente]: both statements are always sent. *)
Definition eliminar_paciente (ok_eval ok_pac : bool) (paciente_id : string)
    (db : base) : base * bool :=
  let '(db1, exito_eval) :=
    ejecutar_consulta ok_eval (BorrarEvaluacionesDe paciente_id) db in
  let '(db2, exito_pac) :=
    ejecutar_consulta ok_pac (BorrarPaciente paciente_id) db1 in
  (db2, exito_eval && exito_pac).

End BaseDatos.

(** ** Reading of a cell, of an age and of the error taxonomy *)

Module Lectura.
Import Converter.

(** The inclusive range of raw scores a cell stands for: ["low-high"], or
    a single value; [None] for ["-"], an empty cell and any other text. *)
Definition rango_de_celda (s : string) : option (Z * Z) :=
  if contiene_caracter guion s then
    match partir guion s with
    | [a; b] =>
        match py_int a, py_int b with
        | Ok lo, Ok hi => Some (lo, hi)
        | _, _ => None
        end
    | _ => None
    end
  else
    match py_int s with
    | Ok n => Some (n, n)
    | Error _ => None
    end.

(** The raw score falls in the cell of a row. *)
Definition en_celda (puntaje : Z) (celda : option string) : bool :=
  match celda with
  | None => false
  | Some s =>
      match rango_de_celda s with
      | Some (lo, hi) => (lo <=? puntaje) && (puntaje <=? hi)
      | None => false
      end
  end.



End Lectura.

(** ** Rounding to nearest even on the reals *)

(** The arithmetic of [Flotante] is the one of [SpecFloat], which works on
    integer mantissas. Its meaning is stated here on the real numbers: a
    binary64 operation returns the float nearest to the exact result, ties
    to the even mantissa. *)

Module Redondeo.
Import Flotante.

Definition bpow (e : Z) : R := powerRZ 2 e.

(** The real [u] lies where the record of a right shift says: on the
    mantissa, below, on or above the midpoint to the next one. *)
Definition loc_rec (mrs : shr_record) (u : R) : Prop :=
  match shr_r mrs, shr_s mrs with
  | false, false => u = IZR (shr_m mrs)
  | false, true => (IZR (shr_m mrs) < u < IZR (shr_m mrs) + / 2)%R
  | true, false => u = (IZR (shr_m mrs) + / 2)%R
  | true, true => (IZR (shr_m mrs) + / 2 < u < IZR (shr_m mrs) + 1)%R
  end.

(** [k] is the integer nearest to [u], the even one on a tie. *)
Definition cercano (u : R) (k : Z) : Prop :=
  (IZR k - / 2 <= u <= IZR k + / 2)%R /\
  ((u = IZR k - / 2 \/ u = IZR k + / 2)%R -> Z.even k = true).

(** [c] is the exponent binary64 gives to a positive real [x]. *)
Definition es_cexp (x : R) (c : Z) : Prop :=
  (c = -1074 /\ (0 < x < bpow (-1021))%R) \/
  (-1074 < c /\ (bpow (c + 52) <= x < bpow (c + 53))%R).

Definition canonico (m e : Z) : Prop :=
  fexp prec emax (Zdigits2 m + e) = e.

Definition resultado_redondeo (sx : bool) (k c : Z) (f : spec_float) : Prop :=
  (k = 0 /\ f = S754_zero sx) \/
  (0 < k /\ exists (m : positive) (e : Z),
     (IZR (Zpos m) * bpow e = IZR k * bpow c)%R /\ canonico (Zpos m) e /\
     f = if e <=? 971 then S754_finite sx m e else S754_infinity sx).

(** [y] is [x] rounded to binary64, the exponent range unbounded above. *)
Definition redondea_pos (x y : R) : Prop :=
  exists c k, es_cexp x c /\ cercano (x * bpow (- c)) k /\
              y = (IZR k * bpow c)%R.

Definition redondea (x y : R) : Prop :=
  (x = 0%R /\ y = 0%R) \/
  ((0 < x)%R /\ redondea_pos x y) \/
  ((x < 0)%R /\ redondea_pos (- x) (- y)).

(** The real number a float stands for. *)
Definition valor_real (f : spec_float) : R :=
  match f with
  | S754_finite s m e =>
      if s then (- (IZR (Zpos m) * bpow e))%R else (IZR (Zpos m) * bpow e)%R
  | _ => 0%R
  end.

Definition finito (f : spec_float) : Prop :=
  match f with
  | S754_finite _ _ _ | S754_zero _ => True
  | _ => False
  end.

Definition bien_formado (f : spec_float) : Prop :=
  match f with
  | S754_finite _ m e => canonico (Zpos m) e /\ e <= 971
  | _ => True
  end.

Definition con_signo (s : bool) (x : R) : R := if s then (- x)%R else x.

(** [f] is the float an operation with exact result [x] returns: the
    rounding of [x], or an infinity when the rounding leaves the range. *)
Definition redondeado_a (x : R) (f : spec_float) : Prop :=
  exists y, redondea x y /\
    (((- bpow 1024 < y < bpow 1024)%R /\ finito f /\ bien_formado f /\
      valor_real f = y) \/
     ((y <= - bpow 1024 \/ bpow 1024 <= y)%R /\ exists s, f = S754_infinity s)).

Definition en_cota (v : R) (j : Z) : Prop := (- bpow j <= v <= bpow j)%R.

Definition flotante_ok (f : spec_float) : Prop := finito f /\ bien_formado f.

(** The value of the literal [0.7]. *)
Definition siete_decimos : R := valor_real cero_coma_siete.

(** The three formulas of the composite conversion, each operation
    rounded as Python rounds it and the last step [round]:
    [vi + (s - si) / (ss - si) * (vs - vi)],
    [v0 + (v1 - v0) / (s1 - s0) * (s - s0)] and
    [vm + (vm - va) / (sm - sa) * 0.7 * (s - sm)]. *)
Definition interpolacion_redondeada (si vi ss vs s k : Z) : Prop :=
  exists ratio p w : R,
    redondea (IZR (s - si) / IZR (ss - si)) ratio /\
    redondea (ratio * IZR (vs - vi)) p /\
    redondea (IZR vi + p) w /\
    cercano w k.

Definition extrapolacion_baja (s0 v0 s1 v1 s k : Z) : Prop :=
  exists pendiente p w : R,
    redondea (IZR (v1 - v0) / IZR (s1 - s0)) pendiente /\
    redondea (pendiente * IZR (s - s0)) p /\
    redondea (IZR v0 + p) w /\
    cercano w k.

Definition extrapolacion_alta (sa va sm vm s k : Z) : Prop :=
  exists pendiente conservadora p w : R,
    redondea (IZR (vm - va) / IZR (sm - sa)) pendiente /\
    redondea (pendiente * siete_decimos) conservadora /\
    redondea (conservadora * IZR (s - sm)) p /\
    redondea (IZR vm + p) w /\
    cercano w k.

End Redondeo.

(** ** Ordered tables *)

(** The invariant the tables are assumed to have: rows keyed by their sum,
    in ascending order. The integers of a table are small; the bound
    [2^52] keeps every difference exact in binary64. *)

Module Orden.
Import Compuestos.

Fixpoint encadenada {A : Type} (rel : A -> A -> bool) (l : list A) : bool :=
  match l with
  | a :: ((b :: _) as r) => rel a b && encadenada rel r
  | _ => true
  end.

Definition acotado (n : Z) : Prop := Z.abs n < 2 ^ 52.

Definition fila_acotada (f : fila) : Prop :=
  acotado (suma f) /\ acotado (valor f).

Definition sumas_ascendentes (l : list fila) : bool :=
  encadenada (fun f g => suma f <? suma g) l.

Definition valores_no_decrecientes (l : list fila) : bool :=
  encadenada (fun f g => valor f <=? valor g) l.

(** An ordered composite table: at least two rows, sums strictly
    ascending, values non-decreasing from at least 40, all integers of
    magnitude below [2^52]. *)
Definition tabla_ordenada (t : tabla_escala) : Prop :=
  (exists f0 f1 resto, datos t = f0 :: f1 :: resto /\ 40 <= valor f0) /\
  sumas_ascendentes (datos t) = true /\
  valores_no_decrecientes (datos t) = true /\
  Forall fila_acotada (datos t).

Definition fila_cit_acotada (f : CIT.fila) : Prop :=
  acotado (CIT.suma f) /\ acotado (CIT.cit f).

Definition sumas_cit_ascendentes (l : list CIT.fila) : bool :=
  encadenada (fun f g => CIT.suma f <? CIT.suma g) l.

End Orden.

(** ** Example data *)

(** Small tables, a patient file and score sheets on which the theorems
    below are instantiated. *)

Module Ejemplos.



Definition fila_compuesta (s v : Z) (p : escalar_json) (c90 c95 : string)
  : Compuestos.fila :=
  {| Compuestos.suma := s; Compuestos.valor := v;
     Compuestos.percentil := p;
     Compuestos.conf_90 := c90; Compuestos.conf_95 := c95 |}.

Definition fila_10 : Compuestos.fila :=
  fila_compuesta 10 100 (JEntero 50) "94-106" "93-107".
Definition fila_12 : Compuestos.fila :=
  fila_compuesta 12 110 (JEntero 75) "103-116" "102-117".
Definition fila_14 : Compuestos.fila :=
  fila_compuesta 14 120 (JTexto "99.9") "112-126" "111-127".

(** A table whose last row has the percentile 99.9. *)
Definition tabla_icv : Compuestos.tabla_escala :=
  {| Compuestos.nombre := "Comprension Verbal";
     Compuestos.datos := [fila_10; fila_12; fila_14] |}.

Definition tablas_icv : gmap string Compuestos.tabla_escala :=
  {[ "ICV" := tabla_icv ]}.

(** A table, ordered by sum and by value, whose values lie below 40. *)
Definition tabla_baja : Compuestos.tabla_escala :=
  {| Compuestos.nombre := "Comprension Verbal";
     Compuestos.datos :=
       [fila_compuesta 10 30 (JEntero 1) "27-37" "26-38";
        fila_compuesta 11 35 (JEntero 1) "32-42" "31-43"] |}.

Definition tablas_bajas : gmap string Compuestos.tabla_escala :=
  {[ "ICV" := tabla_baja ]}.

Definition fila_cit (s c : Z) (p : escalar_json) (c90 c95 : string)
  : CIT.fila :=
  {| CIT.suma := s; CIT.cit := c; CIT.percentil := p;
     CIT.conf_90 := c90; CIT.conf_95 := c95 |}.

Definition datos_cit : list CIT.fila :=
  [fila_cit 60 90 (JEntero 25) "85-96" "84-97";
   fila_cit 70 100 (JEntero 50) "95-105" "94-106";
   fila_cit 80 110 (JEntero 75) "104-115" "103-116"].

Definition tabla_cit : CIT.json_cit :=
  {| CIT.tiene_tabla := true; CIT.json_datos := Some datos_cit |}.

Definition paciente_de (id nombre : string) : BaseDatos.paciente :=
  {| BaseDatos.p_id := id; BaseDatos.p_nombre := nombre;
     BaseDatos.p_dni := None; BaseDatos.p_fecha_nacimiento := "2015-03-02";
     BaseDatos.p_notas := None;
     BaseDatos.p_fecha_registro := "2024-05-01 10:00:00" |}.

Definition evaluacion_de (id paciente_id : string) : BaseDatos.evaluacion :=
  {| BaseDatos.e_id := id; BaseDatos.e_paciente_id := paciente_id;
     BaseDatos.e_fecha_evaluacion := "2024-05-02 09:30:00";
     BaseDatos.e_datos_evaluacion := "{}" |}.

Definition base_ejemplo : BaseDatos.base :=
  {| BaseDatos.pacientes := [paciente_de "p1" "Ana"; paciente_de "p2" "Luis"];
     BaseDatos.evaluaciones :=
       [evaluacion_de "e1" "p1"; evaluacion_de "e2" "p2";
        evaluacion_de "e3" "p1"] |}.

End Ejemplos.

(** ** Ordered CIT tables and exact values *)

Module OrdenCIT.
Import Orden.

Definition cits_no_decrecientes (l : list CIT.fila) : bool :=
  encadenada (fun f g => CIT.cit f <=? CIT.cit g) l.

(** An ordered CIT table: sums strictly ascending, values
    non-decreasing, all integers of magnitude below [2^52]. *)
Definition cit_ordenada (l : list CIT.fila) : Prop :=
  l <> [] /\ sumas_cit_ascendentes l = true /\
  cits_no_decrecientes l = true /\ Forall fila_cit_acotada l.

(** The exact value of the interpolation. *)
Definition interpolacion_exacta (si vi ss vs s : Z) : R :=
  (IZR vi + IZR (s - si) / IZR (ss - si) * IZR (vs - vi))%R.

End OrdenCIT.

(** ** The names of the band files *)

Module TablasCargadas.
Import TablasWiscv.

(** The key a band file is stored under: ["8_6-8_11.json"] gives
    ["8:6-8:11"]. *)
Definition nombre_de_grupo (nombre_archivo : string) : string :=
  reemplazar "_" ":" (reemplazar ".json" "" nombre_archivo).

End TablasCargadas.

(** ** main.py : DatabaseManager, the other operations *)

Module Pacientes.
Import BaseDatos.

(** The declared constraints: [id] is the primary key of both tables and
    [evaluaciones.paciente_id] references [pacientes.id]. *)
Definition integra (db : base) : Prop :=
  NoDup (map p_id (pacientes db)) /\
  NoDup (map e_id (evaluaciones db)) /\
  Forall (fun e => e_paciente_id e ∈ map p_id (pacientes db))
         (evaluaciones db).

(** [INSERT INTO pacientes]: SQLite refuses a primary key that is taken. *)
Definition insertar_paciente (p : paciente) (db : base) : option base :=
  if decide (p_id p ∈ map p_id (pacientes db)) then None
  else Some {| pacientes := pacientes db ++ [p];
               evaluaciones := evaluaciones db |}.

(** [INSERT INTO evaluaciones]: with [PRAGMA foreign_keys = ON] the
    patient must exist. *)
Definition insertar_evaluacion (e : evaluacion) (db : base) : option base :=
  if decide (e_id e ∈ map e_id (evaluaciones db)) then None
  else if decide (e_paciente_id e ∈ map p_id (pacientes db))
  then Some {| pacientes := pacientes db;
               evaluaciones := evaluaciones db ++ [e] |}
  else None.

(** [agregar_paciente]: [uuid8] is [str(uuid.uuid4())[:8]], [ahora] the
    [CURRENT_TIMESTAMP] of the insertion, [fecha_nacimiento] the
    [isoformat()] of the date. The id, or [None]. *)
Definition agregar_paciente (sqlite_ok : bool) (uuid8 ahora nombre : string)
    (dni : option string) (fecha_nacimiento : string) (notas : option string)
    (db : base) : base * option string :=
  let paciente_id := uuid8 in
  if sqlite_ok then
    match insertar_paciente
            {| p_id := paciente_id; p_nombre := nombre; p_dni := dni;
               p_fecha_nacimiento := fecha_nacimiento; p_notas := notas;
               p_fecha_registro := ahora |} db with
    | Some db' => (db', Some paciente_id)
    | None => (db, None)
    end
  else (db, None).

(** [obtener_paciente]: the first row of
    [SELECT ... FROM pacientes WHERE id = ?], [None] without rows or when
    SQLite raises. *)
Definition obtener_paciente (sqlite_ok : bool) (paciente_id : string)
    (db : base) : option paciente :=
  if sqlite_ok
  then List.find (fun p => bool_decide (p_id p = paciente_id)) (pacientes db)
  else None.

(** [actualizar_paciente]: [UPDATE pacientes SET ... WHERE id = ?]. *)
Definition actualizar_paciente (sqlite_ok : bool)
    (paciente_id nombre : string) (dni : option string)
    (fecha_nacimiento : string) (notas : option string) (db : base)
  : base * bool :=
  if sqlite_ok then
    ({| pacientes :=
          map (fun p =>
                 if bool_decide (p_id p = paciente_id)
                 then {| p_id := p_id p; p_nombre := nombre; p_dni := dni;
                         p_fecha_nacimiento := fecha_nacimiento;
                         p_notas := notas;
                         p_fecha_registro := p_fecha_registro p |}
                 else p) (pacientes db);
        evaluaciones := evaluaciones db |}, true)
  else (db, false).

(** [agregar_evaluacion]: [primer_json] is what [json.dumps] with the
    custom serializer returns ([None] when it raises), [segundo_json] what
    the second attempt on the simplified copy returns. The statement is
    sent at most once. *)
Definition agregar_evaluacion (sqlite_ok : bool) (uuid8 ahora : string)
    (paciente_id : string) (primer_json segundo_json : option string)
    (db : base) : base * option string :=
  let evaluacion_id := uuid8 in
  let enviar (datos_json : string) :=
    if sqlite_ok then
      match insertar_evaluacion
              {| e_id := evaluacion_id; e_paciente_id := paciente_id;
                 e_fecha_evaluacion := ahora;
                 e_datos_evaluacion := datos_json |} db with
      | Some db' => (db', Some evaluacion_id)
      | None => (db, None)
      end
    else (db, None) in
  match primer_json with
  | Some datos_json => enviar datos_json
  | None =>
      match segundo_json with
      | Some datos_json => enviar datos_json
      | None => (db, None)
      end
  end.

End Pacientes.

(** ** main.py : WiscVApp, the score form *)

Module Interfaz.

(** [s.strip()] *)
Definition strip (s : string) : string :=
  string_of_list_ascii (quitar_espacios (list_ascii_of_string s)).

(** [str(n)] and [f"{n}"] for an [int]. *)
Definition texto_de_entero (n : Z) : string := py_str (JEntero n).

(** The fields of [relativedelta(hoy, fecha_nacimiento)]. *)
Record relativedelta : Type := {
  years : Z;
  months : Z;
  days : Z
}.

(** [self.edad_calculada] *)
Record edad_calculada : Type := {
  edad_anos : Z;
  edad_meses_sueltos : Z;
  edad_dias : Z;
  fecha_nacimiento : Z * Z * Z;
  edad_formato : string;
  edad_meses : Z
}.

Inductive advertencia : Type :=
  | EdadMenorAlMinimo          (* "... es menor al rango mínimo (6 años)" *)
  | EdadMayorAlMaximo.         (* "... excede el rango máximo" *)

(** [calcular_edad_actual] from the difference of dates on: what is
    stored, and the warning shown. *)
Definition guardar_edad (nacimiento : Z * Z * Z) (diferencia : relativedelta)
  : edad_calculada * option advertencia :=
  let e :=
    {| edad_anos := years diferencia;
       edad_meses_sueltos := months diferencia;
       edad_dias := days diferencia;
       fecha_nacimiento := nacimiento;
       edad_formato :=
         texto_de_entero (years diferencia) ++ ":" ++
         texto_de_entero (months diferencia);
       edad_meses := years diferencia * 12 + months diferencia |} in
  let edad_meses_total := edad_meses e in
  (e, if edad_meses_total <? 72 then Some EdadMenorAlMinimo
      else if edad_meses_total >? 203 then Some EdadMayorAlMaximo
      else None).

(** The body of the loop of [calcular_puntajes]: the text the label of a
    subtest gets for the text of its entry. *)
Definition etiqueta_de (conversor : Converter.datos)
    (edad_formato subprueba entrada : string) : string :=
  let puntaje_bruto_str := strip entrada in
  if String.eqb puntaje_bruto_str "" then ""
  else
    match (let* puntaje_bruto := py_int puntaje_bruto_str in
           Converter.convertir_puntaje conversor edad_formato subprueba
             puntaje_bruto) with
    | Ok puntaje_escala => texto_de_entero puntaje_escala
    | Error e => if es_ValueError e then "Inválido" else "Error"
    end.

(** The first loop of [calcular_puntajes_compuestos]: the scaled score a
    label contributes, if any. *)
Definition leer_etiqueta (texto : string) : option Z :=
  if negb (String.eqb texto "") && negb (String.eqb (strip texto) "") &&
     negb (String.eqb texto "Inválido" || String.eqb texto "Error")
  then match py_int texto with
       | Ok n => Some n
       | Error _ => None
       end
  else None.

Fixpoint puntajes_escalares_de (etiquetas : list (string * string))
    (puntajes_escalares : gmap string Z) : gmap string Z :=
  match etiquetas with
  | [] => puntajes_escalares
  | (subprueba, texto) :: resto =>
      puntajes_escalares_de resto
        match leer_etiqueta texto with
        | Some n => <[subprueba := n]> puntajes_escalares
        | None => puntajes_escalares
        end
  end.

(** [mapeo_escalas_json] *)
Definition mapeo_escalas_json : list (string * string) :=
  [("Comprensión Verbal (ICV)", "ICV");
   ("Visoespacial (IVE)", "IVE");
   ("Razonamiento Fluido (IRF)", "IRF");
   ("Memoria de Trabajo (IMT)", "IMT");
   ("Velocidad de Procesamiento (IVP)", "IVP")].

(** [self.escalas_compuestas] *)
Definition escalas_compuestas : list (string * list string) :=
  [("Comprensión Verbal (ICV)", ["AN"; "VOC"]);
   ("Visoespacial (IVE)", ["CC"; "RV"]);
   ("Razonamiento Fluido (IRF)", ["MR"; "BAL"]);
   ("Memoria de Trabajo (IMT)", ["RI"; "RD"]);
   ("Velocidad de Procesamiento (IVP)", ["CLA"; "BS"]);
   ("Escala Total (CIT)", ["CC"; "AN"; "MR"; "RD"; "CLA"; "VOC"; "BAL"])].

(** [d.get(k)] on a literal dictionary. *)
Fixpoint buscar_clave {A : Type} (k : string) (d : list (string * A))
  : option A :=
  match d with
  | [] => None
  | (k', v) :: d' => if String.eqb k' k then Some v else buscar_clave k d'
  end.

Definition obtener_color_puntaje (puntaje : Z) : string :=
  if puntaje >=? 130 then "#27ae60"
  else if puntaje >=? 120 then "#2ecc71"
  else if puntaje >=? 110 then "#3498db"
  else if puntaje >=? 90 then "#f39c12"
  else if puntaje >=? 80 then "#e67e22"
  else if puntaje >=? 70 then "#e74c3c"
  else "#c0392b".

(** The four labels of a row of composite results, and its colour. *)
Record fila_mostrada : Type := {
  texto_suma : string;
  texto_compuesto : string;
  color_compuesto : string;
  texto_percentil : string;
  texto_confianza : string
}.

(** [limpiar_fila_compuesto]; the colour is left as it was. *)
Definition fila_limpia (color : string) : fila_mostrada :=
  {| texto_suma := ""; texto_compuesto := ""; color_compuesto := color;
     texto_percentil := ""; texto_confianza := "" |}.

(** The body of the loop of [calcular_puntajes_compuestos] for an index
    other than the total scale. *)
Definition fila_compuesta (tablas : gmap string Compuestos.tabla_escala)
    (nivel escala : string) (subtests_escala : list string)
    (puntajes_escalares : gmap string Z) (previa : fila_mostrada)
  : fila_mostrada :=
  let puntajes_disponibles :=
    omap (fun subtest => puntajes_escalares !! subtest) subtests_escala in
  match puntajes_disponibles with
  | [] => fila_limpia (color_compuesto previa)
  | _ =>
      let suma_puntajes := fold_left Z.add puntajes_disponibles 0 in
      match buscar_clave escala mapeo_escalas_json with
      | Some abreviatura =>
          match Compuestos.convertir_compuesto tablas abreviatura
                  suma_puntajes with
          | Ok resultado =>
              {| texto_suma := texto_de_entero suma_puntajes;
                 texto_compuesto :=
                   texto_de_entero (Compuestos.compuesto resultado);
                 color_compuesto :=
                   obtener_color_puntaje (Compuestos.compuesto resultado);
                 texto_percentil :=
                   py_str (Compuestos.r_percentil resultado) ++ "%";
                 texto_confianza :=
                   if String.eqb nivel "90%"
                   then Compuestos.r_conf_90 resultado
                   else Compuestos.r_conf_95 resultado |}
          | Error _ => fila_limpia (color_compuesto previa)
          end
      | None => fila_limpia (color_compuesto previa)
      end
  end.

(** What [recolectar_datos_evaluacion] stores for a row of composite
    results. *)
Record compuesto_guardado : Type := {
  suma_escalar : string;
  g_compuesto : Z;
  g_percentil : string;
  intervalo_confianza : string
}.

Definition recolectar_compuesto (f : fila_mostrada)
  : option compuesto_guardado :=
  if negb (String.eqb (texto_compuesto f) "") &&
     negb (String.eqb (strip (texto_compuesto f)) "")
  then match py_int (texto_compuesto f) with
       | Ok n => Some {| suma_escalar := texto_suma f; g_compuesto := n;
                         g_percentil := texto_percentil f;
                         intervalo_confianza := texto_confianza f |}
       | Error _ => None
       end
  else None.

(** [obtener_abreviatura_escala] *)
Definition obtener_abreviatura_escala (escala_completa : string) : string :=
  if contiene "(ICV)" escala_completa then "ICV"
  else if contiene "(IVE)" escala_completa then "IVE"
  else if contiene "(IRF)" escala_completa then "IRF"
  else if contiene "(IMT)" escala_completa then "IMT"
  else if contiene "(IVP)" escala_completa then "IVP"
  else if contiene "(CIT)" escala_completa then "CIT"
  else "".

(** An entry of [self.labels_resultados_compuestos]: the four labels of
    the row with the colour of the composite, ['subtests'] and
    ['abreviatura']. *)
Record resultado_compuesto : Type := {
  labels : fila_mostrada;
  subtests : list string;
  abreviatura : string
}.

(** [crear_tabla_resultados_compuestos]: a row of empty labels for each
    of [escalas_compuestas], in their order; [color] is the foreground a
    new label has. *)
Definition crear_tabla_resultados_compuestos (color : string)
  : list (string * resultado_compuesto) :=
  map (fun '(escala, subtests_escala) =>
         (escala, {| labels := fila_limpia color;
                     subtests := subtests_escala;
                     abreviatura := obtener_abreviatura_escala escala |}))
      escalas_compuestas.

(** [calcular_escala_total_cit] on the labels of the row. *)
Definition fila_total (tabla_cit : CIT.json_cit) (nivel : string)
    (puntajes_escalares : gmap string Z) (previa : fila_mostrada)
  : fila_mostrada :=
  let puntajes_disponibles :=
    omap (fun subtest => puntajes_escalares !! subtest)
         CIT.subpruebas_principales in
  if (length puntajes_disponibles =? 7)%nat then
    let suma_puntajes := fold_left Z.add puntajes_disponibles 0 in
    match CIT.convertir_cit tabla_cit suma_puntajes with
    | Ok resultado =>
        {| texto_suma := texto_de_entero suma_puntajes;
           texto_compuesto := texto_de_entero (CIT.compuesto resultado);
           color_compuesto :=
             obtener_color_puntaje (CIT.compuesto resultado);
           texto_percentil := py_str (CIT.r_percentil resultado) ++ "%";
           texto_confianza :=
             if String.eqb nivel "90%" then CIT.r_conf_90 resultado
             else CIT.r_conf_95 resultado |}
    | Error _ => fila_limpia (color_compuesto previa)
    end
  else fila_limpia (color_compuesto previa).

(** One turn of the loop of [calcular_puntajes_compuestos]: the entry of
    [escala] afterwards. *)
Definition fila_calculada (tablas : gmap string Compuestos.tabla_escala)
    (tabla_cit : CIT.json_cit) (nivel : string)
    (puntajes_escalares : gmap string Z) (escala : string)
    (datos : resultado_compuesto) : resultado_compuesto :=
  {| labels :=
       if String.eqb escala "Escala Total (CIT)"
       then fila_total tabla_cit nivel puntajes_escalares (labels datos)
       else fila_compuesta tablas nivel escala (subtests datos)
              puntajes_escalares (labels datos);
     subtests := subtests datos;
     abreviatura := abreviatura datos |}.

(** The composite that turn keeps in [self.resultados_actuales], if it
    computed one. *)
Definition compuesto_calculado (tablas : gmap string Compuestos.tabla_escala)
    (tabla_cit : CIT.json_cit) (puntajes_escalares : gmap string Z)
    (escala : string) (datos : resultado_compuesto) : option Z :=
  if String.eqb escala "Escala Total (CIT)" then
    match CIT.calcular_escala_total_cit tabla_cit puntajes_escalares with
    | Some (Ok resultado) => Some (CIT.compuesto resultado)
    | _ => None
    end
  else
    match omap (fun subtest => puntajes_escalares !! subtest)
               (subtests datos) with
    | [] => None
    | puntajes_disponibles =>
        match buscar_clave escala mapeo_escalas_json with
        | Some abreviatura_json =>
            match Compuestos.convertir_compuesto tablas abreviatura_json
                    (fold_left Z.add puntajes_disponibles 0) with
            | Ok resultado => Some (Compuestos.compuesto resultado)
            | Error _ => None
            end
        | None => None
        end
    end.

(** The table of composite results and the values kept for the chart. *)
Record resultados : Type := {
  labels_resultados_compuestos : list (string * resultado_compuesto);
  resultados_actuales : gmap string Z
}.

(** [calcular_puntajes_compuestos]: [etiquetas] are the labels of the
    subtests, in the order of [self.entries_puntajes]. Without a single
    scaled score a warning is shown and nothing is touched. *)
Definition calcular_puntajes_compuestos
    (tablas : gmap string Compuestos.tabla_escala)
    (tabla_cit : CIT.json_cit) (nivel : string)
    (etiquetas : list (string * string)) (ui : resultados) : resultados :=
  let puntajes_escalares := puntajes_escalares_de etiquetas ∅ in
  if decide (puntajes_escalares = ∅) then ui
  else
    {| labels_resultados_compuestos :=
         map (fun '(escala, datos) =>
                (escala, fila_calculada tablas tabla_cit nivel
                           puntajes_escalares escala datos))
             (labels_resultados_compuestos ui);
       resultados_actuales :=
         fold_left
           (fun actuales '(escala, datos) =>
              match compuesto_calculado tablas tabla_cit puntajes_escalares
                      escala datos with
              | Some compuesto => <[abreviatura datos := compuesto]> actuales
              | None => actuales
              end)
           (labels_resultados_compuestos ui) ∅ |}.

End Interfaz.

(** ** main.py : PredictorEvolucionWISC *)

Module Predictor.

(** [_obtener_puntaje_compuesto]: the stored composites in the order of
    the dictionary, each entry with its ['compuesto'] if it has one. *)
Fixpoint _obtener_puntaje_compuesto (compuestos : list (string * option Z))
    (indice : string) : Z :=
  match compuestos with
  | [] => 0
  | (clave, datos) :: resto =>
      if contiene indice clave then default 0 datos
      else _obtener_puntaje_compuesto resto indice
  end.

End Predictor.

(** ** More sample data *)

Module Muestras.

(** A table of a single row. *)
Definition tabla_unica : Compuestos.tabla_escala :=
  {| Compuestos.nombre := "Velocidad de Procesamiento";
     Compuestos.datos := [Ejemplos.fila_10] |}.

(** A table whose first two rows share their sum. *)
Definition tabla_repetida : Compuestos.tabla_escala :=
  {| Compuestos.nombre := "Memoria de Trabajo";
     Compuestos.datos :=
       [Ejemplos.fila_compuesta 10 100 (JEntero 50) "94-106" "93-107";
        Ejemplos.fila_compuesta 10 105 (JEntero 63) "99-111" "98-112";
        Ejemplos.fila_12] |}.

(** A table whose rows are not in the order of their sums. *)
Definition tabla_desordenada : Compuestos.tabla_escala :=
  {| Compuestos.nombre := "Razonamiento Fluido";
     Compuestos.datos :=
       [Ejemplos.fila_compuesta 20 120 (JEntero 91) "113-125" "112-126";
        Ejemplos.fila_compuesta 10 100 (JEntero 50) "94-106" "93-107";
        Ejemplos.fila_compuesta 5 90 (JEntero 25) "85-96" "84-97"] |}.

(** CIT rows that are not in the order of their sums. *)
Definition datos_cit_desordenados : list CIT.fila :=
  [Ejemplos.fila_cit 80 110 (JEntero 75) "104-115" "103-116";
   Ejemplos.fila_cit 60 90 (JEntero 25) "85-96" "84-97";
   Ejemplos.fila_cit 40 70 (JEntero 2) "66-77" "65-78"].

Definition tabla_cit_desordenada : CIT.json_cit :=
  {| CIT.tiene_tabla := true;
     CIT.json_datos := Some datos_cit_desordenados |}.

(** A CIT file with rows but without the key ['tabla']. *)
Definition cit_sin_clave : CIT.json_cit :=
  {| CIT.tiene_tabla := false; CIT.json_datos := Some Ejemplos.datos_cit |}.

Definition banda_minima : TablasWiscv.tabla_grupo :=
  {[ "CC" := {[ "1" := "0-3"; "2" := "4" ]} ]}.

(** A folder with a band file, [INFO.json] and a file that cannot be
    read. *)
Definition carpeta_de_tablas
  : list (string * archivo TablasWiscv.tabla_grupo) :=
  [("8_6-8_11.json", Contenido banda_minima);
   ("INFO.json", Contenido ∅);
   ("9_0-9_5.json", Malformado)].

(** The labels of the form after a first computation. *)
Definition etiquetas_del_formulario : list (string * string) :=
  [("CC", ""); ("AN", "10"); ("MR", "Error"); ("VOC", "Inválido")].

(** The table of composite results before any computation. *)
Definition resultados_iniciales : Interfaz.resultados :=
  {| Interfaz.labels_resultados_compuestos :=
       Interfaz.crear_tabla_resultados_compuestos "black";
     Interfaz.resultados_actuales := ∅ |}.

End Muestras.

(** * Properties *)

(** ** The range test and the raw-to-scaled scan *)

Section RangoYTabla.
Import Converter Lectura.

Lemma py_int_error (s : string) (e : excepcion) :
  py_int s = Error e -> e = ValueError LiteralInvalido.
Proof.
  unfold py_int. destruct (leer_entero _); intros H; congruence.
Qed.

Lemma partir_no_vacio (sep : ascii) (s : string) : partir sep s <> [].
Proof.
  destruct s as [|c s]; simpl; [discriminate|].
  destruct (Ascii.eqb c sep); [discriminate|].
  destruct (partir sep s); discriminate.
Qed.

(** The code and the reading of the cell agree on every string. *)
Lemma esta_en_rango_celda (puntaje : Z) (s : string) :
  _esta_en_rango puntaje (Some s) = Ok (en_celda puntaje (Some s)).
Proof.
  unfold _esta_en_rango, en_celda, rango_de_celda.
  destruct (String.eqb_spec s "") as [->|Hvacio]; [reflexivity|].
  destruct (String.eqb_spec s "-") as [->|Hguion]; [reflexivity|].
  simpl orb. cbv iota.
  destruct (contiene_caracter guion s).
  - unfold desempaquetar_dos_enteros.
    destruct (partir guion s) as [|a [|b [|c r]]]; simpl; try reflexivity.
    + destruct (py_int a) as [x|e] eqn:Ha; simpl; [reflexivity|].
      apply py_int_error in Ha. subst e. reflexivity.
    + destruct (py_int a) as [x|e] eqn:Ha; simpl.
      * destruct (py_int b) as [y|e] eqn:Hb; simpl; [reflexivity|].
        apply py_int_error in Hb. subst e. reflexivity.
      * apply py_int_error in Ha. subst e. reflexivity.
    + destruct (py_int a) as [x|e] eqn:Ha; simpl.
      * destruct (py_int b) as [y|e] eqn:Hb; simpl.
        -- destruct (py_int c) as [z|e] eqn:Hc; simpl; [reflexivity|].
           apply py_int_error in Hc. subst e. reflexivity.
        -- apply py_int_error in Hb. subst e. reflexivity.
      * apply py_int_error in Ha. subst e. reflexivity.
  - destruct (py_int s) as [n|e] eqn:Hs; simpl.
    + f_equal. rewrite Z.eqb_sym.
      destruct (Z.eqb_spec n puntaje) as [->|Hne].
      * rewrite Z.leb_refl. reflexivity.
      * destruct (Z.leb_spec n puntaje), (Z.leb_spec puntaje n);
          simpl; try reflexivity; lia.
    + apply py_int_error in Hs. subst e. reflexivity.
Qed.

Lemma esta_en_rango_en_celda (puntaje : Z) (celda : option string) :
  _esta_en_rango puntaje celda = Ok (en_celda puntaje celda).
Proof.
  destruct celda as [s|]; [apply esta_en_rango_celda|reflexivity].
Qed.

(** C10. [_esta_en_rango] returns a boolean for every score and every
    cell, string or missing, and never raises: the answer is [True]
    exactly when the cell reads as a single integer equal to the score or
    as ["low-high"] with the score in between; ["-"], the empty cell and
    every malformed cell give [False]. *)
Theorem esta_en_rango_total (puntaje : Z) (celda : option string) :
  _esta_en_rango puntaje celda = Ok (en_celda puntaje celda) /\
  en_celda puntaje (Some "-") = false /\
  en_celda puntaje (Some "") = false /\
  (forall s, rango_de_celda s = None -> en_celda puntaje (Some s) = false).
Proof.
  split; [|split; [|split]].
  - apply esta_en_rango_en_celda.
  - reflexivity.
  - reflexivity.
  - intros s Hs. unfold en_celda. rewrite Hs. reflexivity.
Qed.

Lemma buscar_en_tabla_find (tabla : list fila) (sub : string) (p : Z) :
  buscar_en_tabla tabla sub p =
  match List.find (fun f => en_celda p (celdas f !! sub)) tabla with
  | Some f => Ok (puntaje_escala f)
  | None => Error (ValueError PuntajeFueraDeRango)
  end.
Proof.
  induction tabla as [|f tabla IH]; simpl; [reflexivity|].
  rewrite esta_en_rango_en_celda. simpl.
  destruct (en_celda p (celdas f !! sub)); [reflexivity|exact IH].
Qed.


Lemma find_ninguna {A : Type} (P : A -> bool) (l : list A) :
  (forall x, In x l -> P x = false) -> List.find P l = None.
Proof.
  induction l as [|a l IH]; intros H; simpl; [reflexivity|].
  rewrite (H a); [|left; reflexivity].
  apply IH. intros x Hx. apply H. right. exact Hx.
Qed.




End RangoYTabla.

(** ** Age bands *)

Section GruposEtarios.
Import Converter Lectura.

Lemma buscar_grupo_primero (gs : list ((Z * Z) * (Z * Z) * string)) (t : Z)
    (g : (Z * Z) * (Z * Z) * string) :
  In g gs -> en_grupo t g = true ->
  (forall g', In g' gs -> en_grupo t g' = true -> g' = g) ->
  buscar_grupo gs t = Ok (grupo_id g).
Proof.
  induction gs as [|h gs IH]; intros Hin Hg Huni; [destruct Hin|].
  simpl. destruct (en_grupo t h) eqn:Hh.
  - rewrite (Huni h); [reflexivity|left; reflexivity|exact Hh].
  - destruct Hin as [->|Hin]; [congruence|].
    apply IH; [exact Hin|exact Hg|].
    intros g' Hg' Ht. apply Huni; [right; exact Hg'|exact Ht].
Qed.

Lemma buscar_grupo_ninguno (gs : list ((Z * Z) * (Z * Z) * string)) (t : Z) :
  (forall g, In g gs -> en_grupo t g = false) ->
  buscar_grupo gs t = Error (ValueError EdadFueraDeRango).
Proof.
  induction gs as [|h gs IH]; intros H; simpl; [reflexivity|].
  rewrite (H h); [|left; reflexivity].
  apply IH. intros g Hg. apply H. right. exact Hg.
Qed.

Lemma en_grupo_spec (t : Z) (g : (Z * Z) * (Z * Z) * string) :
  en_grupo t g = true <-> min_en_meses g <= t <= max_en_meses g.
Proof.
  unfold en_grupo. rewrite andb_true_iff, !Z.leb_le. reflexivity.
Qed.

(** Every band lies inside 72..203 months. *)
Lemma grupos_dentro (t : Z) (g : (Z * Z) * (Z * Z) * string) :
  In g grupos -> en_grupo t g = true -> 72 <= t <= 203.
Proof.
  intros Hin Hg. apply en_grupo_spec in Hg.
  unfold grupos in Hin. simpl in Hin.
  repeat (destruct Hin as [<-|Hin]; [simpl in Hg; lia|]).
  destruct Hin.
Qed.

(** The bands tile 72..203: each month count lies in one of them. *)
Lemma grupos_cubren (t : Z) :
  72 <= t <= 203 -> exists g, In g grupos /\ en_grupo t g = true.
Proof.
  intros Ht.
  assert (Hk : exists k, (k < 22)%nat /\
             72 + 6 * Z.of_nat k <= t <= 77 + 6 * Z.of_nat k).
  { exists (Z.to_nat ((t - 72) / 6)).
    assert (0 <= (t - 72) / 6 < 22).
    { split; [apply Z.div_pos; lia|apply Z.div_lt_upper_bound; lia]. }
    pose proof (Z.mul_div_le (t - 72) 6 ltac:(lia)).
    pose proof (Z.mul_succ_div_gt (t - 72) 6 ltac:(lia)).
    rewrite Z2Nat.id by lia. split; lia. }
  destruct Hk as (k & Hk & Hrange).
  exists (nth k grupos ((0, 0), (0, 0), "")).
  do 22 (destruct k as [|k];
         [split;
          [unfold grupos; simpl; repeat (first [left; reflexivity|right])
          |apply en_grupo_spec; simpl in *; lia]|]).
  lia.
Qed.

(** No two bands overlap. *)
Lemma grupos_disjuntos (t : Z) (g g' : (Z * Z) * (Z * Z) * string) :
  In g grupos -> In g' grupos ->
  en_grupo t g = true -> en_grupo t g' = true -> g' = g.
Proof.
  intros Hin Hin' Hg Hg'.
  apply en_grupo_spec in Hg. apply en_grupo_spec in Hg'.
  unfold grupos in Hin, Hin'. simpl in Hin, Hin'.
  repeat (destruct Hin as [<-|Hin]; [simpl in Hg|]);
    try (destruct Hin);
    repeat (destruct Hin' as [<-|Hin']; [simpl in Hg'; first [reflexivity|lia]|]);
    destruct Hin'.
Qed.

Lemma convertir_edad_leida (edad : string) (a m : Z) :
  leer_edad edad = Ok (a, m) ->
  _convertir_edad_a_grupo edad =
    match buscar_grupo grupos (a * 12 + m) with
    | Ok g => Ok g
    | Error e => Error (ValueError (ErrorConvertirEdad (motivo_de e)))
    end.
Proof.
  intros H. unfold _convertir_edad_a_grupo. rewrite H. reflexivity.
Qed.



End GruposEtarios.

(** ** Deleting a patient *)

Section EliminarPaciente.
Import BaseDatos.

Lemma sin_evaluaciones_de_idem (id : string) (l : list evaluacion) :
  sin_evaluaciones_de id (sin_evaluaciones_de id l) = sin_evaluaciones_de id l.
Proof.
  unfold sin_evaluaciones_de.
  induction l as [|e l IH]; [reflexivity|].
  rewrite !filter_cons.
  destruct (decide (e_paciente_id e ≠ id)) as [Hne|Heq].
  - rewrite filter_cons_True by exact Hne. rewrite IH. reflexivity.
  - exact IH.
Qed.

Lemma eliminar_paciente_exito (id : string) (db : base) :
  snd (eliminar_paciente true true id db) = true.
Proof. reflexivity. Qed.

(** C9. After [eliminar_paciente] returned [True], no evaluation of the
    deleted patient is left, and the evaluations and the patients with
    another id are the ones of before, in their order. *)
Theorem eliminar_paciente_cascada (ok_eval ok_pac : bool) (id : string)
    (db db' : base) :
  eliminar_paciente ok_eval ok_pac id db = (db', true) ->
  (forall e, e ∈ evaluaciones db' -> e_paciente_id e <> id) /\
  evaluaciones db' =
    filter (fun e => e_paciente_id e ≠ id) (evaluaciones db) /\
  pacientes db' = filter (fun p => p_id p ≠ id) (pacientes db).
Proof.
  unfold eliminar_paciente, ejecutar_consulta.
  destruct ok_eval, ok_pac; simpl; intros H; try discriminate.
  injection H as <-. simpl. rewrite sin_evaluaciones_de_idem.
  split; [|split; reflexivity].
  intros e He. unfold sin_evaluaciones_de in He.
  apply list_elem_of_filter in He. exact (proj1 He).
Qed.

Lemma eliminar_paciente_cascada_testigo :
  evaluaciones
    (fst (eliminar_paciente true true "p1" Ejemplos.base_ejemplo)) =
    [Ejemplos.evaluacion_de "e2" "p2"] /\
  pacientes (fst (eliminar_paciente true true "p1" Ejemplos.base_ejemplo)) =
    [Ejemplos.paciente_de "p2" "Luis"].
Proof.
  destruct (eliminar_paciente_cascada true true "p1" Ejemplos.base_ejemplo
              (fst (eliminar_paciente true true "p1" Ejemplos.base_ejemplo)))
    as (_ & Hev & Hpac).
  - vm_compute. reflexivity.
  - split.
    + rewrite Hev. vm_compute. reflexivity.
    + rewrite Hpac. vm_compute. reflexivity.
Defined.

End EliminarPaciente.

(** ** The table loaders *)

Section Cargadores.
Import Converter CargaConverter TablasWiscv.

Lemma cargar_archivos_ninguno (l : list (string * archivo tabla_grupo))
    (tablas : gmap string tabla_grupo) (n : nat) :
  Forall (fun e => forall t, snd e <> Contenido t) l ->
  cargar_archivos l tablas n = (tablas, n).
Proof.
  induction 1 as [|[nombre f] l Hf _ IH]; simpl; [reflexivity|].
  destruct f as [| |t]; simpl; try exact IH.
  exfalso. exact (Hf t eq_refl).
Qed.

Lemma Forall_insertar_por_clave {A : Type} (P : A -> Prop) (clave : A -> Z)
    (x : A) (l : list A) :
  P x -> Forall P l -> Forall P (insertar_por_clave clave x l).
Proof.
  intros Hx. induction 1 as [|y l Hy Hl IH]; simpl.
  - constructor; [exact Hx|constructor].
  - destruct (clave x <=? clave y); repeat constructor; assumption.
Qed.

Lemma Forall_ordenar_por_clave {A : Type} (P : A -> Prop) (clave : A -> Z)
    (l : list A) :
  Forall P l -> Forall P (ordenar_por_clave clave l).
Proof.
  induction 1 as [|x l Hx Hl IH]; simpl; [constructor|].
  apply Forall_insertar_por_clave; assumption.
Qed.

Lemma cargar_tablas_sin_archivo_legible
    (entradas : list (string * archivo tabla_grupo)) :
  Forall (fun e => forall t, snd e <> Contenido t) entradas ->
  cargar_tablas_completas (Carpeta entradas) = Ok obtener_tablas_por_defecto.
Proof.
  intros H. unfold cargar_tablas_completas. simpl.
  rewrite cargar_archivos_ninguno; [reflexivity|].
  apply Forall_ordenar_por_clave.
  apply List.Forall_forall. intros e He.
  rewrite <- list_elem_of_In in He. apply list_elem_of_filter in He.
  rewrite List.Forall_forall in H. apply H.
  rewrite <- list_elem_of_In. exact (proj2 He).
Qed.

Lemma cargar_datos_falla (f : archivo (option datos)) :
  (forall d, f <> Contenido (Some d)) ->
  _cargar_datos f = Error ExceptionGenerica.
Proof.
  intros H. destruct f as [| |[d|]]; try reflexivity.
  exfalso. exact (H d eq_refl).
Qed.

(** C8, as the code has it. [cargar_tablas_completas] gives the built-in
    default tables when the folder is missing and when no table file in
    it can be read; the composite and the CIT loaders give an empty
    structure, not a default table, when no path can be read; the loader
    of the raw-to-scaled converter has no fallback and raises for a
    missing file, for malformed JSON and for a missing key. *)
Theorem cargadores_ante_fallos :
  cargar_tablas_completas NoExiste = Ok obtener_tablas_por_defecto /\
  (forall entradas,
     Forall (fun e => forall t, snd e <> Contenido t) entradas ->
     cargar_tablas_completas (Carpeta entradas) =
       Ok obtener_tablas_por_defecto) /\
  (forall rutas,
     Forall (fun f => forall t, f <> Contenido (Some t)) rutas ->
     Compuestos.cargar_tablas_compuestos rutas = ∅) /\
  (forall rutas,
     Forall (fun f => forall t, f <> Contenido t) rutas ->
     CIT.json_datos (CIT.cargar_tabla_cit rutas) = Some []) /\
  (forall f, (forall d, f <> Contenido (Some d)) ->
             _cargar_datos f = Error ExceptionGenerica).
Proof.
  split; [reflexivity|split; [exact cargar_tablas_sin_archivo_legible|]].
  split; [|split; [|exact cargar_datos_falla]].
  - intros rutas H. unfold Compuestos.cargar_tablas_compuestos,
      Compuestos.primera_ruta.
    destruct (List.find _ rutas) as [f|] eqn:Hf; [|reflexivity].
    apply find_some in Hf. destruct Hf as [Hin _].
    rewrite List.Forall_forall in H. specialize (H f Hin).
    destruct f as [| |[t|]]; try reflexivity.
    exfalso. exact (H t eq_refl).
  - intros rutas H. unfold CIT.cargar_tabla_cit, Compuestos.primera_ruta.
    destruct (List.find _ rutas) as [f|] eqn:Hf; [|reflexivity].
    apply find_some in Hf. destruct Hf as [Hin _].
    rewrite List.Forall_forall in H. specialize (H f Hin).
    destruct f as [| |t]; try reflexivity.
    exfalso. exact (H t eq_refl).
Qed.

(** C8 fails as stated: with the data file of the converter missing, its
    loader raises, and the exception is not the [ImportError] main.py
    catches, so it leaves the import of the module. *)
Lemma cargador_converter_sin_respaldo :
  _cargar_datos Ausente = Error ExceptionGenerica /\
  importar_conversor Ausente = Error ExceptionGenerica /\
  ~ exists d, _cargar_datos Ausente = Ok d.
Proof.
  split; [reflexivity|split; [reflexivity|]].
  intros [d Hd]. discriminate Hd.
Qed.

End Cargadores.

(** ** Rounding to nearest even *)

Import Flotante Redondeo.

Lemma bpow_gt_0 (e : Z) : (0 < bpow e)%R.
Proof. apply powerRZ_lt. lra. Qed.

Lemma bpow_plus (a b : Z) : bpow (a + b) = (bpow a * bpow b)%R.
Proof. apply powerRZ_add. lra. Qed.

Lemma bpow_IZR (e : Z) : 0 <= e -> bpow e = IZR (2 ^ e).
Proof.
  intros He. unfold bpow. destruct e as [|p|p]; [reflexivity| |lia].
  simpl powerRZ. rewrite pow_IZR. f_equal. rewrite positive_nat_Z. reflexivity.
Qed.

Lemma bpow_0 : bpow 0 = 1%R.
Proof. reflexivity. Qed.

Lemma bpow_1 : bpow 1 = 2%R.
Proof. unfold bpow. simpl. lra. Qed.

Lemma bpow_succ (e : Z) : bpow (e + 1) = (2 * bpow e)%R.
Proof. rewrite bpow_plus, bpow_1. lra. Qed.

Lemma bpow_pred (e : Z) : bpow (e - 1) = (bpow e / 2)%R.
Proof.
  replace e with ((e - 1) + 1) at 2 by lia. rewrite bpow_succ. lra.
Qed.

Lemma bpow_ge_1 (e : Z) : 0 <= e -> (1 <= bpow e)%R.
Proof.
  intros He. rewrite bpow_IZR by exact He. apply IZR_le.
  pose proof (Z.pow_pos_nonneg 2 e ltac:(lia) He). lia.
Qed.

Lemma bpow_le (a b : Z) : a <= b -> (bpow a <= bpow b)%R.
Proof.
  intros H. replace b with (a + (b - a)) by lia. rewrite bpow_plus.
  pose proof (bpow_gt_0 a). pose proof (bpow_ge_1 (b - a) ltac:(lia)). nra.
Qed.

Lemma bpow_lt (a b : Z) : a < b -> (bpow a < bpow b)%R.
Proof.
  intros H. replace b with ((a + 1) + (b - a - 1)) by lia.
  rewrite bpow_plus, bpow_succ.
  pose proof (bpow_gt_0 a). pose proof (bpow_ge_1 (b - a - 1) ltac:(lia)). nra.
Qed.

Lemma bpow_lt_inv (a b : Z) : (bpow a < bpow b)%R -> a < b.
Proof.
  intros H. destruct (Z_lt_le_dec a b) as [|Hle]; [assumption|].
  pose proof (bpow_le b a Hle). lra.
Qed.

Lemma bpow_le_inv (a b : Z) : (bpow a <= bpow b)%R -> a <= b.
Proof.
  intros H. destruct (Z_le_gt_dec a b) as [|Hgt]; [assumption|].
  pose proof (bpow_lt b a ltac:(lia)). lra.
Qed.

Lemma bpow_opp (e : Z) : bpow (- e) = (/ bpow e)%R.
Proof. apply powerRZ_neg'. Qed.

#[global] Opaque bpow.

(** digits *)
Lemma digits2_pos_spec (p : positive) :
  2 ^ (Zpos (digits2_pos p) - 1) <= Zpos p < 2 ^ Zpos (digits2_pos p).
Proof.
  induction p as [p IH|p IH|]; simpl digits2_pos.
  - rewrite Pos2Z.inj_succ, (Pos2Z.inj_xI p).
    replace (Z.succ (Zpos (digits2_pos p)) - 1)
      with (Z.succ (Zpos (digits2_pos p) - 1)) by lia.
    rewrite !Z.pow_succ_r by lia.
    set (a := 2 ^ (Zpos (digits2_pos p) - 1)) in *.
    set (b := 2 ^ Zpos (digits2_pos p)) in *. clearbody a b. lia.
  - rewrite Pos2Z.inj_succ, (Pos2Z.inj_xO p).
    replace (Z.succ (Zpos (digits2_pos p)) - 1)
      with (Z.succ (Zpos (digits2_pos p) - 1)) by lia.
    rewrite !Z.pow_succ_r by lia.
    set (a := 2 ^ (Zpos (digits2_pos p) - 1)) in *.
    set (b := 2 ^ Zpos (digits2_pos p)) in *. clearbody a b. lia.
  - simpl. lia.
Qed.

Lemma Zdigits2_nonneg (m : Z) : 0 <= Zdigits2 m.
Proof. destruct m; simpl; lia. Qed.

Lemma Zdigits2_spec (m : Z) :
  0 < m -> 2 ^ (Zdigits2 m - 1) <= m < 2 ^ Zdigits2 m.
Proof.
  destruct m as [|p|p]; try lia. intros _. apply digits2_pos_spec.
Qed.

Lemma Zdigits2_pos (m : Z) : 0 < m -> 0 < Zdigits2 m.
Proof. destruct m; simpl; lia. Qed.

Lemma Zdigits2_le (m j : Z) : 0 <= j -> 0 <= m < 2 ^ j -> Zdigits2 m <= j.
Proof.
  intros Hj [H0 Hm]. destruct (Z.eq_dec m 0) as [->|Hne]; [simpl; lia|].
  pose proof (Zdigits2_spec m ltac:(lia)) as [Hlo _].
  pose proof (Zdigits2_pos m ltac:(lia)).
  assert (2 ^ (Zdigits2 m - 1) < 2 ^ j) as Hlt by lia.
  apply Z.pow_lt_mono_r_iff in Hlt; lia.
Qed.

Lemma Zdigits2_ge (m j : Z) : 0 < m -> 2 ^ (j - 1) <= m -> j <= Zdigits2 m.
Proof.
  intros H0 Hm. destruct (Z_le_gt_dec j 1) as [Hj|Hj].
  - pose proof (Zdigits2_pos m H0). lia.
  - pose proof (Zdigits2_spec m H0) as [_ Hhi].
    assert (2 ^ (j - 1) < 2 ^ Zdigits2 m) as Hlt by lia.
    apply Z.pow_lt_mono_r_iff in Hlt; [lia|lia|].
    apply Zdigits2_nonneg.
Qed.

(** iteration *)
Lemma iter_pos_nat {A : Type} (f : A -> A) (p : positive) (x : A) :
  SpecFloat.iter_pos f p x = Nat.iter (Pos.to_nat p) f x.
Proof.
  revert x. induction p as [p IH|p IH|]; intros x; simpl SpecFloat.iter_pos.
  - rewrite !IH, Pos2Nat.inj_xI, <- Nat.iter_add, <- Nat.iter_succ_r.
    f_equal. lia.
  - rewrite !IH, Pos2Nat.inj_xO, <- Nat.iter_add. f_equal. lia.
  - reflexivity.
Qed.

Lemma shr_1_loc (mrs : shr_record) (u : R) :
  0 <= shr_m mrs -> loc_rec mrs u ->
  loc_rec (shr_1 mrs) (u / 2) /\ shr_m (shr_1 mrs) = shr_m mrs / 2.
Proof.
  destruct mrs as [m r s]. cbn [shr_m]. intros Hm Hloc.
  destruct m as [|p|p]; [| |lia].
  - split; [|reflexivity].
    unfold loc_rec in *; destruct r, s; cbn [shr_1 shr_m shr_r shr_s orb] in *; lra.
  - destruct p as [p|p|].
    + split.
      * unfold loc_rec in *; destruct r, s;
          cbn [shr_1 shr_m shr_r shr_s orb] in *;
          rewrite IZR_POS_xI in Hloc; lra.
      * cbn [shr_1 shr_m]. rewrite (Pos2Z.inj_xI p).
        apply Z.div_unique with 1; lia.
    + split.
      * unfold loc_rec in *; destruct r, s;
          cbn [shr_1 shr_m shr_r shr_s orb] in *;
          rewrite IZR_POS_xO in Hloc; lra.
      * cbn [shr_1 shr_m]. rewrite (Pos2Z.inj_xO p).
        apply Z.div_unique with 0; lia.
    + split; [|reflexivity].
      unfold loc_rec in *; destruct r, s;
        cbn [shr_1 shr_m shr_r shr_s orb] in *; lra.
Qed.

Lemma shr_iter_loc (k : nat) (mrs : shr_record) (u : R) :
  0 <= shr_m mrs -> loc_rec mrs u ->
  loc_rec (Nat.iter k shr_1 mrs) (u * bpow (- Z.of_nat k)) /\
  shr_m (Nat.iter k shr_1 mrs) = shr_m mrs / 2 ^ Z.of_nat k.
Proof.
  intros Hm Hloc. induction k as [|k [IHloc IHm]].
  - cbn [Nat.iter]. change (Z.of_nat 0) with 0.
    rewrite Z.pow_0_r, Z.div_1_r. split; [|reflexivity].
    change (- 0) with 0. rewrite bpow_0, Rmult_1_r. exact Hloc.
  - simpl Nat.iter.
    assert (0 <= shr_m (Nat.iter k shr_1 mrs)) as Hk.
    { rewrite IHm. apply Z.div_pos; [exact Hm|]. apply Z.pow_pos_nonneg; lia. }
    destruct (shr_1_loc _ _ Hk IHloc) as [Hl Hm'].
    split.
    + replace (u * bpow (- Z.of_nat (S k)))%R
        with (u * bpow (- Z.of_nat k) / 2)%R; [exact Hl|].
      replace (- Z.of_nat (S k)) with (- Z.of_nat k - 1) by lia.
      rewrite bpow_pred. lra.
    + pose proof (Z.pow_pos_nonneg 2 (Z.of_nat k) ltac:(lia) ltac:(lia)) as Hpos.
      rewrite Hm', IHm, Z.div_div by lia.
      f_equal. rewrite Nat2Z.inj_succ, Z.pow_succ_r by lia. lia.
Qed.

(** rounding of a located mantissa *)
Lemma fexp_eq (e : Z) : fexp prec emax e = Z.max (e - 53) (-1074).
Proof. reflexivity. Qed.

Lemma shr_eq (mrs : shr_record) (e n : Z) :
  shr mrs e n = (Nat.iter (Z.to_nat n) shr_1 mrs, e + Z.max 0 n).
Proof.
  destruct n as [|p|p]; simpl.
  - f_equal. lia.
  - rewrite iter_pos_nat. f_equal.
  - f_equal. lia.
Qed.

Lemma loc_rec_cota (m : Z) (l : location) (u : R) :
  loc_rec (shr_record_of_loc m l) u -> (IZR m <= u < IZR m + 1)%R.
Proof.
  destruct l as [|[| |]]; unfold loc_rec; simpl; lra.
Qed.

Lemma redondeo_cercano (mrs : shr_record) (u : R) :
  loc_rec mrs u ->
  cercano u (round_nearest_even (shr_m mrs) (loc_of_shr_record mrs)) /\
  shr_m mrs <= round_nearest_even (shr_m mrs) (loc_of_shr_record mrs)
            <= shr_m mrs + 1.
Proof.
  destruct mrs as [m r s]. unfold loc_rec, cercano. cbn [shr_m shr_r shr_s].
  destruct r, s; cbn [loc_of_shr_record round_nearest_even]; intros H.
  - rewrite plus_IZR. split; [split; [lra|intros [?|?]; lra]|lia].
  - destruct (Z.even m) eqn:Hev.
    + split; [split; [lra|intros _; exact Hev]|lia].
    + rewrite plus_IZR. split; [split; [lra|intros _]|lia].
      rewrite Z.even_add, Hev. reflexivity.
  - split; [split; [lra|intros [?|?]; lra]|lia].
  - split; [split; [lra|intros [?|?]; lra]|lia].
Qed.

Lemma IZR_pow2 (j : Z) : 0 <= j -> IZR (2 ^ j) = bpow j.
Proof. intros. symmetry. apply bpow_IZR. assumption. Qed.

Lemma bpow_menos (x : R) (a b : Z) :
  (x * bpow (- a) * bpow (- (b - a)) = x * bpow (- b))%R.
Proof.
  rewrite Rmult_assoc, <- bpow_plus. f_equal. f_equal. lia.
Qed.

Lemma Zdigits2_pow53 : Zdigits2 (2 ^ 53) = 54.
Proof. reflexivity. Qed.

Lemma shr_m_iter_exacto (k : Z) (n : nat) :
  0 <= k ->
  shr_m (Nat.iter n shr_1 {| shr_m := k; shr_r := false; shr_s := false |})
  = k / 2 ^ Z.of_nat n.
Proof.
  intros Hk.
  apply (shr_iter_loc n {| shr_m := k; shr_r := false; shr_s := false |} (IZR k));
    [exact Hk|reflexivity].
Qed.

Lemma segunda_etapa (sx : bool) (k c : Z) :
  0 <= k <= 2 ^ 53 -> -1074 <= c -> (-1074 < c -> 2 ^ 52 <= k) ->
  resultado_redondeo sx k c
    (let '(mrs, e) := shr_fexp prec emax k c loc_Exact in
     match shr_m mrs with
     | Z0 => S754_zero sx
     | Zpos m => if e <=? emax - prec then S754_finite sx m e
                 else S754_infinity sx
     | Zneg _ => S754_nan
     end).
Proof.
  intros [Hk0 Hk] Hc Hnormal.
  unfold shr_fexp. rewrite shr_eq. cbn [shr_record_of_loc].
  rewrite shr_m_iter_exacto by exact Hk0. rewrite fexp_eq.
  change (emax - prec) with 971.
  destruct (Z.eq_dec k 0) as [->|Hne].
  - left. split; [reflexivity|]. rewrite Z.div_0_l; [reflexivity|].
    apply Z.pow_nonzero; lia.
  - right. split; [lia|].
    destruct (Z.eq_dec k (2 ^ 53)) as [->|Hne53].
    + rewrite Zdigits2_pow53.
      replace (Z.max (54 + c - 53) (-1074) - c) with 1 by lia.
      change (Z.of_nat (Z.to_nat 1)) with 1.
      change (2 ^ 53 / 2 ^ 1) with (Zpos (2 ^ 52)).
      exists (2 ^ 52)%positive, (c + Z.max 0 1). split; [|split].
      * replace (c + Z.max 0 1) with (c + 1) by lia. rewrite bpow_succ.
        change (Zpos (2 ^ 52)) with (2 ^ 52). 
        rewrite !IZR_pow2 by lia.
        replace 53 with (52 + 1) by lia. rewrite bpow_succ. lra.
      * unfold canonico. rewrite fexp_eq.
        change (Zdigits2 (Zpos (2 ^ 52))) with 53. lia.
      * reflexivity.
    + assert (Hd : Zdigits2 k <= 53) by (apply Zdigits2_le; lia).
      assert (Hn2 : Z.max (Zdigits2 k + c - 53) (-1074) - c = 0).
      { destruct (Z.eq_dec c (-1074)) as [->|Hcn]; [lia|].
        pose proof (Zdigits2_ge k 53 ltac:(lia) ltac:(apply Hnormal; lia)).
        lia. }
      rewrite Hn2. change (Z.of_nat (Z.to_nat 0)) with 0.
      rewrite Z.pow_0_r, Z.div_1_r.
      destruct k as [|p|p]; try lia.
      exists p, (c + Z.max 0 0). replace (c + Z.max 0 0) with c by lia.
      split; [reflexivity|split; [|reflexivity]].
      unfold canonico. rewrite fexp_eq. lia.
Qed.

Lemma IZR_lt_pow2 (m j : Z) : 0 <= j -> m < 2 ^ j -> (IZR m + 1 <= bpow j)%R.
Proof.
  intros Hj Hm. rewrite <- IZR_pow2 by exact Hj.
  rewrite <- (plus_IZR m 1). apply IZR_le. lia.
Qed.

Lemma binary_round_aux_spec (sx : bool) (mx ex : Z) (lx : location) (x : R) :
  0 <= mx ->
  loc_rec (shr_record_of_loc mx lx) (x * bpow (- ex)) ->
  (0 < x)%R ->
  ex <= fexp prec emax (Zdigits2 mx + ex) ->
  exists c k, es_cexp x c /\ cercano (x * bpow (- c)) k /\
              resultado_redondeo sx k c (binary_round_aux prec emax sx mx ex lx).
Proof.
  intros Hmx Hloc Hx Hpre. rewrite fexp_eq in Hpre.
  set (d := Zdigits2 mx) in *.
  set (c := Z.max (d + ex - 53) (-1074)) in *.
  pose proof (Zdigits2_nonneg mx) as Hd0. fold d in Hd0.
  pose proof (loc_rec_cota _ _ _ Hloc) as Hu.
  assert (Hxu : x = (x * bpow (- ex) * bpow ex)%R).
  { rewrite Rmult_assoc, <- bpow_plus. replace (- ex + ex) with 0 by lia.
    rewrite bpow_0. lra. }
  pose proof (bpow_gt_0 ex) as Hbex.
  (* first stage *)
  unfold binary_round_aux, shr_fexp. rewrite shr_eq, fexp_eq. fold d. fold c.
  assert (Hm0 : shr_m (shr_record_of_loc mx lx) = mx)
    by (destruct lx as [|[| |]]; reflexivity).
  assert (Hrec0 : 0 <= shr_m (shr_record_of_loc mx lx))
    by (rewrite Hm0; exact Hmx).
  destruct (shr_iter_loc (Z.to_nat (c - ex)) (shr_record_of_loc mx lx) _
              Hrec0 Hloc) as [Hloc' Hm'].
  rewrite Z2Nat.id in Hloc', Hm' by lia.
  rewrite bpow_menos in Hloc'.
  rewrite Hm0 in Hm'.
  set (mrs' := Nat.iter (Z.to_nat (c - ex)) shr_1 (shr_record_of_loc mx lx)) in *.
  destruct (redondeo_cercano mrs' _ Hloc') as [Hcerca Hk].
  set (k := round_nearest_even (shr_m mrs') (loc_of_shr_record mrs')) in *.
  replace (ex + Z.max 0 (c - ex)) with c by lia.
  pose proof (Z.pow_pos_nonneg 2 (c - ex) ltac:(lia) ltac:(lia)) as Hpn.
  (* the canonical exponent of x *)
  assert (Hcexp : es_cexp x c /\ shr_m mrs' < 2 ^ 53 /\
                  (-1074 < c -> 2 ^ 52 <= shr_m mrs')).
  { destruct (Z.eq_dec mx 0) as [Hz|Hnz].
    - assert (d = 0) by (unfold d; rewrite Hz; reflexivity).
      assert (c = -1074) by lia.
      split; [|split].
      + left. split; [assumption|]. split; [exact Hx|].
        rewrite Hz in Hu. pose proof (bpow_le ex (-1021) ltac:(lia)). nra.
      + rewrite Hm', Hz, Z.div_0_l by lia. reflexivity.
      + lia.
    - pose proof (Zdigits2_spec mx ltac:(lia)) as [Hlo Hhi]. fold d in Hlo, Hhi.
      pose proof (Zdigits2_pos mx ltac:(lia)) as Hdpos. fold d in Hdpos.
      assert (Hxlo : (bpow (d - 1 + ex) <= x)%R).
      { rewrite bpow_plus, <- IZR_pow2 by lia.
        pose proof (IZR_le _ _ Hlo). nra. }
      assert (Hxhi : (x < bpow (d + ex))%R).
      { rewrite bpow_plus. pose proof (IZR_lt_pow2 mx d ltac:(lia) Hhi). nra. }
      split; [|split].
      + destruct (Z.eq_dec c (-1074)) as [Hc|Hc].
        * left. split; [exact Hc|]. split; [exact Hx|].
          pose proof (bpow_le (d + ex) (-1021) ltac:(lia)). lra.
        * right. split; [lia|].
          replace (c + 52) with (d - 1 + ex) by lia.
          replace (c + 53) with (d + ex) by lia. lra.
      + rewrite Hm'. apply Z.div_lt_upper_bound; [lia|].
        rewrite <- Z.pow_add_r by lia.
        apply Z.lt_le_trans with (2 ^ d); [exact Hhi|].
        apply Z.pow_le_mono_r; lia.
      + intros Hc. rewrite Hm'. apply Z.div_le_lower_bound; [lia|].
        rewrite <- Z.pow_add_r by lia.
        replace (c - ex + 52) with (d - 1) by lia. exact Hlo. }
  destruct Hcexp as (Hcexp & Hm53 & Hm52).
  assert (Hmrs0 : 0 <= shr_m mrs').
  { rewrite Hm'. apply Z.div_pos; lia. }
  exists c, k. split; [exact Hcexp|split; [exact Hcerca|]].
  apply (segunda_etapa sx k c); [lia|lia|].
  intros Hc. specialize (Hm52 Hc). lia.
Qed.

Lemma cercano_mono (u u' : R) (k k' : Z) :
  (u <= u')%R -> cercano u k -> cercano u' k' -> k <= k'.
Proof.
  intros Hu [[H1 H2] He] [[H1' H2'] He'].
  destruct (Z_le_gt_dec k k') as [|Hgt]; [assumption|exfalso].
  assert (Hk : (IZR k' + 1 <= IZR k)%R).
  { rewrite <- (plus_IZR k' 1). apply IZR_le. lia. }
  assert (k = k' + 1).
  { apply eq_IZR. rewrite plus_IZR. lra. }
  assert (Z.even k = true) by (apply He; left; lra).
  assert (Z.even k' = true) by (apply He'; right; lra).
  subst k. rewrite Z.even_add in *. 
  destruct (Z.even k'); simpl in *; congruence.
Qed.

Lemma cercano_entero (j k : Z) : cercano (IZR j) k -> k = j.
Proof.
  intros [[H1 H2] _].
  apply Z.le_antisymm.
  - apply Z.lt_succ_r. apply lt_IZR. rewrite succ_IZR. lra.
  - apply Z.lt_pred_le. apply lt_IZR. unfold Z.pred. rewrite plus_IZR. lra.
Qed.

Lemma cercano_de_entero (j : Z) : cercano (IZR j) j.
Proof. split; [lra|intros [?|?]; lra]. Qed.

Lemma es_cexp_pos (x : R) (c : Z) : es_cexp x c -> (0 < x)%R.
Proof.
  intros [[_ H]|[_ H]]; [lra|].
  pose proof (bpow_gt_0 (c + 52)). lra.
Qed.

Lemma es_cexp_sup (x : R) (c : Z) : es_cexp x c -> (x < bpow (c + 53))%R.
Proof.
  intros [[-> H]|[_ H]]; [exact (proj2 H)|lra].
Qed.

Lemma es_cexp_min (x : R) (c : Z) : es_cexp x c -> -1074 <= c.
Proof. intros [[-> _]|[H _]]; lia. Qed.

Lemma es_cexp_mono (x x' : R) (c c' : Z) :
  (x <= x')%R -> es_cexp x c -> es_cexp x' c' -> c <= c'.
Proof.
  intros Hx H H'.
  pose proof (es_cexp_min _ _ H'). pose proof (es_cexp_sup _ _ H') as Hs.
  destruct H as [[-> _]|[Hc [Hlo _]]]; [assumption|].
  assert (bpow (c + 52) < bpow (c' + 53))%R as Hlt by lra.
  apply bpow_lt_inv in Hlt. lia.
Qed.

Lemma redondea_pos_nonneg (x y : R) : redondea_pos x y -> (0 <= y)%R.
Proof.
  intros (c & k & Hc & [[H1 H2] _] & ->).
  pose proof (es_cexp_pos _ _ Hc). pose proof (bpow_gt_0 c).
  pose proof (bpow_gt_0 (- c)).
  assert (0 <= k).
  { apply Z.lt_pred_le. apply lt_IZR. unfold Z.pred. rewrite plus_IZR.
    assert (0 < x * bpow (- c))%R by nra. lra. }
  pose proof (IZR_le 0 k ltac:(lia)). nra.
Qed.

Lemma escala_cexp (x : R) (c : Z) :
  (x * bpow (- c) * bpow c = x)%R.
Proof.
  rewrite Rmult_assoc, <- bpow_plus. replace (- c + c) with 0 by lia.
  rewrite bpow_0. lra.
Qed.

Lemma escala_cexp_inv (u : R) (c : Z) :
  (u * bpow c * bpow (- c) = u)%R.
Proof.
  rewrite Rmult_assoc, <- bpow_plus. replace (c + - c) with 0 by lia.
  rewrite bpow_0. lra.
Qed.

Lemma redondea_pos_mono (x x' y y' : R) :
  (x <= x')%R -> redondea_pos x y -> redondea_pos x' y' -> (y <= y')%R.
Proof.
  intros Hx (c & k & Hc & Hk & ->) (c' & k' & Hc' & Hk' & ->).
  pose proof (es_cexp_mono _ _ _ _ Hx Hc Hc') as Hcc.
  pose proof (bpow_gt_0 c) as Hb1. pose proof (bpow_gt_0 (- c)) as Hb2.
  pose proof (bpow_gt_0 c') as Hb3. pose proof (bpow_gt_0 (- c')) as Hb4.
  destruct (Z.eq_dec c c') as [<-|Hne].
  - assert (Hkk : k <= k').
    { apply (cercano_mono (x * bpow (- c)) (x' * bpow (- c))); [nra|assumption..]. }
    pose proof (IZR_le _ _ Hkk). nra.
  - assert (Hc1 : -1074 < c') by (pose proof (es_cexp_min _ _ Hc); lia).
    destruct Hc' as [[? _]|[_ [Hlo' _]]]; [lia|].
    pose proof (es_cexp_sup _ _ Hc) as Hs.
    (* k <= 2^53 *)
    assert (Hk53 : k <= 2 ^ 53).
    { destruct Hk as [[Hk1 _] _].
      assert (x * bpow (- c) < bpow 53)%R.
      { replace 53 with ((c + 53) + - c) by lia. rewrite bpow_plus. nra. }
      apply Z.lt_succ_r. apply lt_IZR. rewrite succ_IZR, IZR_pow2 by lia. lra. }
    assert (Hk52 : 2 ^ 52 <= k').
    { destruct Hk' as [[_ Hk2] _].
      assert (bpow 52 <= x' * bpow (- c'))%R.
      { replace 52 with ((c' + 52) + - c') by lia. rewrite bpow_plus. nra. }
      apply Z.lt_pred_le. apply lt_IZR. unfold Z.pred.
      rewrite plus_IZR, IZR_pow2 by lia. lra. }
    apply IZR_le in Hk53, Hk52. rewrite IZR_pow2 in Hk53, Hk52 by lia.
    apply Rle_trans with (bpow (c + 53)).
    + rewrite (Z.add_comm c 53), bpow_plus. nra.
    + apply Rle_trans with (bpow (c' + 52)).
      * apply bpow_le. lia.
      * rewrite (Z.add_comm c' 52), bpow_plus. nra.
Qed.

Lemma redondea_mono (x x' y y' : R) :
  (x <= x')%R -> redondea x y -> redondea x' y' -> (y <= y')%R.
Proof.
  intros Hx [[-> ->]|[[Hp H]|[Hn H]]] [[-> ->]|[[Hp' H']|[Hn' H']]];
    try lra;
    try (pose proof (redondea_pos_nonneg _ _ H));
    try (pose proof (redondea_pos_nonneg _ _ H')); try lra.
  - exact (redondea_pos_mono _ _ _ _ Hx H H').
  - pose proof (redondea_pos_mono (- x') (- x) _ _ ltac:(lra) H' H). lra.
Qed.

Lemma redondea_unico (x y y' : R) : redondea x y -> redondea x y' -> y = y'.
Proof.
  intros H H'. apply Rle_antisym; eapply redondea_mono; eauto; lra.
Qed.

Lemma redondea_opuesto (x y : R) : redondea x y -> redondea (- x) (- y).
Proof.
  intros [[-> ->]|[[Hp H]|[Hn H]]].
  - left. split; lra.
  - right. right. split; [lra|]. rewrite !Ropp_involutive. exact H.
  - right. left. split; [lra|exact H].
Qed.

Lemma canonico_cota (m e : Z) :
  0 < m -> canonico m e ->
  m < 2 ^ 53 /\ (-1074 < e -> 2 ^ 52 <= m) /\ -1074 <= e.
Proof.
  unfold canonico. rewrite fexp_eq. intros Hm Hc.
  pose proof (Zdigits2_spec m Hm) as [Hlo Hhi].
  pose proof (Zdigits2_pos m Hm) as Hd.
  split; [|split; [|lia]].
  - apply Z.lt_le_trans with (2 ^ Zdigits2 m); [exact Hhi|].
    apply Z.pow_le_mono_r; lia.
  - intros He. replace 52 with (Zdigits2 m - 1) by lia. exact Hlo.
Qed.

Lemma redondea_pos_canonico (m e : Z) :
  0 < m -> canonico m e ->
  redondea_pos (IZR m * bpow e) (IZR m * bpow e).
Proof.
  intros Hm Hc. destruct (canonico_cota m e Hm Hc) as (H53 & H52 & He).
  pose proof (bpow_gt_0 e) as Hbe.
  pose proof (IZR_lt 0 m Hm) as Hm0.
  pose proof (IZR_lt _ _ H53) as Hm53. rewrite IZR_pow2 in Hm53 by lia.
  exists e, m. split; [|split; [|reflexivity]].
  - destruct (Z.eq_dec e (-1074)) as [->|Hne].
    + left. split; [reflexivity|]. split; [nra|].
      replace (-1021) with (53 + -1074) by lia. rewrite bpow_plus. nra.
    + right. split; [lia|].
      pose proof (IZR_le _ _ (H52 ltac:(lia))) as Hm52.
      rewrite IZR_pow2 in Hm52 by lia.
      rewrite (Z.add_comm e 52), (Z.add_comm e 53), !bpow_plus. nra.
  - rewrite escala_cexp_inv. apply cercano_de_entero.
Qed.

Lemma redondea_con_signo (sx : bool) (x y : R) :
  (0 < x)%R -> redondea_pos x y -> redondea (con_signo sx x) (con_signo sx y).
Proof.
  intros Hx H. destruct sx; unfold con_signo.
  - right. right. split; [lra|]. rewrite !Ropp_involutive. exact H.
  - right. left. split; assumption.
Qed.

Lemma redondeado_de_resultado (sx : bool) (x : R) (c k : Z) (f : spec_float) :
  es_cexp x c -> cercano (x * bpow (- c)) k -> resultado_redondeo sx k c f ->
  redondeado_a (con_signo sx x) f.
Proof.
  intros Hc Hk Hres.
  pose proof (es_cexp_pos _ _ Hc) as Hx.
  assert (Hrp : redondea_pos x (IZR k * bpow c)).
  { exists c, k. split; [exact Hc|split; [exact Hk|reflexivity]]. }
  exists (con_signo sx (IZR k * bpow c)).
  split; [apply redondea_con_signo; assumption|].
  pose proof (bpow_gt_0 1024) as Hb.
  destruct Hres as [[-> ->]|[Hk0 (m & e & Hval & Hcan & ->)]].
  - left. rewrite Rmult_0_l.
    split; [destruct sx; unfold con_signo; lra|].
    split; [exact I|split; [exact I|]]. destruct sx; unfold con_signo, valor_real; lra.
  - rewrite <- Hval.
    destruct (canonico_cota (Zpos m) e ltac:(lia) Hcan) as (H53 & H52 & He).
    pose proof (bpow_gt_0 e) as Hbe.
    pose proof (IZR_lt 0 (Zpos m) ltac:(lia)) as Hm0.
    destruct (Z.leb_spec e 971) as [Hle|Hgt].
    + left.
      apply IZR_lt in H53. rewrite IZR_pow2 in H53 by lia.
      pose proof (bpow_le (53 + e) 1024 ltac:(lia)) as Hle'.
      rewrite bpow_plus in Hle'.
      assert (0 < IZR (Zpos m) * bpow e < bpow 1024)%R by nra.
      split; [destruct sx; unfold con_signo; lra|].
      split; [exact I|split; [split; assumption|]].
      destruct sx; reflexivity.
    + right.
      specialize (H52 ltac:(lia)). apply IZR_le in H52.
      rewrite IZR_pow2 in H52 by lia.
      pose proof (bpow_le 1024 (52 + e) ltac:(lia)) as Hle'.
      rewrite bpow_plus in Hle'.
      pose proof (bpow_gt_0 52).
      assert (bpow 1024 <= IZR (Zpos m) * bpow e)%R by nra.
      split; [destruct sx; unfold con_signo; lra|]. exists sx. reflexivity.
Qed.

(** [shl_align] and [binary_round] *)
Lemma Zpos_iter_xO (m d : positive) :
  Zpos (Pos.iter xO m d) = Zpos m * 2 ^ Zpos d.
Proof.
  induction d as [|d IH] using Pos.peano_ind.
  - simpl Pos.iter. rewrite (Pos2Z.inj_xO m). change (2 ^ 1) with 2. lia.
  - rewrite Pos.iter_succ, (Pos2Z.inj_xO (Pos.iter xO m d)), IH.
    rewrite Pos2Z.inj_succ, Z.pow_succ_r by lia. lia.
Qed.

Lemma Zdigits2_unico (m j : Z) :
  0 < m -> 2 ^ (j - 1) <= m < 2 ^ j -> Zdigits2 m = j.
Proof.
  intros Hm [Hlo Hhi].
  assert (0 <= j).
  { destruct (Z_le_gt_dec 0 j); [assumption|].
    rewrite Z.pow_neg_r in Hhi by lia. lia. }
  apply Z.le_antisymm; [apply Zdigits2_le; lia|apply Zdigits2_ge; assumption].
Qed.

Lemma Zdigits2_mul_pow2 (m d : Z) :
  0 < m -> 0 <= d -> Zdigits2 (m * 2 ^ d) = Zdigits2 m + d.
Proof.
  intros Hm Hd. pose proof (Zdigits2_spec m Hm) as [Hlo Hhi].
  pose proof (Zdigits2_pos m Hm).
  pose proof (Z.pow_pos_nonneg 2 d ltac:(lia) Hd) as Hp.
  apply Zdigits2_unico; [nia|].
  replace (Zdigits2 m + d - 1) with (Zdigits2 m - 1 + d) by lia.
  rewrite !Z.pow_add_r by lia. split; nia.
Qed.

Lemma shl_align_spec (mx : positive) (ex ex' : Z) :
  exists d, 0 <= d /\ ex - d = Z.min ex ex' /\
            shl_align mx ex ex' = (Z.to_pos (Zpos mx * 2 ^ d), ex - d).
Proof.
  unfold shl_align. destruct (ex' - ex) as [|p|p] eqn:Hd.
  - exists 0. rewrite Z.pow_0_r, Z.mul_1_r, Z.sub_0_r. simpl Z.to_pos.
    split; [lia|split; [lia|reflexivity]].
  - exists 0. rewrite Z.pow_0_r, Z.mul_1_r, Z.sub_0_r. simpl Z.to_pos.
    split; [lia|split; [lia|reflexivity]].
  - exists (Zpos p). split; [lia|split; [lia|]].
    rewrite <- Zpos_iter_xO. simpl Z.to_pos. f_equal. lia.
Qed.

Lemma binary_round_spec (sx : bool) (mx : positive) (ex : Z) :
  redondeado_a (con_signo sx (IZR (Zpos mx) * bpow ex))
               (binary_round prec emax sx mx ex).
Proof.
  unfold binary_round.
  destruct (shl_align_spec mx ex (fexp prec emax (Zpos (digits2_pos mx) + ex)))
    as (d & Hd & Hmin & ->).
  pose proof (Z.pow_pos_nonneg 2 d ltac:(lia) Hd) as Hp.
  assert (Hz : Zpos (Z.to_pos (Zpos mx * 2 ^ d)) = Zpos mx * 2 ^ d).
  { apply Z2Pos.id. nia. }
  rewrite Hz.
  set (x := (IZR (Zpos mx) * bpow ex)%R).
  assert (Hx : (0 < x)%R).
  { unfold x. pose proof (bpow_gt_0 ex). pose proof (IZR_lt 0 (Zpos mx) ltac:(lia)).
    nra. }
  destruct (binary_round_aux_spec sx (Zpos mx * 2 ^ d) (ex - d) loc_Exact x)
    as (c & k & Hc & Hk & Hres).
  - nia.
  - unfold loc_rec. cbn [shr_record_of_loc shr_m shr_r shr_s]. unfold x.
    rewrite mult_IZR, IZR_pow2 by exact Hd.
    replace (- (ex - d)) with (- ex + d) by lia. rewrite bpow_plus.
    rewrite <- (escala_cexp_inv (IZR (Zpos mx)) ex) at 2. lra.
  - exact Hx.
  - rewrite Zdigits2_mul_pow2 by lia.
    replace (Zdigits2 (Zpos mx) + d + (ex - d)) with (Zpos (digits2_pos mx) + ex)
      by (simpl Zdigits2; lia).
    lia.
  - exact (redondeado_de_resultado sx x c k _ Hc Hk Hres).
Qed.

Lemma redondea_pos_representable (m e : Z) :
  0 < m < 2 ^ 53 -> -1074 <= e ->
  redondea_pos (IZR m * bpow e) (IZR m * bpow e).
Proof.
  intros [Hm0 Hm] He.
  pose proof (Zdigits2_spec m Hm0) as [Hlo Hhi].
  pose proof (Zdigits2_pos m Hm0) as Hd.
  assert (Hd53 : Zdigits2 m <= 53) by (apply Zdigits2_le; lia).
  set (d := Zdigits2 m) in *.
  set (c := Z.max (d + e - 53) (-1074)).
  assert (Hce : c <= e) by lia.
  pose proof (bpow_gt_0 e) as Hbe.
  apply IZR_le in Hlo. apply IZR_lt in Hhi.
  rewrite IZR_pow2 in Hlo, Hhi by lia.
  exists c, (m * 2 ^ (e - c)). split; [|split].
  - destruct (Z.eq_dec c (-1074)) as [Hc|Hc].
    + left. split; [exact Hc|].
      pose proof (IZR_lt 0 m Hm0). split; [nra|].
      apply Rlt_le_trans with (bpow (d + e)).
      * rewrite bpow_plus. nra.
      * apply bpow_le. lia.
    + right. split; [lia|].
      replace (c + 52) with ((d - 1) + e) by lia.
      replace (c + 53) with (d + e) by lia.
      rewrite !bpow_plus. split; nra.
  - replace (IZR m * bpow e * bpow (- c))%R with (IZR (m * 2 ^ (e - c)));
      [apply cercano_de_entero|].
    rewrite mult_IZR, IZR_pow2 by lia.
    replace (e - c) with (e + - c) by lia. rewrite bpow_plus. lra.
  - rewrite mult_IZR, IZR_pow2 by lia.
    replace e with ((e - c) + c) at 1 by lia. rewrite bpow_plus. lra.
Qed.

Lemma redondea_representable (n e : Z) :
  Z.abs n < 2 ^ 53 -> -1074 <= e ->
  redondea (IZR n * bpow e) (IZR n * bpow e).
Proof.
  intros Hn He. pose proof (bpow_gt_0 e) as Hbe.
  destruct (Z.lt_trichotomy n 0) as [Hneg|[->|Hpos]].
  - right. right. pose proof (IZR_lt n 0 Hneg). split; [nra|].
    replace (- (IZR n * bpow e))%R with (IZR (- n) * bpow e)%R
      by (rewrite opp_IZR; lra).
    apply redondea_pos_representable; lia.
  - left. split; lra.
  - right. left. pose proof (IZR_lt 0 n Hpos). split; [nra|].
    apply redondea_pos_representable; lia.
Qed.

Lemma redondea_entero (n : Z) (y : R) :
  Z.abs n < 2 ^ 53 -> redondea (IZR n) y -> y = IZR n.
Proof.
  intros Hn Hy. apply (redondea_unico (IZR n)); [exact Hy|].
  pose proof (redondea_representable n 0 Hn ltac:(lia)) as H.
  rewrite bpow_0, Rmult_1_r in H. exact H.
Qed.

Lemma redondea_pow2 (j : Z) : -1074 <= j -> redondea (bpow j) (bpow j).
Proof.
  intros Hj. pose proof (redondea_representable 1 j ltac:(simpl; lia) Hj) as H.
  rewrite Rmult_1_l in H. exact H.
Qed.

Lemma redondea_cota (x y : R) (j : Z) :
  -1074 <= j -> redondea x y -> (- bpow j <= x <= bpow j)%R ->
  (- bpow j <= y <= bpow j)%R.
Proof.
  intros Hj Hy [Hlo Hhi]. split.
  - apply (redondea_mono (- bpow j) x); [exact Hlo| |exact Hy].
    apply redondea_opuesto, redondea_pow2, Hj.
  - apply (redondea_mono x (bpow j)); [exact Hhi|exact Hy|].
    apply redondea_pow2, Hj.
Qed.

Lemma redondea_cero (y : R) : redondea 0 y -> y = 0%R.
Proof.
  intros [[_ ->]|[[H _]|[H _]]]; [reflexivity|lra|lra].
Qed.

Lemma redondea_nonneg (x y : R) : (0 <= x)%R -> redondea x y -> (0 <= y)%R.
Proof.
  intros Hx Hy. apply (redondea_mono 0 x); [exact Hx| |exact Hy].
  left. split; reflexivity.
Qed.

Lemma redondea_nonpos (x y : R) : (x <= 0)%R -> redondea x y -> (y <= 0)%R.
Proof.
  intros Hx Hy. apply (redondea_mono x 0); [exact Hx|exact Hy|].
  left. split; reflexivity.
Qed.

(** a float in range: finite, canonical, and its value *)
Lemma redondeado_finito (x : R) (f : spec_float) (j : Z) :
  redondeado_a x f -> -1074 <= j <= 1023 -> (- bpow j <= x <= bpow j)%R ->
  finito f /\ bien_formado f /\ redondea x (valor_real f) /\
  (- bpow j <= valor_real f <= bpow j)%R.
Proof.
  intros (y & Hy & Hcasos) Hj Hx.
  pose proof (redondea_cota x y j ltac:(lia) Hy Hx) as Hyj.
  pose proof (bpow_lt j 1024 ltac:(lia)) as Hlt.
  destruct Hcasos as [(_ & Hf & Hb & Hv)|[Hfuera _]].
  - rewrite Hv. repeat split; try assumption; lra.
  - lra.
Qed.

Lemma binary_normalize_spec (m e : Z) (sz : bool) :
  redondeado_a (IZR m * bpow e) (binary_normalize prec emax m e sz).
Proof.
  destruct m as [|p|p]; cbn [binary_normalize].
  - exists 0%R. split; [left; split; lra|].
    left. pose proof (bpow_gt_0 1024). repeat split; try exact I; simpl; lra.
  - exact (binary_round_spec false p e).
  - pose proof (binary_round_spec true p e) as H. unfold con_signo in H.
    replace (IZR (Zneg p) * bpow e)%R with (- (IZR (Zpos p) * bpow e))%R;
      [exact H|].
    change (Zneg p) with (- Zpos p). rewrite opp_IZR. lra.
Qed.

(** the operations *)
Lemma valor_finito (s : bool) (m : positive) (e : Z) :
  valor_real (S754_finite s m e) = con_signo s (IZR (Zpos m) * bpow e).
Proof. destruct s; reflexivity. Qed.

Lemma redondeado_cero (s : bool) (x : R) :
  x = 0%R -> redondeado_a x (S754_zero s).
Proof.
  intros ->. exists 0%R. split; [left; split; reflexivity|].
  left. pose proof (bpow_gt_0 1024).
  repeat split; try exact I; unfold valor_real; lra.
Qed.

Lemma redondeado_mismo (f : spec_float) :
  finito f -> bien_formado f -> redondeado_a (valor_real f) f.
Proof.
  intros Hf Hb. destruct f as [s|s| |s m e]; try contradiction.
  - apply redondeado_cero. reflexivity.
  - destruct Hb as [Hcan He].
    destruct (canonico_cota (Zpos m) e ltac:(lia) Hcan) as (H53 & _ & Hemin).
    exists (valor_real (S754_finite s m e)). rewrite valor_finito.
    split; [apply redondea_con_signo;
            [|apply redondea_pos_canonico; [lia|exact Hcan]]|].
    + pose proof (bpow_gt_0 e). pose proof (IZR_lt 0 (Zpos m) ltac:(lia)). nra.
    + left. split; [|repeat split; assumption].
      apply IZR_lt in H53. rewrite IZR_pow2 in H53 by lia.
      pose proof (bpow_gt_0 e). pose proof (IZR_lt 0 (Zpos m) ltac:(lia)).
      pose proof (bpow_le (53 + e) 1024 ltac:(lia)) as Hle.
      rewrite bpow_plus in Hle.
      destruct s; unfold con_signo; nra.
Qed.

Lemma fmul_spec (x y : spec_float) :
  finito x -> finito y -> bien_formado x -> bien_formado y ->
  redondeado_a (valor_real x * valor_real y) (fmul x y).
Proof.
  intros Hfx Hfy Hbx Hby.
  destruct x as [sx|sx| |sx mx ex]; try contradiction;
    destruct y as [sy|sy| |sy my ey]; try contradiction;
    try (apply redondeado_cero; unfold valor_real; lra).
  unfold fmul. cbn [SFmul].
  destruct Hbx as [Hcx _], Hby as [Hcy _].
  destruct (canonico_cota (Zpos mx) ex ltac:(lia) Hcx) as (_ & Hx52 & Hxmin).
  destruct (canonico_cota (Zpos my) ey ltac:(lia) Hcy) as (_ & Hy52 & Hymin).
  set (x := (IZR (Zpos (mx * my)) * bpow (ex + ey))%R).
  assert (Hx : (0 < x)%R).
  { unfold x. pose proof (bpow_gt_0 (ex + ey)).
    pose proof (IZR_lt 0 (Zpos (mx * my)) ltac:(lia)). nra. }
  destruct (binary_round_aux_spec (xorb sx sy) (Zpos (mx * my)) (ex + ey)
              loc_Exact x) as (c & k & Hc & Hk & Hres).
  - lia.
  - unfold loc_rec. cbn [shr_record_of_loc shr_m shr_r shr_s]. unfold x.
    apply escala_cexp_inv.
  - exact Hx.
  - rewrite fexp_eq.
    destruct (Z_le_gt_dec (ex + ey) (-1074)) as [Hle|Hgt]; [lia|].
    assert (2 ^ 52 <= Zpos (mx * my)) as Hprod.
    { rewrite Pos2Z.inj_mul.
      destruct (Z.eq_dec ex (-1074)) as [Hex|Hex].
      - specialize (Hy52 ltac:(lia)). nia.
      - specialize (Hx52 ltac:(lia)). nia. }
    pose proof (Zdigits2_ge (Zpos (mx * my)) 53 ltac:(lia) Hprod). lia.
  - pose proof (redondeado_de_resultado _ x c k _ Hc Hk Hres) as H.
    replace (valor_real (S754_finite sx mx ex) * valor_real (S754_finite sy my ey))%R
      with (con_signo (xorb sx sy) x); [exact H|].
    rewrite !valor_finito. unfold x. rewrite Pos2Z.inj_mul, mult_IZR, bpow_plus.
    destruct sx, sy; unfold con_signo; cbn [xorb]; lra.
Qed.

Lemma alineado (mx : positive) (ex ez : Z) :
  ez <= ex ->
  (IZR (Zpos (fst (shl_align mx ex ez))) * bpow ez = IZR (Zpos mx) * bpow ex)%R.
Proof.
  intros Hle. destruct (shl_align_spec mx ex ez) as (d & Hd & Hmin & ->).
  cbn [fst].
  pose proof (Z.pow_pos_nonneg 2 d ltac:(lia) Hd) as Hp.
  rewrite Z2Pos.id by nia.
  rewrite mult_IZR, IZR_pow2 by exact Hd.
  replace (bpow ex) with (bpow d * bpow ez)%R
    by (rewrite <- bpow_plus; f_equal; lia).
  lra.
Qed.

Lemma IZR_cond_Zopp (s : bool) (m : Z) :
  IZR (cond_Zopp s m) = con_signo s (IZR m).
Proof. destruct s; unfold cond_Zopp, con_signo; [apply opp_IZR|reflexivity]. Qed.

Lemma fadd_spec (x y : spec_float) :
  finito x -> finito y -> bien_formado x -> bien_formado y ->
  redondeado_a (valor_real x + valor_real y) (fadd x y).
Proof.
  intros Hfx Hfy Hbx Hby.
  destruct x as [sx|sx| |sx mx ex]; try contradiction;
    destruct y as [sy|sy| |sy my ey]; try contradiction.
  - unfold fadd. cbn [SFadd].
    destruct sx, sy; apply redondeado_cero; unfold valor_real; lra.
  - replace (valor_real (S754_zero sx) + valor_real (S754_finite sy my ey))%R
      with (valor_real (S754_finite sy my ey)) by (unfold valor_real at 2; lra).
    apply (redondeado_mismo (S754_finite sy my ey)); assumption.
  - replace (valor_real (S754_finite sx mx ex) + valor_real (S754_zero sy))%R
      with (valor_real (S754_finite sx mx ex)) by (unfold valor_real at 3; lra).
    apply (redondeado_mismo (S754_finite sx mx ex)); assumption.
  - unfold fadd. cbn [SFadd].
    set (ez := Z.min ex ey).
    pose proof (alineado mx ex ez ltac:(lia)) as Hax.
    pose proof (alineado my ey ez ltac:(lia)) as Hay.
    set (X := Zpos (fst (shl_align mx ex ez))) in *.
    set (Y := Zpos (fst (shl_align my ey ez))) in *.
    pose proof (binary_normalize_spec (cond_Zopp sx X + cond_Zopp sy Y) ez false)
      as H.
    replace (valor_real (S754_finite sx mx ex) + valor_real (S754_finite sy my ey))%R
      with (IZR (cond_Zopp sx X + cond_Zopp sy Y) * bpow ez)%R; [exact H|].
    rewrite plus_IZR, !IZR_cond_Zopp, !valor_finito.
    destruct sx, sy; unfold con_signo; lra.
Qed.

Lemma new_location_loc (n k q : Z) (u : R) :
  0 < n -> 0 <= k < n -> (u * IZR n = IZR q * IZR n + IZR k)%R ->
  loc_rec (shr_record_of_loc q (new_location n k)) u.
Proof.
  intros Hn [Hk0 Hkn] Hu.
  pose proof (IZR_lt 0 n Hn) as Hn'.
  unfold new_location.
  destruct (Z.even n) eqn:Hev;
    unfold new_location_even, new_location_odd;
    destruct (Z.eqb_spec k 0) as [->|Hk].
  - assert (u = IZR q) by nra.
    unfold loc_rec; cbn [shr_record_of_loc shr_m shr_r shr_s]; assumption.
  - assert (Hk' : (0 < IZR k)%R) by (apply IZR_lt; lia).
    assert (Hkn' : (IZR k < IZR n)%R) by (apply IZR_lt; lia).
    destruct (Z.compare_spec (2 * k) n) as [Heq|Hlt|Hgt];
      unfold loc_rec; cbn [shr_record_of_loc shr_m shr_r shr_s].
    + apply (f_equal IZR) in Heq. rewrite mult_IZR in Heq.
      assert (2 * (u - IZR q) = 1)%R
        by (apply Rmult_eq_reg_r with (IZR n); lra).
      lra.
    + apply IZR_lt in Hlt. rewrite mult_IZR in Hlt. split; nra.
    + apply IZR_lt in Hgt. rewrite mult_IZR in Hgt. split; nra.
  - assert (u = IZR q) by nra.
    unfold loc_rec; cbn [shr_record_of_loc shr_m shr_r shr_s]; assumption.
  - assert (Hk' : (0 < IZR k)%R) by (apply IZR_lt; lia).
    assert (Hkn' : (IZR k < IZR n)%R) by (apply IZR_lt; lia).
    assert (Hne : 2 * k <> n).
    { intros <-. rewrite Z.even_mul in Hev. discriminate. }
    destruct (Z.compare_spec (2 * k + 1) n) as [Heq|Hlt|Hgt];
      unfold loc_rec; cbn [shr_record_of_loc shr_m shr_r shr_s].
    + assert (Hlt : 2 * k < n) by lia.
      apply IZR_lt in Hlt. rewrite mult_IZR in Hlt. split; nra.
    + assert (Hlt' : 2 * k < n) by lia.
      apply IZR_lt in Hlt'. rewrite mult_IZR in Hlt'. split; nra.
    + assert (Hgt' : n < 2 * k) by lia.
      apply IZR_lt in Hgt'. rewrite mult_IZR in Hgt'. split; nra.
Qed.

Lemma division_positiva_spec (sx : bool) (m1 m2 : positive) :
  redondeado_a (con_signo sx (IZR (Zpos m1) / IZR (Zpos m2)))
    (SFdiv prec emax (S754_finite sx m1 0) (S754_finite false m2 0)).
Proof.
  cbn [SFdiv]. unfold SFdiv_core_binary. rewrite fexp_eq.
  set (d1 := Zdigits2 (Zpos m1)). set (d2 := Zdigits2 (Zpos m2)).
  set (e' := Z.min (Z.max (d1 + 0 - (d2 + 0) - 53) (-1074)) (0 - 0)).
  assert (He' : e' <= 0) by lia.
  set (m' := match 0 - 0 - e' with
             | 0 => Zpos m1
             | Zpos _ => Z.shiftl (Zpos m1) (0 - 0 - e')
             | Zneg _ => 0
             end).
  assert (Hm' : m' = Zpos m1 * 2 ^ (- e')).
  { unfold m'. replace (0 - 0 - e') with (- e') by lia.
    destruct (- e') as [|p|p] eqn:Hs; [lia| |lia].
    rewrite Z.shiftl_mul_pow2 by lia. reflexivity. }
  clearbody m'.
  pose proof (Z_div_mod m' (Zpos m2) ltac:(lia)) as Hdiv.
  destruct (Z.div_eucl m' (Zpos m2)) as [q r]. destruct Hdiv as [Hqr Hr].
  pose proof (Z.pow_pos_nonneg 2 (- e') ltac:(lia) ltac:(lia)) as Hp.
  assert (Hq0 : 0 <= q) by nia.
  set (x := (IZR (Zpos m1) / IZR (Zpos m2))%R).
  pose proof (IZR_lt 0 (Zpos m1) ltac:(lia)) as H1.
  pose proof (IZR_lt 0 (Zpos m2) ltac:(lia)) as H2.
  assert (Hx : (0 < x)%R) by (unfold x; apply Rdiv_lt_0_compat; assumption).
  assert (Hxm : (x * IZR (Zpos m2) = IZR (Zpos m1))%R)
    by (unfold x; field; lra).
  replace (xorb sx false) with sx by (destruct sx; reflexivity).
  destruct (binary_round_aux_spec sx q e' (new_location (Zpos m2) r) x)
    as (c & k & Hc & Hk & Hres).
  - exact Hq0.
  - apply new_location_loc; [lia|exact Hr|].
    replace (IZR q * IZR (Zpos m2) + IZR r)%R with (IZR m')
      by (rewrite <- mult_IZR, <- plus_IZR; f_equal; lia).
    rewrite Hm', mult_IZR, IZR_pow2 by lia. nra.
  - exact Hx.
  - rewrite fexp_eq.
    pose proof (Zdigits2_spec (Zpos m1) ltac:(lia)) as [Hlo1 Hhi1].
    pose proof (Zdigits2_spec (Zpos m2) ltac:(lia)) as [Hlo2 Hhi2].
    pose proof (Zdigits2_pos (Zpos m1) ltac:(lia)) as Hd1.
    pose proof (Zdigits2_pos (Zpos m2) ltac:(lia)) as Hd2.
    fold d1 in Hlo1, Hhi1, Hd1. fold d2 in Hlo2, Hhi2, Hd2.
    destruct (Z.eq_dec q 0) as [->|Hqne].
    + (* m' < m2 *)
      assert (Hlt : 2 ^ (d1 - 1 + - e') < 2 ^ d2).
      { rewrite Z.pow_add_r by lia. nia. }
      apply Z.pow_lt_mono_r_iff in Hlt; [|lia|lia].
      change (Zdigits2 0) with 0. lia.
    + assert (Hdq : d1 + - e' - d2 <= Zdigits2 q).
      { apply Zdigits2_ge; [lia|].
        destruct (Z_le_gt_dec (d1 + - e' - d2 - 1) (-1)) as [Hs|Hs].
        - rewrite Z.pow_neg_r by lia. lia.
        - set (A := 2 ^ (d1 + - e' - d2 - 1)).
          assert (HA : 0 < A) by (apply Z.pow_pos_nonneg; lia).
          assert (HBA : 2 ^ d2 * A = 2 ^ (d1 - 1) * 2 ^ (- e')).
          { unfold A. rewrite <- !Z.pow_add_r by lia. f_equal. lia. }
          set (B := 2 ^ d2) in *. set (C := 2 ^ (d1 - 1)) in *.
          set (P := 2 ^ (- e')) in *.
          destruct (Z_le_gt_dec A q) as [|Hlt]; [assumption|exfalso].
          assert (Zpos m2 * (q + 1) <= Zpos m2 * A)
            by (apply Z.mul_le_mono_nonneg_l; lia).
          assert (Zpos m2 * A < B * A)
            by (apply Z.mul_lt_mono_pos_r; lia).
          assert (C * P <= Zpos m1 * P)
            by (apply Z.mul_le_mono_nonneg_r; lia).
          clearbody A B C P. lia. }
      lia.
  - exact (redondeado_de_resultado sx x c k _ Hc Hk Hres).
Qed.

Lemma SFdiv_signos (sx sy : bool) (m1 m2 : positive) :
  SFdiv prec emax (S754_finite sx m1 0) (S754_finite sy m2 0) =
  SFdiv prec emax (S754_finite (xorb sx sy) m1 0) (S754_finite false m2 0).
Proof.
  cbn [SFdiv]. destruct (SFdiv_core_binary _ _ _ _ _ _) as [[mz ez] lz].
  rewrite xorb_false_r. reflexivity.
Qed.

Lemma division_cruda_spec (a b : Z) :
  a <> 0 -> b <> 0 ->
  redondeado_a (IZR a / IZR b)
    (SFdiv prec emax (entero_crudo a) (entero_crudo b)).
Proof.
  intros Ha Hb.
  destruct a as [|pa|pa]; [contradiction| |];
    destruct b as [|pb|pb]; try contradiction;
    cbn [entero_crudo]; rewrite SFdiv_signos; cbn [xorb].
  - exact (division_positiva_spec false pa pb).
  - pose proof (division_positiva_spec true pa pb) as H.
    replace (IZR (Zpos pa) / IZR (Zneg pb))%R
      with (con_signo true (IZR (Zpos pa) / IZR (Zpos pb))); [exact H|].
    unfold con_signo. change (Zneg pb) with (- Zpos pb). rewrite opp_IZR.
    pose proof (IZR_lt 0 (Zpos pb) ltac:(lia)). field. lra.
  - pose proof (division_positiva_spec true pa pb) as H.
    replace (IZR (Zneg pa) / IZR (Zpos pb))%R
      with (con_signo true (IZR (Zpos pa) / IZR (Zpos pb))); [exact H|].
    unfold con_signo. change (Zneg pa) with (- Zpos pa). rewrite opp_IZR.
    pose proof (IZR_lt 0 (Zpos pb) ltac:(lia)). field. lra.
  - pose proof (division_positiva_spec false pa pb) as H.
    replace (IZR (Zneg pa) / IZR (Zneg pb))%R
      with (con_signo false (IZR (Zpos pa) / IZR (Zpos pb))); [exact H|].
    unfold con_signo. change (Zneg pa) with (- Zpos pa).
    change (Zneg pb) with (- Zpos pb). rewrite !opp_IZR.
    pose proof (IZR_lt 0 (Zpos pb) ltac:(lia)). field. lra.
Qed.

(** [round] *)
Lemma cercano_opuesto (u : R) (k : Z) : cercano u k -> cercano (- u) (- k).
Proof.
  intros [[H1 H2] He]. unfold cercano. rewrite opp_IZR. split; [lra|].
  intros Hc. rewrite Z.even_opp. apply He. lra.
Qed.

Lemma entero_mas_cercano_spec (m : positive) (e : Z) :
  cercano (IZR (Zpos m) * bpow e) (entero_mas_cercano (Zpos m) e).
Proof.
  unfold entero_mas_cercano. destruct e as [|p|p].
  - rewrite bpow_0, Rmult_1_r. apply cercano_de_entero.
  - rewrite <- IZR_pow2, <- mult_IZR by lia. apply cercano_de_entero.
  - change (- Zneg p) with (Zpos p).
    set (d := 2 ^ Zpos p).
    assert (Hd : 0 < d) by (apply Z.pow_pos_nonneg; lia).
    pose proof (Z.div_mod (Zpos m) d ltac:(lia)) as Hdm.
    pose proof (Z.mod_pos_bound (Zpos m) d Hd) as Hr.
    set (q := Zpos m / d) in *. set (r := Zpos m mod d) in *.
    set (u := (IZR (Zpos m) * bpow (Zneg p))%R).
    assert (Hu : (u * IZR d = IZR q * IZR d + IZR r)%R).
    { unfold u. rewrite <- mult_IZR, <- plus_IZR.
      replace (q * d + r) with (Zpos m) by lia.
      unfold d. rewrite IZR_pow2 by lia.
      change (Zneg p) with (- Zpos p). apply escala_cexp. }
    pose proof (IZR_lt 0 d Hd) as Hd'.
    pose proof (IZR_le 0 r ltac:(lia)) as Hr0.
    pose proof (IZR_lt r d ltac:(lia)) as Hrd.
    clearbody u d q r.
    destruct (Z.compare_spec (2 * r) d) as [Heq|Hlt|Hgt].
    + apply (f_equal IZR) in Heq. rewrite mult_IZR in Heq.
      assert (2 * (u - IZR q) = 1)%R
        by (apply Rmult_eq_reg_r with (IZR d); lra).
      destruct (Z.even q) eqn:Hev.
      * split; [lra|intros _; exact Hev].
      * split; [rewrite plus_IZR; lra|intros _].
        rewrite Z.even_add, Hev. reflexivity.
    + apply IZR_lt in Hlt. rewrite mult_IZR in Hlt.
      split; [split; nra|intros [Hc|Hc]; nra].
    + apply IZR_lt in Hgt. rewrite mult_IZR in Hgt.
      unfold cercano. rewrite plus_IZR.
      split; [split; nra|intros [Hc|Hc]; nra].
Qed.

Lemma py_round_spec (f : spec_float) :
  finito f -> exists k, py_round f = Ok k /\ cercano (valor_real f) k.
Proof.
  intros Hf. destruct f as [s|s| |s m e]; try contradiction.
  - exists 0. split; [reflexivity|]. apply (cercano_de_entero 0).
  - exists (cond_Zopp s (entero_mas_cercano (Zpos m) e)).
    split; [reflexivity|]. rewrite valor_finito.
    pose proof (entero_mas_cercano_spec m e) as H.
    destruct s; unfold con_signo, cond_Zopp;
      [apply cercano_opuesto|]; exact H.
Qed.

Lemma en_cota_IZR (n j : Z) : 0 <= j -> Z.abs n <= 2 ^ j -> en_cota (IZR n) j.
Proof.
  intros Hj Hn. unfold en_cota. rewrite <- IZR_pow2 by exact Hj.
  rewrite <- opp_IZR. split; apply IZR_le; lia.
Qed.

Lemma en_cota_mas (v : R) (j j' : Z) : j <= j' -> en_cota v j -> en_cota v j'.
Proof.
  intros Hj [H1 H2]. pose proof (bpow_le j j' Hj). unfold en_cota. lra.
Qed.

Lemma en_cota_producto (u v : R) (j j' : Z) :
  en_cota u j -> en_cota v j' -> en_cota (u * v) (j + j').
Proof.
  intros [H1 H2] [H3 H4]. unfold en_cota. rewrite bpow_plus.
  pose proof (bpow_gt_0 j). pose proof (bpow_gt_0 j'). split; nra.
Qed.

Lemma en_cota_suma (u v : R) (j : Z) :
  en_cota u j -> en_cota v j -> en_cota (u + v) (j + 1).
Proof.
  intros [H1 H2] [H3 H4]. unfold en_cota. rewrite bpow_succ. lra.
Qed.

Lemma de_entero_exacto (n : Z) :
  Z.abs n < 2 ^ 53 ->
  exists f, de_entero n = Ok f /\ flotante_ok f /\ valor_real f = IZR n.
Proof.
  intros Hn. pose proof (binary_normalize_spec n 0 false) as H.
  rewrite bpow_0, Rmult_1_r in H.
  destruct (redondeado_finito _ _ 53 H ltac:(lia)
              (en_cota_IZR n 53 ltac:(lia) ltac:(lia)))
    as (Hf & Hb & Hr & _).
  exists (binary_normalize prec emax n 0 false).
  split; [|split; [split; assumption|exact (redondea_entero n _ Hn Hr)]].
  unfold de_entero. destruct (binary_normalize prec emax n 0 false);
    try reflexivity; contradiction.
Qed.

Lemma division_real_ok (a b : Z) (j : Z) :
  b <> 0 -> 0 <= j <= 1023 -> Z.abs a <= 2 ^ j ->
  exists f, division_real a b = Ok f /\ flotante_ok f /\
            redondea (IZR a / IZR b) (valor_real f) /\ en_cota (valor_real f) j.
Proof.
  intros Hb Hj Ha. unfold division_real.
  destruct (Z.eqb_spec b 0) as [|_]; [contradiction|].
  destruct (Z.eqb_spec a 0) as [->|Ha0].
  - exists (S754_zero (b <? 0)). split; [reflexivity|].
    split; [split; exact I|]. unfold valor_real.
    split; [left; split; [unfold Rdiv; lra|reflexivity]|].
    unfold en_cota. pose proof (bpow_gt_0 j). lra.
  - pose proof (division_cruda_spec a b Ha0 Hb) as H.
    assert (Hcota : en_cota (IZR a / IZR b) j).
    { pose proof (en_cota_IZR a j ltac:(lia) Ha) as [H1 H2].
      assert (Hb1 : (1 <= Rabs (IZR b))%R).
      { rewrite <- abs_IZR. apply (IZR_le 1). lia. }
      assert (Hinv : (0 < / Rabs (IZR b) <= 1)%R).
      { split; [apply Rinv_0_lt_compat; lra|].
        rewrite <- Rinv_1. apply Rinv_le_contravar; lra. }
      assert (Habs : (Rabs (IZR a / IZR b) <= bpow j)%R).
      { unfold Rdiv. rewrite Rabs_mult, Rabs_inv.
        assert (Rabs (IZR a) <= bpow j)%R by (apply Rabs_le; lra).
        pose proof (Rabs_pos (IZR a)). nra. }
      pose proof (Rle_abs (IZR a / IZR b)) as Hp.
      pose proof (Rle_abs (- (IZR a / IZR b))) as Hm.
      rewrite Rabs_Ropp in Hm. unfold en_cota. lra. }
    destruct (redondeado_finito _ _ j H ltac:(lia) Hcota) as (Hf & Hbf & Hr & Hc).
    exists (SFdiv prec emax (entero_crudo a) (entero_crudo b)).
    split; [|split; [split; assumption|split; assumption]].
    destruct (SFdiv prec emax (entero_crudo a) (entero_crudo b));
      try reflexivity; contradiction.
Qed.

Lemma fmul_ok (x y : spec_float) (jx jy : Z) :
  flotante_ok x -> flotante_ok y -> en_cota (valor_real x) jx -> en_cota (valor_real y) jy ->
  -1074 <= jx + jy <= 1023 ->
  flotante_ok (fmul x y) /\ redondea (valor_real x * valor_real y) (valor_real (fmul x y)) /\
  en_cota (valor_real (fmul x y)) (jx + jy).
Proof.
  intros [Hfx Hbx] [Hfy Hby] Hx Hy Hj.
  pose proof (fmul_spec x y Hfx Hfy Hbx Hby) as H.
  destruct (redondeado_finito _ _ (jx + jy) H Hj (en_cota_producto _ _ _ _ Hx Hy))
    as (Hf & Hb & Hr & Hc).
  split; [split; assumption|split; assumption].
Qed.

Lemma fadd_ok (x y : spec_float) (j : Z) :
  flotante_ok x -> flotante_ok y -> en_cota (valor_real x) j -> en_cota (valor_real y) j ->
  -1074 <= j + 1 <= 1023 ->
  flotante_ok (fadd x y) /\ redondea (valor_real x + valor_real y) (valor_real (fadd x y)) /\
  en_cota (valor_real (fadd x y)) (j + 1).
Proof.
  intros [Hfx Hbx] [Hfy Hby] Hx Hy Hj.
  pose proof (fadd_spec x y Hfx Hfy Hbx Hby) as H.
  destruct (redondeado_finito _ _ (j + 1) H Hj (en_cota_suma _ _ _ Hx Hy))
    as (Hf & Hb & Hr & Hc).
  split; [split; assumption|split; assumption].
Qed.

Lemma por_entero_ok (x : spec_float) (n : Z) (jx : Z) :
  flotante_ok x -> en_cota (valor_real x) jx -> Z.abs n < 2 ^ 53 ->
  -1074 <= jx + 53 <= 1023 ->
  exists f, por_entero x n = Ok f /\ flotante_ok f /\
            redondea (valor_real x * IZR n) (valor_real f) /\ en_cota (valor_real f) (jx + 53).
Proof.
  intros Hx Hcx Hn Hj. unfold por_entero.
  destruct (de_entero_exacto n Hn) as (y & -> & Hy & Hv). cbn [ligar].
  destruct (fmul_ok x y jx 53 Hx Hy Hcx) as (Hf & Hr & Hc).
  { rewrite Hv. apply en_cota_IZR; lia. }
  { exact Hj. }
  exists (fmul x y). rewrite Hv in Hr.
  split; [reflexivity|split; [exact Hf|split; assumption]].
Qed.

Lemma entero_mas_ok (n : Z) (x : spec_float) (j : Z) :
  flotante_ok x -> en_cota (valor_real x) j -> Z.abs n < 2 ^ 53 -> 53 <= j <= 1022 ->
  exists f, entero_mas n x = Ok f /\ flotante_ok f /\
            redondea (IZR n + valor_real x) (valor_real f) /\ en_cota (valor_real f) (j + 1).
Proof.
  intros Hx Hcx Hn Hj. unfold entero_mas.
  destruct (de_entero_exacto n Hn) as (y & -> & Hy & Hv). cbn [ligar].
  destruct (fadd_ok y x j Hy Hx) as (Hf & Hr & Hc).
  { rewrite Hv. apply en_cota_mas with 53; [lia|]. apply en_cota_IZR; lia. }
  { exact Hcx. }
  { lia. }
  exists (fadd y x). rewrite Hv in Hr.
  split; [reflexivity|split; [exact Hf|split; assumption]].
Qed.

(** the branches of the composite conversion *)
Import Compuestos Orden.

Lemma cero_coma_siete_ok :
  flotante_ok cero_coma_siete /\ en_cota siete_decimos 0 /\
  (0 < siete_decimos)%R.
Proof.
  split; [split; [exact I|split; [reflexivity|lia]]|].
  unfold siete_decimos, cero_coma_siete, valor_real.
  pose proof (bpow_gt_0 (-53)) as Hb.
  assert (H53 : (bpow 53 * bpow (-53) = 1)%R).
  { rewrite <- bpow_plus. change (53 + -53) with 0. apply bpow_0. }
  assert (Hm : (0 < IZR 6305039478318694 < bpow 53)%R).
  { rewrite <- IZR_pow2 by lia. split; apply IZR_lt; reflexivity. }
  split; [|nra]. unfold en_cota. rewrite bpow_0. split; nra.
Qed.

Lemma acotado_resta (a b : Z) : acotado a -> acotado b -> Z.abs (a - b) < 2 ^ 53.
Proof.
  unfold acotado. intros Ha Hb. change (2 ^ 53) with (2 * 2 ^ 52). lia.
Qed.

Lemma acotado_53 (a : Z) : acotado a -> Z.abs a < 2 ^ 53.
Proof.
  unfold acotado. intros Ha. change (2 ^ 53) with (2 * 2 ^ 52). lia.
Qed.

Lemma interpolar_entre_spec (t : tabla_escala) (fi fs : fila) (s : Z) :
  fila_acotada fi -> fila_acotada fs -> acotado s -> suma fs <> suma fi ->
  exists k,
    interpolacion_redondeada (suma fi) (valor fi) (suma fs) (valor fs) s k /\
    interpolar_entre t fi fs s =
      Ok {| compuesto := k; r_percentil := percentil fi;
            r_conf_90 := conf_90 fi; r_conf_95 := conf_95 fi;
            nombre_escala := nombre t |}.
Proof.
  intros [Hsi Hvi] [Hss Hvs] Hs Hne. unfold interpolar_entre.
  destruct (division_real_ok (s - suma fi) (suma fs - suma fi) 53)
    as (ratio & -> & Hrok & Hr & Hrc);
    [lia|lia|pose proof (acotado_resta _ _ Hs Hsi); lia|].
  cbn [ligar].
  destruct (por_entero_ok ratio (valor fs - valor fi) 53 Hrok Hrc)
    as (p & -> & Hpok & Hp & Hpc);
    [apply acotado_resta; assumption|lia|].
  cbn [ligar].
  destruct (entero_mas_ok (valor fi) p (53 + 53) Hpok Hpc)
    as (w & -> & Hwok & Hw & Hwc);
    [apply acotado_53; assumption|lia|].
  cbn [ligar].
  destruct (py_round_spec w (proj1 Hwok)) as (k & -> & Hk).
  cbn [ligar].
  exists k. split; [|reflexivity].
  exists (valor_real ratio), (valor_real p), (valor_real w).
  split; [exact Hr|split; [exact Hp|split; [exact Hw|exact Hk]]].
Qed.

Lemma extrapolar_bajo_spec (t : tabla_escala) (f0 f1 : fila) (s : Z) :
  indice (datos t) 0 = Ok f0 -> indice (datos t) 1 = Ok f1 ->
  fila_acotada f0 -> fila_acotada f1 -> acotado s -> suma f1 <> suma f0 ->
  exists k,
    extrapolacion_baja (suma f0) (valor f0) (suma f1) (valor f1) s k /\
    extrapolar_bajo t s =
      Ok {| compuesto := Z.max 40 (Z.min 160 k); r_percentil := percentil f0;
            r_conf_90 := conf_90 f0; r_conf_95 := conf_95 f0;
            nombre_escala := nombre t |}.
Proof.
  intros H0 H1 [Hs0 Hv0] [Hs1 Hv1] Hs Hne. unfold extrapolar_bajo.
  rewrite H0, H1. cbn [ligar].
  destruct (division_real_ok (valor f1 - valor f0) (suma f1 - suma f0) 53)
    as (pe & -> & Hpeok & Hpe & Hpec);
    [lia|lia|pose proof (acotado_resta _ _ Hv1 Hv0); lia|].
  cbn [ligar].
  destruct (por_entero_ok pe (s - suma f0) 53 Hpeok Hpec)
    as (p & -> & Hpok & Hp & Hpc);
    [apply acotado_resta; assumption|lia|].
  cbn [ligar].
  destruct (entero_mas_ok (valor f0) p (53 + 53) Hpok Hpc)
    as (w & -> & Hwok & Hw & Hwc);
    [apply acotado_53; assumption|lia|].
  cbn [ligar].
  destruct (py_round_spec w (proj1 Hwok)) as (k & -> & Hk).
  cbn [ligar].
  exists k. split; [|reflexivity].
  exists (valor_real pe), (valor_real p), (valor_real w).
  split; [exact Hpe|split; [exact Hp|split; [exact Hw|exact Hk]]].
Qed.

Lemma extrapolar_alto_spec (t : tabla_escala) (fa fm : fila) (s : Z) :
  indice_desde_el_final (datos t) 1 = Ok fm ->
  indice_desde_el_final (datos t) 2 = Ok fa ->
  fila_acotada fa -> fila_acotada fm -> acotado s -> suma fm <> suma fa ->
  exists k,
    extrapolacion_alta (suma fa) (valor fa) (suma fm) (valor fm) s k /\
    extrapolar_alto t s =
      Ok {| compuesto := Z.max (valor fm) (Z.min 160 k);
            r_percentil :=
              if contiene "99.9" (py_str (percentil fm))
              then JTexto ">99.9" else percentil fm;
            r_conf_90 := conf_90 fm; r_conf_95 := conf_95 fm;
            nombre_escala := nombre t |}.
Proof.
  intros Hm Ha [Hsa Hva] [Hsm Hvm] Hs Hne. unfold extrapolar_alto.
  rewrite Hm, Ha. cbn [ligar].
  destruct (division_real_ok (valor fm - valor fa) (suma fm - suma fa) 53)
    as (pe & -> & Hpeok & Hpe & Hpec);
    [lia|lia|pose proof (acotado_resta _ _ Hvm Hva); lia|].
  cbn [ligar].
  destruct cero_coma_siete_ok as (H7ok & H7c & _).
  destruct (fmul_ok pe cero_coma_siete 53 0 Hpeok H7ok Hpec H7c ltac:(lia))
    as (Hcok & Hc & Hcc).
  destruct (por_entero_ok (fmul pe cero_coma_siete) (s - suma fm) (53 + 0)
              Hcok Hcc)
    as (p & -> & Hpok & Hp & Hpc);
    [apply acotado_resta; assumption|lia|].
  cbn [ligar].
  destruct (entero_mas_ok (valor fm) p (53 + 0 + 53) Hpok Hpc)
    as (w & -> & Hwok & Hw & Hwc);
    [apply acotado_53; assumption|lia|].
  cbn [ligar].
  destruct (py_round_spec w (proj1 Hwok)) as (k & -> & Hk).
  cbn [ligar].
  exists k. split; [|reflexivity].
  exists (valor_real pe), (valor_real (fmul pe cero_coma_siete)),
         (valor_real p), (valor_real w).
  split; [exact Hpe|split; [exact Hc|split; [exact Hp|split; [exact Hw|exact Hk]]]].
Qed.

(** ** Bounds and monotonicity of the rounded formulas *)

Lemma redondea_de_entero (n : Z) : Z.abs n < 2 ^ 53 -> redondea (IZR n) (IZR n).
Proof.
  intros Hn. pose proof (redondea_representable n 0 Hn ltac:(lia)) as H.
  rewrite bpow_0, Rmult_1_r in H. exact H.
Qed.

Lemma cociente_mono (a b d : Z) :
  0 < d -> a <= b -> (IZR a / IZR d <= IZR b / IZR d)%R.
Proof.
  intros Hd Hab. unfold Rdiv. apply Rmult_le_compat_r.
  - left. apply Rinv_0_lt_compat. apply (IZR_lt 0). exact Hd.
  - apply IZR_le. exact Hab.
Qed.

Lemma cociente_unidad (a d : Z) :
  0 < d -> 0 <= a <= d -> (0 <= IZR a / IZR d <= 1)%R.
Proof.
  intros Hd [Ha Had].
  pose proof (cociente_mono 0 a d Hd Ha) as H0.
  pose proof (cociente_mono a d d Hd Had) as H1.
  assert (Hdd : (IZR d / IZR d = 1)%R).
  { unfold Rdiv. apply Rinv_r. apply not_0_IZR. lia. }
  rewrite Hdd in H1. unfold Rdiv in H0 at 1. rewrite Rmult_0_l in H0.
  split; assumption.
Qed.

Lemma interpolacion_cotas (si vi ss vs s k : Z) :
  si < ss -> si <= s <= ss -> vi <= vs -> acotado vi -> acotado vs ->
  interpolacion_redondeada si vi ss vs s k -> vi <= k <= vs.
Proof.
  intros Hss Hs Hv Hvi Hvs (ratio & p & w & Hr & Hp & Hw & Hk).
  pose proof (cociente_unidad (s - si) (ss - si) ltac:(lia) ltac:(lia)) as [Hu0 Hu1].
  assert (Hr0 : (0 <= ratio)%R) by (eapply redondea_nonneg; eassumption).
  assert (Hr1 : (ratio <= 1)%R).
  { apply (redondea_mono _ _ _ _ Hu1 Hr).
    apply (redondea_de_entero 1). reflexivity. }
  assert (HD : (0 <= IZR (vs - vi))%R) by (apply (IZR_le 0); lia).
  assert (Hp0 : (0 <= p)%R).
  { apply (redondea_nonneg _ _ (Rmult_le_pos _ _ Hr0 HD) Hp). }
  assert (Hp1 : (p <= IZR (vs - vi))%R).
  { assert (Hle : (ratio * IZR (vs - vi) <= IZR (vs - vi))%R) by nra.
    apply (redondea_mono _ _ _ _ Hle Hp).
    apply redondea_de_entero. apply acotado_resta; assumption. }
  assert (Hw0 : (IZR vi <= w)%R).
  { assert (Hle : (IZR vi <= IZR vi + p)%R) by lra.
    apply (redondea_mono _ _ _ _ Hle); [|exact Hw].
    apply redondea_de_entero. apply acotado_53. exact Hvi. }
  assert (Hw1 : (w <= IZR vs)%R).
  { assert (Hle : (IZR vi + p <= IZR vs)%R).
    { rewrite minus_IZR in Hp1. lra. }
    apply (redondea_mono _ _ _ _ Hle Hw).
    apply redondea_de_entero. apply acotado_53. exact Hvs. }
  split.
  - apply (cercano_mono _ _ _ _ Hw0 (cercano_de_entero vi) Hk).
  - apply (cercano_mono _ _ _ _ Hw1 Hk (cercano_de_entero vs)).
Qed.

Lemma interpolacion_mono (si vi ss vs s s' k k' : Z) :
  si < ss -> vi <= vs -> s <= s' ->
  interpolacion_redondeada si vi ss vs s k ->
  interpolacion_redondeada si vi ss vs s' k' -> k <= k'.
Proof.
  intros Hss Hv Hs (ratio & p & w & Hr & Hp & Hw & Hk)
         (ratio' & p' & w' & Hr' & Hp' & Hw' & Hk').
  assert (Hu : (IZR (s - si) / IZR (ss - si) <= IZR (s' - si) / IZR (ss - si))%R)
    by (apply cociente_mono; lia).
  pose proof (redondea_mono _ _ _ _ Hu Hr Hr') as Hrr.
  assert (HD : (0 <= IZR (vs - vi))%R) by (apply (IZR_le 0); lia).
  assert (Hpp : (p <= p')%R).
  { apply (fun H => redondea_mono _ _ _ _ H Hp Hp'). nra. }
  assert (Hww : (w <= w')%R).
  { apply (fun H => redondea_mono _ _ _ _ H Hw Hw'). lra. }
  exact (cercano_mono _ _ _ _ Hww Hk Hk').
Qed.

Lemma pendiente_nonneg (s0 v0 s1 v1 : Z) (pendiente : R) :
  s0 < s1 -> v0 <= v1 ->
  redondea (IZR (v1 - v0) / IZR (s1 - s0)) pendiente -> (0 <= pendiente)%R.
Proof.
  intros Hs Hv. apply redondea_nonneg.
  pose proof (cociente_mono 0 (v1 - v0) (s1 - s0) ltac:(lia) ltac:(lia)) as H.
  unfold Rdiv in H at 1. rewrite Rmult_0_l in H. exact H.
Qed.

Lemma extrapolacion_baja_mono (s0 v0 s1 v1 s s' k k' : Z) :
  s0 < s1 -> v0 <= v1 -> s <= s' ->
  extrapolacion_baja s0 v0 s1 v1 s k ->
  extrapolacion_baja s0 v0 s1 v1 s' k' -> k <= k'.
Proof.
  intros Hss Hv Hs (pe & p & w & Hpe & Hp & Hw & Hk)
         (pe' & p' & w' & Hpe' & Hp' & Hw' & Hk').
  pose proof (redondea_unico _ _ _ Hpe Hpe'). subst pe'.
  pose proof (pendiente_nonneg _ _ _ _ _ Hss Hv Hpe) as Hpe0.
  assert (Hd : (IZR (s - s0) <= IZR (s' - s0))%R) by (apply IZR_le; lia).
  assert (Hpp : (p <= p')%R).
  { apply (fun H => redondea_mono _ _ _ _ H Hp Hp'). nra. }
  assert (Hww : (w <= w')%R).
  { apply (fun H => redondea_mono _ _ _ _ H Hw Hw'). lra. }
  exact (cercano_mono _ _ _ _ Hww Hk Hk').
Qed.

Lemma extrapolacion_baja_cota (s0 v0 s1 v1 s k : Z) :
  s0 < s1 -> v0 <= v1 -> s <= s0 -> acotado v0 ->
  extrapolacion_baja s0 v0 s1 v1 s k -> k <= v0.
Proof.
  intros Hss Hv Hs Hv0 (pe & p & w & Hpe & Hp & Hw & Hk).
  pose proof (pendiente_nonneg _ _ _ _ _ Hss Hv Hpe) as Hpe0.
  assert (Hd : (IZR (s - s0) <= 0)%R) by (apply (IZR_le _ 0); lia).
  assert (Hp0 : (p <= 0)%R).
  { apply (fun H => redondea_nonpos _ _ H Hp). nra. }
  assert (Hw1 : (w <= IZR v0)%R).
  { assert (Hle : (IZR v0 + p <= IZR v0)%R) by lra.
    apply (redondea_mono _ _ _ _ Hle Hw).
    apply redondea_de_entero. apply acotado_53. exact Hv0. }
  exact (cercano_mono _ _ _ _ Hw1 Hk (cercano_de_entero v0)).
Qed.

Lemma extrapolacion_alta_mono (sa va sm vm s s' k k' : Z) :
  sa < sm -> va <= vm -> s <= s' ->
  extrapolacion_alta sa va sm vm s k ->
  extrapolacion_alta sa va sm vm s' k' -> k <= k'.
Proof.
  intros Hss Hv Hs (pe & c & p & w & Hpe & Hc & Hp & Hw & Hk)
         (pe' & c' & p' & w' & Hpe' & Hc' & Hp' & Hw' & Hk').
  pose proof (redondea_unico _ _ _ Hpe Hpe'). subst pe'.
  pose proof (redondea_unico _ _ _ Hc Hc'). subst c'.
  pose proof (pendiente_nonneg _ _ _ _ _ Hss Hv Hpe) as Hpe0.
  destruct cero_coma_siete_ok as (_ & _ & H7).
  assert (Hc0 : (0 <= c)%R).
  { apply (fun H => redondea_nonneg _ _ H Hc). nra. }
  assert (Hd : (IZR (s - sm) <= IZR (s' - sm))%R) by (apply IZR_le; lia).
  assert (Hpp : (p <= p')%R).
  { apply (fun H => redondea_mono _ _ _ _ H Hp Hp'). nra. }
  assert (Hww : (w <= w')%R).
  { apply (fun H => redondea_mono _ _ _ _ H Hw Hw'). lra. }
  exact (cercano_mono _ _ _ _ Hww Hk Hk').
Qed.

(** ** Chains and keys *)

Section Encadenada.
Context {A : Type} (rel : A -> A -> bool).
Hypothesis rel_trans :
  forall a b c, rel a b = true -> rel b c = true -> rel a c = true.

Lemma encadenada_cola (a : A) (l : list A) :
  encadenada rel (a :: l) = true -> encadenada rel l = true.
Proof.
  destruct l as [|b l]; [reflexivity|]. cbn [encadenada].
  intros H. apply andb_prop in H. apply H.
Qed.

Lemma encadenada_cabeza (a : A) (l : list A) :
  encadenada rel (a :: l) = true -> Forall (fun y => rel a y = true) l.
Proof.
  revert a. induction l as [|b l IH]; intros a H; [constructor|].
  cbn [encadenada] in H. apply andb_prop in H. destruct H as [Hab Hl].
  constructor; [exact Hab|].
  apply (List.Forall_impl (P := fun y => rel b y = true)); [|apply IH; exact Hl].
  intros y Hy. exact (rel_trans _ _ _ Hab Hy).
Qed.

Lemma encadenada_app_cola (l1 l2 : list A) :
  encadenada rel (l1 ++ l2) = true -> encadenada rel l2 = true.
Proof.
  induction l1 as [|a l1 IH]; intros H; [exact H|].
  apply IH. exact (encadenada_cola _ _ H).
Qed.

Lemma encadenada_app (l1 : list A) (x : A) (l2 : list A) :
  encadenada rel (l1 ++ x :: l2) = true ->
  Forall (fun y => rel y x = true) l1 /\ Forall (fun y => rel x y = true) l2.
Proof.
  intros H. split.
  - induction l1 as [|a l1 IH]; [constructor|].
    constructor.
    + pose proof (encadenada_cabeza _ _ H) as Ha.
      rewrite List.Forall_forall in Ha. apply Ha.
      apply in_or_app. right. left. reflexivity.
    + apply IH. exact (encadenada_cola _ _ H).
  - apply encadenada_cabeza. exact (encadenada_app_cola _ _ H).
Qed.

End Encadenada.

Section Claves.
Context {A : Type} (clave : A -> Z).

Lemma find_clave_ninguna (l : list A) (s : Z) :
  Forall (fun f => clave f <> s) l ->
  List.find (fun f => clave f =? s) l = None.
Proof.
  intros H. apply find_ninguna. intros x Hx.
  rewrite List.Forall_forall in H. apply Z.eqb_neq. apply H. exact Hx.
Qed.

Lemma find_clave_primera (l1 : list A) (f : A) (l2 : list A) (s : Z) :
  Forall (fun g => clave g <> s) l1 -> clave f = s ->
  List.find (fun g => clave g =? s) (l1 ++ f :: l2) = Some f.
Proof.
  intros H Hf. induction H as [|a l1 Ha _ IH]; cbn.
  - rewrite (proj2 (Z.eqb_eq _ _) Hf). reflexivity.
  - rewrite (proj2 (Z.eqb_neq _ _) Ha). exact IH.
Qed.

Lemma fold_min_spec (l : list Z) (x : Z) :
  (fold_left Z.min l x <= x /\ Forall (fun y => fold_left Z.min l x <= y) l) /\
  In (fold_left Z.min l x) (x :: l).
Proof.
  revert x. induction l as [|a l IH]; intros x; cbn [fold_left].
  - split; [split; [lia|constructor]|left; reflexivity].
  - destruct (IH (Z.min x a)) as [[H1 H2] H3].
    split; [split; [lia|constructor; [lia|exact H2]]|].
    destruct H3 as [H3|H3]; [|right; right; exact H3].
    destruct (Z.min_spec x a) as [[_ E]|[_ E]];
      [left|right; left]; rewrite <- H3; symmetry; exact E.
Qed.

Lemma fold_max_spec (l : list Z) (x : Z) :
  (x <= fold_left Z.max l x /\ Forall (fun y => y <= fold_left Z.max l x) l) /\
  In (fold_left Z.max l x) (x :: l).
Proof.
  revert x. induction l as [|a l IH]; intros x; cbn [fold_left].
  - split; [split; [lia|constructor]|left; reflexivity].
  - destruct (IH (Z.max x a)) as [[H1 H2] H3].
    split; [split; [lia|constructor; [lia|exact H2]]|].
    destruct H3 as [H3|H3]; [|right; right; exact H3].
    destruct (Z.max_spec x a) as [[_ E]|[_ E]];
      [right; left|left]; rewrite <- H3; symmetry; exact E.
Qed.

Lemma py_min_spec (l : list A) :
  l <> [] ->
  exists m, py_min (map clave l) = Ok m /\
            Forall (fun f => m <= clave f) l /\
            exists f, In f l /\ clave f = m.
Proof.
  destruct l as [|a l]; [congruence|]. intros _.
  cbn [map py_min].
  destruct (fold_min_spec (map clave l) (clave a)) as [[H1 H2] H3].
  eexists. split; [reflexivity|]. split.
  - constructor; [exact H1|].
    rewrite List.Forall_forall in *. intros f Hf. apply H2.
    apply in_map. exact Hf.
  - change (clave a :: map clave l) with (map clave (a :: l)) in H3.
    apply in_map_iff in H3. destruct H3 as (f & E & Hf).
    exists f. split; [exact Hf|exact E].
Qed.

Lemma py_max_spec (l : list A) :
  l <> [] ->
  exists m, py_max (map clave l) = Ok m /\
            Forall (fun f => clave f <= m) l /\
            exists f, In f l /\ clave f = m.
Proof.
  destruct l as [|a l]; [congruence|]. intros _.
  cbn [map py_max].
  destruct (fold_max_spec (map clave l) (clave a)) as [[H1 H2] H3].
  eexists. split; [reflexivity|]. split.
  - constructor; [exact H1|].
    rewrite List.Forall_forall in *. intros f Hf. apply H2.
    apply in_map. exact Hf.
  - change (clave a :: map clave l) with (map clave (a :: l)) in H3.
    apply in_map_iff in H3. destruct H3 as (f & E & Hf).
    exists f. split; [exact Hf|exact E].
Qed.

End Claves.

(** ** The branches of [convertir_compuesto] on an ordered table *)

Open Scope list_scope.

Lemma ltb_trans (A : Type) (clave : A -> Z) (a b c : A) :
  (clave a <? clave b) = true -> (clave b <? clave c) = true ->
  (clave a <? clave c) = true.
Proof. rewrite !Z.ltb_lt. lia. Qed.

Lemma leb_trans (A : Type) (clave : A -> Z) (a b c : A) :
  (clave a <=? clave b) = true -> (clave b <=? clave c) = true ->
  (clave a <=? clave c) = true.
Proof. rewrite !Z.leb_le. lia. Qed.

Lemma sumas_ascendentes_app (l1 : list fila) (f : fila) (l2 : list fila) :
  sumas_ascendentes (l1 ++ f :: l2) = true ->
  Forall (fun g => suma g < suma f) l1 /\ Forall (fun g => suma f < suma g) l2.
Proof.
  intros H. apply (encadenada_app _ (ltb_trans fila suma)) in H.
  destruct H as [H1 H2]. split.
  - apply (List.Forall_impl _ (fun g Hg => proj1 (Z.ltb_lt _ _) Hg) H1).
  - apply (List.Forall_impl _ (fun g Hg => proj1 (Z.ltb_lt _ _) Hg) H2).
Qed.

Lemma valores_no_decrecientes_app (l1 : list fila) (f : fila) (l2 : list fila) :
  valores_no_decrecientes (l1 ++ f :: l2) = true ->
  Forall (fun g => valor g <= valor f) l1 /\
  Forall (fun g => valor f <= valor g) l2.
Proof.
  intros H. apply (encadenada_app _ (leb_trans fila valor)) in H.
  destruct H as [H1 H2]. split.
  - apply (List.Forall_impl _ (fun g Hg => proj1 (Z.leb_le _ _) Hg) H1).
  - apply (List.Forall_impl _ (fun g Hg => proj1 (Z.leb_le _ _) Hg) H2).
Qed.

Lemma indice_final_1 {A : Type} (l : list A) (a : A) :
  indice_desde_el_final (l ++ [a]) 1 = Ok a.
Proof.
  unfold indice_desde_el_final, indice. rewrite length_app. cbn [length].
  replace (1 <=? length l + 1)%nat with true
    by (symmetry; apply Nat.leb_le; lia).
  replace (length l + 1 - 1)%nat with (length l + 0)%nat by lia.
  rewrite lookup_app_r by lia.
  replace (length l + 0 - length l)%nat with 0%nat by lia. reflexivity.
Qed.

Lemma indice_final_2 {A : Type} (l : list A) (a b : A) :
  indice_desde_el_final (l ++ [a; b]) 2 = Ok a.
Proof.
  unfold indice_desde_el_final, indice. rewrite length_app. cbn [length].
  replace (2 <=? length l + 2)%nat with true
    by (symmetry; apply Nat.leb_le; lia).
  replace (length l + 2 - 2)%nat with (length l + 0)%nat by lia.
  rewrite lookup_app_r by lia.
  replace (length l + 0 - length l)%nat with 0%nat by lia. reflexivity.
Qed.

Lemma tabla_fila_exacta (t : tabla_escala) (l1 : list fila) (f : fila)
    (l2 : list fila) :
  datos t = l1 ++ f :: l2 -> sumas_ascendentes (datos t) = true ->
  convertir_en_tabla t (suma f) = Ok (de_fila t f).
Proof.
  intros Hd Ha. unfold convertir_en_tabla. rewrite Hd in *.
  destruct (sumas_ascendentes_app _ _ _ Ha) as [H1 _].
  rewrite (find_clave_primera suma l1 f l2 (suma f)); [reflexivity| |reflexivity].
  apply (List.Forall_impl _ (fun g (Hg : suma g < suma f) => Z.lt_neq _ _ Hg) H1).
Qed.

Lemma interpolar_app (t : tabla_escala) (l1 : list fila) (fi fs : fila)
    (l2 : list fila) (s : Z) :
  Forall (fun g => suma g < s) l1 -> suma fi < s -> s <= suma fs ->
  interpolar t (l1 ++ fi :: fs :: l2) s = Some (interpolar_entre t fi fs s).
Proof.
  intros H Hi Hs. induction H as [|a l1 Ha Hl IH].
  - cbn [app interpolar].
    rewrite (proj2 (Z.leb_le _ _) (Z.lt_le_incl _ _ Hi)).
    rewrite (proj2 (Z.leb_le _ _) Hs). reflexivity.
  - assert (Hb : exists b r, l1 ++ fi :: fs :: l2 = b :: r /\ suma b < s).
    { destruct Hl as [|b l1 Hb _]; [exists fi|exists b]; eexists;
        (split; [reflexivity|assumption]). }
    destruct Hb as (b & r & E & Hb).
    change ((a :: l1) ++ fi :: fs :: l2) with (a :: (l1 ++ fi :: fs :: l2)).
    rewrite E in *. cbn [interpolar].
    rewrite (proj2 (Z.leb_gt _ _) Hb), andb_false_r. exact IH.
Qed.

Lemma tabla_interpolada (t : tabla_escala) (l1 : list fila) (fi fs : fila)
    (l2 : list fila) (s : Z) :
  datos t = l1 ++ fi :: fs :: l2 -> sumas_ascendentes (datos t) = true ->
  suma fi < s < suma fs ->
  fila_acotada fi -> fila_acotada fs -> acotado s ->
  exists k,
    interpolacion_redondeada (suma fi) (valor fi) (suma fs) (valor fs) s k /\
    convertir_en_tabla t s =
      Ok {| compuesto := k; r_percentil := percentil fi;
            r_conf_90 := conf_90 fi; r_conf_95 := conf_95 fi;
            nombre_escala := nombre t |}.
Proof.
  intros Hd Ha [Hi Hs] Hfi Hfs Hsa.
  destruct (interpolar_entre_spec t fi fs s Hfi Hfs Hsa ltac:(lia))
    as (k & Hk & E).
  exists k. split; [exact Hk|].
  unfold convertir_en_tabla. rewrite Hd in *.
  destruct (sumas_ascendentes_app l1 fi (fs :: l2) Ha) as [H1 H2].
  assert (H1s : Forall (fun g => suma g < s) l1).
  { apply (List.Forall_impl _ (fun g (Hg : suma g < suma fi) => Z.lt_trans _ _ _ Hg Hi) H1). }
  assert (H2s : Forall (fun g => s < suma g) (fs :: l2)).
  { apply (List.Forall_impl (P := fun g => suma fs <= suma g)).
    - intros g Hg. lia.
    - inversion H2 as [|? ? Hfs' H2']; subst. constructor; [lia|].
      destruct (sumas_ascendentes_app (l1 ++ [fi]) fs l2) as [_ H3].
      { rewrite <- app_assoc. exact Ha. }
      apply (List.Forall_impl _ (fun g (Hg : suma fs < suma g) => Z.lt_le_incl _ _ Hg) H3). }
  rewrite find_clave_ninguna.
  2:{ apply Forall_app. split.
      - apply (List.Forall_impl _ (fun g (Hg : suma g < s) => Z.lt_neq _ _ Hg) H1s).
      - constructor; [lia|].
        apply (List.Forall_impl _ (fun g (Hg : s < suma g) => not_eq_sym (Z.lt_neq _ _ Hg)) H2s). }
  destruct (py_min_spec suma (l1 ++ fi :: fs :: l2)) as (m & -> & Hm & _).
  { destruct l1; discriminate. }
  destruct (py_max_spec suma (l1 ++ fi :: fs :: l2)) as (M & -> & HM & _).
  { destruct l1; discriminate. }
  cbn [ligar].
  rewrite List.Forall_forall in Hm, HM.
  assert (Hmi : m <= suma fi).
  { apply Hm. apply in_or_app. right. left. reflexivity. }
  assert (HMs : suma fs <= M).
  { apply HM. apply in_or_app. right. right. left. reflexivity. }
  rewrite (proj2 (Z.ltb_ge _ _)) by lia.
  replace (s >? M) with false by (symmetry; rewrite Z.gtb_ltb; apply Z.ltb_ge; lia).
  rewrite (interpolar_app t l1 fi fs l2 s H1s Hi (Z.lt_le_incl _ _ Hs)).
  exact E.
Qed.

Lemma tabla_extrapolada_baja (t : tabla_escala) (f0 f1 : fila)
    (resto : list fila) (s : Z) :
  datos t = f0 :: f1 :: resto ->
  Forall (fun f => s < suma f) (datos t) ->
  suma f1 <> suma f0 ->
  fila_acotada f0 -> fila_acotada f1 -> acotado s ->
  exists k,
    extrapolacion_baja (suma f0) (valor f0) (suma f1) (valor f1) s k /\
    convertir_en_tabla t s =
      Ok {| compuesto := Z.max 40 (Z.min 160 k); r_percentil := percentil f0;
            r_conf_90 := conf_90 f0; r_conf_95 := conf_95 f0;
            nombre_escala := nombre t |}.
Proof.
  intros Hd Hs Hne Hf0 Hf1 Hsa.
  destruct (extrapolar_bajo_spec t f0 f1 s) as (k & Hk & E);
    try assumption; try (rewrite Hd; reflexivity).
  exists k. split; [exact Hk|].
  unfold convertir_en_tabla.
  rewrite find_clave_ninguna.
  2:{ apply (List.Forall_impl _ (fun g (Hg : s < suma g) => not_eq_sym (Z.lt_neq _ _ Hg)) Hs). }
  destruct (py_min_spec suma (datos t)) as (m & -> & _ & f & Hf & <-).
  { rewrite Hd. discriminate. }
  cbn [ligar]. rewrite List.Forall_forall in Hs.
  rewrite (proj2 (Z.ltb_lt _ _) (Hs f Hf)). exact E.
Qed.

Lemma tabla_extrapolada_alta (t : tabla_escala) (inicio : list fila)
    (fa fm : fila) (s : Z) :
  datos t = inicio ++ [fa; fm] ->
  Forall (fun f => suma f < s) (datos t) ->
  suma fm <> suma fa ->
  fila_acotada fa -> fila_acotada fm -> acotado s ->
  exists k,
    extrapolacion_alta (suma fa) (valor fa) (suma fm) (valor fm) s k /\
    convertir_en_tabla t s =
      Ok {| compuesto := Z.max (valor fm) (Z.min 160 k);
            r_percentil :=
              if contiene "99.9" (py_str (percentil fm))
              then JTexto ">99.9" else percentil fm;
            r_conf_90 := conf_90 fm; r_conf_95 := conf_95 fm;
            nombre_escala := nombre t |}.
Proof.
  intros Hd Hs Hne Hfa Hfm Hsa.
  destruct (extrapolar_alto_spec t fa fm s) as (k & Hk & E);
    try assumption.
  { rewrite Hd. change [fa; fm] with ([fa] ++ [fm]). rewrite app_assoc.
    apply indice_final_1. }
  { rewrite Hd. apply indice_final_2. }
  exists k. split; [exact Hk|].
  unfold convertir_en_tabla.
  rewrite find_clave_ninguna.
  2:{ apply (List.Forall_impl _ (fun g (Hg : suma g < s) => Z.lt_neq _ _ Hg) Hs). }
  assert (Hnv : datos t <> []) by (rewrite Hd; destruct inicio; discriminate).
  destruct (py_min_spec suma (datos t) Hnv) as (m & -> & _ & f & Hf & <-).
  destruct (py_max_spec suma (datos t) Hnv) as (M & -> & _ & g & Hg & <-).
  cbn [ligar]. rewrite List.Forall_forall in Hs.
  pose proof (Hs f Hf). pose proof (Hs g Hg).
  rewrite (proj2 (Z.ltb_ge _ _)) by lia.
  replace (s >? suma g) with true by (symmetry; rewrite Z.gtb_ltb; apply Z.ltb_lt; lia).
  exact E.
Qed.

(** Where a sum falls in an ordered table. *)
Lemma ubicacion (l : list fila) (s : Z) :
  l <> [] -> sumas_ascendentes l = true ->
  Forall (fun f => s < suma f) l \/
  Forall (fun f => suma f < s) l \/
  (exists l1 f l2, l = l1 ++ f :: l2 /\ suma f = s) \/
  (exists l1 fi fs l2, l = l1 ++ fi :: fs :: l2 /\ suma fi < s < suma fs).
Proof.
  induction l as [|a l IH]; [congruence|]. intros _ Ha.
  destruct l as [|b l].
  - destruct (Z.lt_trichotomy s (suma a)) as [H|[H|H]].
    + left. constructor; [exact H|constructor].
    + right. right. left. exists [], a, []. split; [reflexivity|congruence].
    + right. left. constructor; [exact H|constructor].
  - pose proof (sumas_ascendentes_app [] a (b :: l) Ha) as [_ Hab].
    inversion Hab as [|? ? Hab1 _]; subst.
    destruct (IH ltac:(discriminate) (encadenada_cola _ _ _ Ha))
      as [H|[H|[(l1 & f & l2 & E & Hf)|(l1 & fi & fs & l2 & E & Hf)]]].
    + destruct (Z.lt_trichotomy s (suma a)) as [H'|[H'|H']].
      * left. constructor; assumption.
      * right. right. left. exists [], a, (b :: l).
        split; [reflexivity|congruence].
      * right. right. right. exists [], a, b, l.
        split; [reflexivity|]. inversion H; subst. lia.
    + right. left. constructor; [|exact H]. inversion H; subst. lia.
    + right. right. left. exists (a :: l1), f, l2.
      split; [rewrite E; reflexivity|exact Hf].
    + right. right. right. exists (a :: l1), fi, fs, l2.
      split; [rewrite E; reflexivity|exact Hf].
Qed.

Lemma ultimas_dos {A : Type} (a b : A) (l : list A) :
  exists inicio x y, a :: b :: l = inicio ++ [x; y].
Proof.
  destruct (exists_last (l := a :: b :: l) ltac:(discriminate)) as (l' & y & E).
  destruct l' as [|a' l'].
  - destruct l; discriminate.
  - destruct (exists_last (l := a' :: l') ltac:(discriminate)) as (ini & x & E').
    exists ini, x, y. rewrite E, E', <- app_assoc. reflexivity.
Qed.

Lemma orden_coherente (l : list fila) (g h : fila) :
  sumas_ascendentes l = true -> valores_no_decrecientes l = true ->
  In g l -> In h l -> suma g <= suma h -> valor g <= valor h.
Proof.
  intros Ha Hv Hg Hh Hs.
  destruct (in_split _ _ Hh) as (l1 & l2 & ->).
  destruct (sumas_ascendentes_app _ _ _ Ha) as [_ Hs2].
  destruct (valores_no_decrecientes_app _ _ _ Hv) as [Hv1 _].
  rewrite List.Forall_forall in Hs2, Hv1.
  apply in_app_or in Hg. destruct Hg as [Hg|[->|Hg]].
  - apply Hv1. exact Hg.
  - lia.
  - specialize (Hs2 g Hg). lia.
Qed.

Lemma sin_filas_entre (l1 : list fila) (fi fs : fila) (l2 : list fila)
    (g : fila) :
  sumas_ascendentes (l1 ++ fi :: fs :: l2) = true ->
  In g (l1 ++ fi :: fs :: l2) -> suma g <= suma fi \/ suma fs <= suma g.
Proof.
  intros Ha Hg.
  destruct (sumas_ascendentes_app l1 fi (fs :: l2) Ha) as [H1 _].
  destruct (sumas_ascendentes_app (l1 ++ [fi]) fs l2) as [_ H2].
  { rewrite <- app_assoc. exact Ha. }
  rewrite List.Forall_forall in H1, H2.
  apply in_app_or in Hg. destruct Hg as [Hg|[->|[->|Hg]]].
  - left. specialize (H1 g Hg). lia.
  - left. lia.
  - right. lia.
  - right. specialize (H2 g Hg). lia.
Qed.

Lemma tabla_cotas (t : tabla_escala) (s : Z) :
  tabla_ordenada t -> acotado s ->
  exists r, convertir_en_tabla t s = Ok r /\
    (forall f, In f (datos t) -> suma f <= s -> valor f <= compuesto r) /\
    (forall f, In f (datos t) -> s <= suma f -> compuesto r <= valor f).
Proof.
  intros ((f0 & f1 & resto & Hd & H40) & Ha & Hv & Hb) Hs.
  pose proof Hb as Hb'. rewrite List.Forall_forall in Hb'.
  destruct (ubicacion (datos t) s) as
    [H|[H|[(l1 & f & l2 & E & Hf)|(l1 & fi & fs & l2 & E & Hf)]]];
    [rewrite Hd; discriminate|exact Ha| | | |].
  - (* below the first row *)
    assert (H01 : suma f0 < suma f1 /\ valor f0 <= valor f1).
    { rewrite Hd in Ha, Hv.
      destruct (sumas_ascendentes_app [] f0 (f1 :: resto) Ha) as [_ Hs1].
      destruct (valores_no_decrecientes_app [] f0 (f1 :: resto) Hv) as [_ Hv1].
      inversion Hs1; inversion Hv1; subst. split; assumption. }
    assert (Hf0 : In f0 (datos t)) by (rewrite Hd; left; reflexivity).
    assert (Hf1 : In f1 (datos t)) by (rewrite Hd; right; left; reflexivity).
    destruct (tabla_extrapolada_baja t f0 f1 resto s Hd H ltac:(lia)
                (Hb' _ Hf0) (Hb' _ Hf1) Hs) as (k & Hk & ->).
    rewrite List.Forall_forall in H.
    pose proof (extrapolacion_baja_cota _ _ _ _ _ _ (proj1 H01) (proj2 H01)
                  (Z.lt_le_incl _ _ (H _ Hf0)) (proj2 (Hb' _ Hf0)) Hk) as Hk0.
    eexists. split; [reflexivity|]. cbn [compuesto]. split.
    + intros f Hin Hle. specialize (H f Hin). lia.
    + intros f Hin Hle.
      assert (valor f0 <= valor f).
      { apply (orden_coherente (datos t)); try assumption.
        rewrite Hd in Ha, Hin.
        destruct (sumas_ascendentes_app [] f0 (f1 :: resto) Ha) as [_ Hs1].
        rewrite List.Forall_forall in Hs1.
        destruct Hin as [<-|Hin]; [lia|]. specialize (Hs1 f Hin). lia. }
      lia.
  - (* above the last row *)
    destruct (ultimas_dos f0 f1 resto) as (ini & fa & fm & E).
    rewrite <- Hd in E.
    assert (Hfa : In fa (datos t)).
    { rewrite E. apply in_or_app. right. left. reflexivity. }
    assert (Hfm : In fm (datos t)).
    { rewrite E. apply in_or_app. right. right. left. reflexivity. }
    assert (Ham : suma fa < suma fm).
    { rewrite E in Ha.
      destruct (sumas_ascendentes_app ini fa [fm] Ha) as [_ Hs1].
      inversion Hs1; subst. assumption. }
    destruct (tabla_extrapolada_alta t ini fa fm s E H ltac:(lia)
                (Hb' _ Hfa) (Hb' _ Hfm) Hs) as (k & Hk & ->).
    rewrite List.Forall_forall in H.
    eexists. split; [reflexivity|]. cbn [compuesto]. split.
    + intros f Hin Hle.
      assert (valor f <= valor fm).
      { apply (orden_coherente (datos t)); try assumption.
        rewrite E in Ha, Hin.
        change [fa; fm] with ([fa] ++ [fm]) in Ha, Hin.
        rewrite app_assoc in Ha, Hin.
        destruct (sumas_ascendentes_app _ fm [] Ha) as [Hs1 _].
        rewrite List.Forall_forall in Hs1.
        apply in_app_or in Hin. destruct Hin as [Hin|[<-|[]]]; [|lia].
        specialize (Hs1 f Hin). lia. }
      lia.
    + intros f Hin Hle. specialize (H f Hin). lia.
  - (* a tabulated sum *)
    assert (Hin : In f (datos t)).
    { rewrite E. apply in_or_app. right. left. reflexivity. }
    subst s. rewrite (tabla_fila_exacta t l1 f l2 E Ha).
    eexists. split; [reflexivity|]. cbn [de_fila compuesto]. split.
    + intros g Hg Hle. apply (orden_coherente (datos t)); assumption.
    + intros g Hg Hle. apply (orden_coherente (datos t)); assumption.
  - (* strictly between two rows *)
    assert (Hfi : In fi (datos t)).
    { rewrite E. apply in_or_app. right. left. reflexivity. }
    assert (Hfs : In fs (datos t)).
    { rewrite E. apply in_or_app. right. right. left. reflexivity. }
    destruct (tabla_interpolada t l1 fi fs l2 s E Ha Hf
                (Hb' _ Hfi) (Hb' _ Hfs) Hs) as (k & Hk & ->).
    assert (Hvv : valor fi <= valor fs).
    { apply (orden_coherente (datos t)); try assumption. lia. }
    pose proof (interpolacion_cotas (suma fi) (valor fi) (suma fs) (valor fs)
                  s k ltac:(lia) ltac:(lia) Hvv
                  (proj2 (Hb' _ Hfi)) (proj2 (Hb' _ Hfs)) Hk) as Hkk.
    eexists. split; [reflexivity|]. cbn [compuesto]. split.
    + intros g Hg Hle.
      assert (valor g <= valor fi); [|lia].
      apply (orden_coherente (datos t)); try assumption.
      rewrite E in Ha, Hg.
      destruct (sin_filas_entre l1 fi fs l2 g Ha Hg); lia.
    + intros g Hg Hle.
      assert (valor fs <= valor g); [|lia].
      apply (orden_coherente (datos t)); try assumption.
      rewrite E in Ha, Hg.
      destruct (sin_filas_entre l1 fi fs l2 g Ha Hg); lia.
Qed.

Lemma tabla_monotona (t : tabla_escala) (s1 s2 : Z) :
  tabla_ordenada t -> acotado s1 -> acotado s2 -> s1 <= s2 ->
  exists r1 r2,
    convertir_en_tabla t s1 = Ok r1 /\ convertir_en_tabla t s2 = Ok r2 /\
    compuesto r1 <= compuesto r2.
Proof.
  intros Ht Hs1 Hs2 Hle.
  destruct (tabla_cotas t s1 Ht Hs1) as (r1 & E1 & L1 & U1).
  destruct (tabla_cotas t s2 Ht Hs2) as (r2 & E2 & L2 & U2).
  exists r1, r2. split; [exact E1|]. split; [exact E2|].
  destruct (Z.eq_dec s1 s2) as [->|Hne].
  { rewrite E1 in E2. injection E2 as ->. lia. }
  destruct Ht as ((f0 & f1 & resto & Hd & H40) & Ha & Hv & Hb).
  pose proof Hb as Hb'. rewrite List.Forall_forall in Hb'.
  destruct (ubicacion (datos t) s1) as
    [H|[H|[(l1 & f & l2 & E & Hf)|(l1 & fi & fs & l2 & E & Hf)]]];
    [rewrite Hd; discriminate|exact Ha| | | |].
  - assert (Hf0 : In f0 (datos t)) by (rewrite Hd; left; reflexivity).
    assert (Hf1 : In f1 (datos t)) by (rewrite Hd; right; left; reflexivity).
    destruct (Z_lt_le_dec s2 (suma f0)) as [Hlt|Hge].
    + assert (H01 : suma f0 < suma f1 /\ valor f0 <= valor f1 /\
                    Forall (fun f => s2 < suma f) (datos t)).
      { rewrite Hd in Ha, Hv. rewrite Hd.
        destruct (sumas_ascendentes_app [] f0 (f1 :: resto) Ha) as [_ Hs1'].
        destruct (valores_no_decrecientes_app [] f0 (f1 :: resto) Hv) as [_ Hv1].
        split; [inversion Hs1'; subst; assumption|].
        split; [inversion Hv1; subst; assumption|].
        constructor; [exact Hlt|].
        apply (List.Forall_impl _ (fun g (Hg : suma f0 < suma g) => Z.lt_trans _ _ _ Hlt Hg) Hs1'). }
      destruct H01 as (Hss & Hvv & H2).
      destruct (tabla_extrapolada_baja t f0 f1 resto s1 Hd H ltac:(lia)
                  (Hb' _ Hf0) (Hb' _ Hf1) Hs1) as (k1 & Hk1 & E1').
      destruct (tabla_extrapolada_baja t f0 f1 resto s2 Hd H2 ltac:(lia)
                  (Hb' _ Hf0) (Hb' _ Hf1) Hs2) as (k2 & Hk2 & E2').
      rewrite E1 in E1'. rewrite E2 in E2'.
      injection E1' as ->. injection E2' as ->. cbn [compuesto].
      pose proof (extrapolacion_baja_mono _ _ _ _ _ _ _ _ Hss Hvv Hle Hk1 Hk2).
      lia.
    + rewrite List.Forall_forall in H.
      pose proof (U1 f0 Hf0 (Z.lt_le_incl _ _ (H f0 Hf0))).
      pose proof (L2 f0 Hf0 Hge). lia.
  - destruct (ultimas_dos f0 f1 resto) as (ini & fa & fm & E).
    rewrite <- Hd in E.
    assert (Hfa : In fa (datos t)).
    { rewrite E. apply in_or_app. right. left. reflexivity. }
    assert (Hfm : In fm (datos t)).
    { rewrite E. apply in_or_app. right. right. left. reflexivity. }
    assert (Ham : suma fa < suma fm).
    { rewrite E in Ha.
      destruct (sumas_ascendentes_app ini fa [fm] Ha) as [_ Hs1'].
      inversion Hs1'; subst. assumption. }
    assert (Hvv : valor fa <= valor fm).
    { apply (orden_coherente (datos t)); try assumption. lia. }
    assert (H2 : Forall (fun f => suma f < s2) (datos t)).
    { apply (List.Forall_impl _ (fun g (Hg : suma g < s1) => Z.lt_le_trans _ _ _ Hg Hle) H). }
    destruct (tabla_extrapolada_alta t ini fa fm s1 E H ltac:(lia)
                (Hb' _ Hfa) (Hb' _ Hfm) Hs1) as (k1 & Hk1 & E1').
    destruct (tabla_extrapolada_alta t ini fa fm s2 E H2 ltac:(lia)
                (Hb' _ Hfa) (Hb' _ Hfm) Hs2) as (k2 & Hk2 & E2').
    rewrite E1 in E1'. rewrite E2 in E2'.
    injection E1' as ->. injection E2' as ->. cbn [compuesto].
    pose proof (extrapolacion_alta_mono _ _ _ _ _ _ _ _ Ham Hvv Hle Hk1 Hk2).
    lia.
  - assert (Hin : In f (datos t)).
    { rewrite E. apply in_or_app. right. left. reflexivity. }
    pose proof (U1 f Hin ltac:(lia)). pose proof (L2 f Hin ltac:(lia)). lia.
  - assert (Hfi : In fi (datos t)).
    { rewrite E. apply in_or_app. right. left. reflexivity. }
    assert (Hfs : In fs (datos t)).
    { rewrite E. apply in_or_app. right. right. left. reflexivity. }
    destruct (Z_lt_le_dec s2 (suma fs)) as [Hlt|Hge].
    + assert (Hvv : valor fi <= valor fs).
      { apply (orden_coherente (datos t)); try assumption. lia. }
      destruct (tabla_interpolada t l1 fi fs l2 s1 E Ha Hf
                  (Hb' _ Hfi) (Hb' _ Hfs) Hs1) as (k1 & Hk1 & E1').
      destruct (tabla_interpolada t l1 fi fs l2 s2 E Ha ltac:(lia)
                  (Hb' _ Hfi) (Hb' _ Hfs) Hs2) as (k2 & Hk2 & E2').
      rewrite E1 in E1'. rewrite E2 in E2'.
      injection E1' as ->. injection E2' as ->. cbn [compuesto].
      apply (interpolacion_mono (suma fi) (valor fi) (suma fs) (valor fs)
               s1 s2 k1 k2); [lia|exact Hvv|exact Hle|exact Hk1|exact Hk2].
    + pose proof (U1 fs Hfs ltac:(lia)). pose proof (L2 fs Hfs Hge). lia.
Qed.

(** ** The branches of [convertir_cit] *)

Lemma sumas_cit_ascendentes_app (l1 : list CIT.fila) (f : CIT.fila)
    (l2 : list CIT.fila) :
  sumas_cit_ascendentes (l1 ++ f :: l2) = true ->
  Forall (fun g => CIT.suma g < CIT.suma f) l1 /\
  Forall (fun g => CIT.suma f < CIT.suma g) l2.
Proof.
  intros H. apply (encadenada_app _ (ltb_trans CIT.fila CIT.suma)) in H.
  destruct H as [H1 H2]. split.
  - apply (List.Forall_impl _ (fun g Hg => proj1 (Z.ltb_lt _ _) Hg) H1).
  - apply (List.Forall_impl _ (fun g Hg => proj1 (Z.ltb_lt _ _) Hg) H2).
Qed.

Lemma cit_interpolar_entre_spec (fi fs : CIT.fila) (s : Z) :
  fila_cit_acotada fi -> fila_cit_acotada fs -> acotado s ->
  CIT.suma fs <> CIT.suma fi ->
  exists k,
    interpolacion_redondeada (CIT.suma fi) (CIT.cit fi)
                             (CIT.suma fs) (CIT.cit fs) s k /\
    CIT.interpolar_entre fi fs s =
      Ok {| CIT.compuesto := k; CIT.r_percentil := CIT.percentil fi;
            CIT.r_conf_90 := CIT.conf_90 fi;
            CIT.r_conf_95 := CIT.conf_95 fi |}.
Proof.
  intros [Hsi Hvi] [Hss Hvs] Hs Hne. unfold CIT.interpolar_entre.
  destruct (division_real_ok (s - CIT.suma fi) (CIT.suma fs - CIT.suma fi) 53)
    as (ratio & -> & Hrok & Hr & Hrc);
    [lia|lia|pose proof (acotado_resta _ _ Hs Hsi); lia|].
  cbn [ligar].
  destruct (por_entero_ok ratio (CIT.cit fs - CIT.cit fi) 53 Hrok Hrc)
    as (p & -> & Hpok & Hp & Hpc);
    [apply acotado_resta; assumption|lia|].
  cbn [ligar].
  destruct (entero_mas_ok (CIT.cit fi) p (53 + 53) Hpok Hpc)
    as (w & -> & Hwok & Hw & Hwc);
    [apply acotado_53; assumption|lia|].
  cbn [ligar].
  destruct (py_round_spec w (proj1 Hwok)) as (k & -> & Hk).
  cbn [ligar].
  exists k. split; [|reflexivity].
  exists (valor_real ratio), (valor_real p), (valor_real w).
  split; [exact Hr|split; [exact Hp|split; [exact Hw|exact Hk]]].
Qed.

Lemma cit_interpolar_app (l1 : list CIT.fila) (fi fs : CIT.fila)
    (l2 : list CIT.fila) (s : Z) :
  Forall (fun g => CIT.suma g < s) l1 -> CIT.suma fi < s ->
  s <= CIT.suma fs ->
  CIT.interpolar (l1 ++ fi :: fs :: l2) s =
    Some (CIT.interpolar_entre fi fs s).
Proof.
  intros H Hi Hs. induction H as [|a l1 Ha Hl IH].
  - cbn [app CIT.interpolar].
    rewrite (proj2 (Z.leb_le _ _) (Z.lt_le_incl _ _ Hi)).
    rewrite (proj2 (Z.leb_le _ _) Hs). reflexivity.
  - assert (Hb : exists b r, l1 ++ fi :: fs :: l2 = b :: r /\ CIT.suma b < s).
    { destruct Hl as [|b l1 Hb _]; [exists fi|exists b]; eexists;
        (split; [reflexivity|assumption]). }
    destruct Hb as (b & r & E & Hb).
    change ((a :: l1) ++ fi :: fs :: l2) with (a :: (l1 ++ fi :: fs :: l2)).
    rewrite E in *. cbn [CIT.interpolar].
    rewrite (proj2 (Z.leb_gt _ _) Hb), andb_false_r. exact IH.
Qed.

Lemma cit_bajo_el_minimo (f0 : CIT.fila) (resto : list CIT.fila) (s : Z) :
  Forall (fun f => s < CIT.suma f) (f0 :: resto) ->
  CIT.convertir_en_datos (f0 :: resto) s = Ok (CIT.de_fila f0).
Proof.
  intros Hs. unfold CIT.convertir_en_datos.
  rewrite find_clave_ninguna.
  2:{ apply (List.Forall_impl _ (fun g (Hg : s < CIT.suma g) => not_eq_sym (Z.lt_neq _ _ Hg)) Hs). }
  destruct (py_min_spec CIT.suma (f0 :: resto)) as (m & -> & _ & f & Hf & <-);
    [discriminate|].
  cbn [ligar]. rewrite List.Forall_forall in Hs.
  rewrite (proj2 (Z.ltb_lt _ _) (Hs f Hf)). reflexivity.
Qed.

Lemma cit_sobre_el_maximo (inicio : list CIT.fila) (fm : CIT.fila) (s : Z) :
  Forall (fun f => CIT.suma f < s) (inicio ++ [fm]) ->
  CIT.convertir_en_datos (inicio ++ [fm]) s = Ok (CIT.de_fila fm).
Proof.
  intros Hs. unfold CIT.convertir_en_datos.
  assert (Hnv : inicio ++ [fm] <> []) by (destruct inicio; discriminate).
  destruct (inicio ++ [fm]) as [|a l] eqn:E; [congruence|]. rewrite <- E in *.
  rewrite find_clave_ninguna.
  2:{ apply (List.Forall_impl _ (fun g (Hg : CIT.suma g < s) => Z.lt_neq _ _ Hg) Hs). }
  destruct (py_min_spec CIT.suma (inicio ++ [fm]) Hnv) as (m & -> & _ & f & Hf & <-).
  destruct (py_max_spec CIT.suma (inicio ++ [fm]) Hnv) as (M & -> & _ & g & Hg & <-).
  cbn [ligar]. rewrite List.Forall_forall in Hs.
  pose proof (Hs f Hf). pose proof (Hs g Hg).
  rewrite (proj2 (Z.ltb_ge _ _)) by lia.
  replace (s >? CIT.suma g) with true
    by (symmetry; rewrite Z.gtb_ltb; apply Z.ltb_lt; lia).
  rewrite indice_final_1. reflexivity.
Qed.

Lemma cit_fila_exacta (l1 : list CIT.fila) (f : CIT.fila)
    (l2 : list CIT.fila) :
  sumas_cit_ascendentes (l1 ++ f :: l2) = true ->
  CIT.convertir_en_datos (l1 ++ f :: l2) (CIT.suma f) = Ok (CIT.de_fila f).
Proof.
  intros Ha. unfold CIT.convertir_en_datos.
  destruct (sumas_cit_ascendentes_app _ _ _ Ha) as [H1 _].
  destruct (l1 ++ f :: l2) as [|a l] eqn:E; [destruct l1; discriminate|].
  rewrite <- E.
  rewrite (find_clave_primera CIT.suma l1 f l2 (CIT.suma f));
    [reflexivity| |reflexivity].
  apply (List.Forall_impl _ (fun g (Hg : CIT.suma g < CIT.suma f) => Z.lt_neq _ _ Hg) H1).
Qed.

Lemma cit_interpolada (l1 : list CIT.fila) (fi fs : CIT.fila)
    (l2 : list CIT.fila) (s : Z) :
  sumas_cit_ascendentes (l1 ++ fi :: fs :: l2) = true ->
  CIT.suma fi < s < CIT.suma fs ->
  fila_cit_acotada fi -> fila_cit_acotada fs -> acotado s ->
  exists k,
    interpolacion_redondeada (CIT.suma fi) (CIT.cit fi)
                             (CIT.suma fs) (CIT.cit fs) s k /\
    CIT.convertir_en_datos (l1 ++ fi :: fs :: l2) s =
      Ok {| CIT.compuesto := k; CIT.r_percentil := CIT.percentil fi;
            CIT.r_conf_90 := CIT.conf_90 fi;
            CIT.r_conf_95 := CIT.conf_95 fi |}.
Proof.
  intros Ha [Hi Hs] Hfi Hfs Hsa.
  destruct (cit_interpolar_entre_spec fi fs s Hfi Hfs Hsa ltac:(lia))
    as (k & Hk & E).
  exists k. split; [exact Hk|].
  unfold CIT.convertir_en_datos.
  destruct (sumas_cit_ascendentes_app l1 fi (fs :: l2) Ha) as [H1 H2].
  assert (H1s : Forall (fun g => CIT.suma g < s) l1).
  { apply (List.Forall_impl _ (fun g (Hg : CIT.suma g < CIT.suma fi) => Z.lt_trans _ _ _ Hg Hi) H1). }
  assert (H2s : Forall (fun g => s < CIT.suma g) (fs :: l2)).
  { apply (List.Forall_impl (P := fun g => CIT.suma fs <= CIT.suma g)).
    - intros g Hg. lia.
    - inversion H2 as [|? ? Hfs' H2']; subst. constructor; [lia|].
      destruct (sumas_cit_ascendentes_app (l1 ++ [fi]) fs l2) as [_ H3].
      { rewrite <- app_assoc. exact Ha. }
      apply (List.Forall_impl _ (fun g (Hg : CIT.suma fs < CIT.suma g) => Z.lt_le_incl _ _ Hg) H3). }
  assert (Hnv : l1 ++ fi :: fs :: l2 <> []) by (destruct l1; discriminate).
  destruct (l1 ++ fi :: fs :: l2) as [|a l] eqn:El; [congruence|].
  rewrite <- El in *.
  rewrite find_clave_ninguna.
  2:{ apply Forall_app. split.
      - apply (List.Forall_impl _ (fun g (Hg : CIT.suma g < s) => Z.lt_neq _ _ Hg) H1s).
      - constructor; [lia|].
        apply (List.Forall_impl _ (fun g (Hg : s < CIT.suma g) => not_eq_sym (Z.lt_neq _ _ Hg)) H2s). }
  destruct (py_min_spec CIT.suma (l1 ++ fi :: fs :: l2) Hnv) as (m & -> & Hm & _).
  destruct (py_max_spec CIT.suma (l1 ++ fi :: fs :: l2) Hnv) as (M & -> & HM & _).
  cbn [ligar].
  rewrite List.Forall_forall in Hm, HM.
  assert (Hmi : m <= CIT.suma fi).
  { apply Hm. apply in_or_app. right. left. reflexivity. }
  assert (HMs : CIT.suma fs <= M).
  { apply HM. apply in_or_app. right. right. left. reflexivity. }
  rewrite (proj2 (Z.ltb_ge _ _)) by lia.
  replace (s >? M) with false by (symmetry; rewrite Z.gtb_ltb; apply Z.ltb_ge; lia).
  rewrite (cit_interpolar_app l1 fi fs l2 s H1s Hi (Z.lt_le_incl _ _ Hs)).
  exact E.
Qed.

(** ** The seven subtests of the total scale *)

Lemma omap_todos {A B : Type} (f : A -> option B) (l : list A) (vs : list B) :
  Forall2 (fun x v => f x = Some v) l vs -> omap f l = vs.
Proof.
  induction 1 as [|x v l vs Hx _ IH]; [reflexivity|].
  cbn. rewrite Hx, IH. reflexivity.
Qed.

Lemma omap_longitud {A B : Type} (f : A -> option B) (l : list A) :
  (length (omap f l) <= length l)%nat.
Proof.
  induction l as [|x l IH]; [reflexivity|].
  cbn. destruct (f x); cbn; lia.
Qed.

Lemma omap_falta {A B : Type} (f : A -> option B) (l : list A) (x : A) :
  In x l -> f x = None -> (length (omap f l) < length l)%nat.
Proof.
  induction l as [|a l IH]; intros Hin Hx; [destruct Hin|].
  pose proof (omap_longitud f l) as Hl.
  destruct Hin as [->|Hin].
  - cbn. rewrite Hx. lia.
  - specialize (IH Hin Hx). cbn. destruct (f a); cbn; lia.
Qed.

Lemma omap_completo {A B : Type} (f : A -> option B) (l : list A) :
  length (omap f l) = length l ->
  Forall2 (fun x v => f x = Some v) l (omap f l).
Proof.
  induction l as [|a l IH]; intros H; [constructor|].
  pose proof (omap_longitud f l) as Hl.
  cbn in *. destruct (f a) as [v|] eqn:E; cbn in *.
  - constructor; [exact E|]. apply IH. lia.
  - lia.
Qed.

Lemma cit_con_las_siete (tabla_cit : CIT.json_cit) (p : gmap string Z)
    (vs : list Z) :
  Forall2 (fun sub v => p !! sub = Some v) CIT.subpruebas_principales vs ->
  CIT.calcular_escala_total_cit tabla_cit p =
    Some (CIT.convertir_cit tabla_cit (fold_left Z.add vs 0)).
Proof.
  intros H. unfold CIT.calcular_escala_total_cit.
  rewrite (omap_todos _ _ _ H).
  rewrite <- (Forall2_length _ _ _ H). reflexivity.
Qed.

Lemma cit_sin_alguna (tabla_cit : CIT.json_cit) (p : gmap string Z)
    (sub : string) :
  In sub CIT.subpruebas_principales -> p !! sub = None ->
  CIT.calcular_escala_total_cit tabla_cit p = None.
Proof.
  intros Hin Hsub. unfold CIT.calcular_escala_total_cit.
  pose proof (omap_falta (fun s => p !! s) _ _ Hin Hsub) as H.
  change (length CIT.subpruebas_principales) with 7%nat in H.
  rewrite (proj2 (Nat.eqb_neq _ _)) by lia. reflexivity.
Qed.

Lemma cit_calculado (tabla_cit : CIT.json_cit) (p : gmap string Z)
    (r : resultado CIT.conversion) :
  CIT.calcular_escala_total_cit tabla_cit p = Some r ->
  exists vs,
    Forall2 (fun sub v => p !! sub = Some v) CIT.subpruebas_principales vs /\
    r = CIT.convertir_cit tabla_cit (fold_left Z.add vs 0).
Proof.
  unfold CIT.calcular_escala_total_cit.
  destruct (Nat.eqb_spec
              (length (omap (fun s => p !! s) CIT.subpruebas_principales)) 7)
    as [E|E]; [|discriminate].
  intros H. injection H as <-.
  exists (omap (fun s => p !! s) CIT.subpruebas_principales).
  split; [|reflexivity].
  exact (omap_completo (fun s => p !! s) CIT.subpruebas_principales E).
Qed.

(** ** The composite conversion *)

Lemma convertir_compuesto_en_tabla (tablas : gmap string tabla_escala)
    (escala : string) (t : tabla_escala) (s : Z) :
  tablas !! escala = Some t ->
  convertir_compuesto tablas escala s = convertir_en_tabla t s.
Proof.
  intros H. unfold convertir_compuesto.
  destruct (decide (tablas = ∅)) as [->|_].
  - rewrite lookup_empty in H. discriminate H.
  - rewrite H. reflexivity.
Qed.

(** C1 (amended). In a table whose last two rows [fa], [fm] have different
    sums, for a sum [s] above every tabulated sum, [convertir_compuesto]
    returns the rounded value of [vm + (vm - va) / (sm - sa) * 0.7 * (s - sm)],
    capped at 160 and then floored at the last row's value; both
    confidence intervals are the last row's; the percentile is the last
    row's, except that it is the text [">99.9"] whenever the text of the
    last row's percentile contains ["99.9"]. The composite is at least the
    last row's value, and at most 160 when that value is. *)
Theorem extrapolacion_sobre_el_maximo (tablas : gmap string tabla_escala)
    (escala : string) (t : tabla_escala) (inicio : list fila) (fa fm : fila)
    (s : Z) :
  tablas !! escala = Some t ->
  datos t = inicio ++ [fa; fm] ->
  Forall (fun f => suma f < s) (datos t) ->
  suma fm <> suma fa ->
  fila_acotada fa -> fila_acotada fm -> acotado s ->
  exists k r,
    extrapolacion_alta (suma fa) (valor fa) (suma fm) (valor fm) s k /\
    convertir_compuesto tablas escala s = Ok r /\
    compuesto r = Z.max (valor fm) (Z.min 160 k) /\
    r_percentil r =
      (if contiene "99.9" (py_str (percentil fm))
       then JTexto ">99.9" else percentil fm) /\
    r_conf_90 r = conf_90 fm /\ r_conf_95 r = conf_95 fm /\
    nombre_escala r = nombre t /\
    valor fm <= compuesto r /\
    (valor fm <= 160 -> compuesto r <= 160).
Proof.
  intros Ht Hd Hs Hne Hfa Hfm Hsa.
  destruct (tabla_extrapolada_alta t inicio fa fm s Hd Hs Hne Hfa Hfm Hsa)
    as (k & Hk & E).
  rewrite <- (convertir_compuesto_en_tabla tablas escala t s Ht) in E.
  exists k. eexists. split; [exact Hk|]. split; [exact E|].
  cbn [compuesto r_percentil r_conf_90 r_conf_95 nombre_escala].
  repeat (split; [reflexivity|]). split; lia.
Qed.

Lemma extrapolacion_sobre_el_maximo_testigo :
  exists k r,
    extrapolacion_alta 12 110 14 120 15 k /\
    convertir_compuesto Ejemplos.tablas_icv "ICV" 15 = Ok r /\
    compuesto r = Z.max 120 (Z.min 160 k) /\
    r_percentil r = JTexto ">99.9" /\
    r_conf_90 r = "112-126" /\ r_conf_95 r = "111-127" /\
    nombre_escala r = "Comprension Verbal" /\
    120 <= compuesto r /\
    (120 <= 160 -> compuesto r <= 160).
Proof.
  apply (extrapolacion_sobre_el_maximo Ejemplos.tablas_icv "ICV"
           Ejemplos.tabla_icv [Ejemplos.fila_10] Ejemplos.fila_12
           Ejemplos.fila_14 15).
  - reflexivity.
  - reflexivity.
  - repeat constructor.
  - vm_compute. discriminate.
  - split; reflexivity.
  - split; reflexivity.
  - reflexivity.
Defined.

(** C1, as stated, fails: the last row of [tabla_icv] has the percentile
    ["99.9"], which is not the marker [">99.9"], and above the largest sum
    the percentile returned is not the one of that row. *)
Lemma percentil_no_conservado :
  percentil Ejemplos.fila_14 = JTexto "99.9" /\
  Forall (fun f => suma f < 15) (datos Ejemplos.tabla_icv) /\
  exists r, convertir_compuesto Ejemplos.tablas_icv "ICV" 15 = Ok r /\
            r_percentil r = JTexto ">99.9" /\
            r_percentil r <> percentil Ejemplos.fila_14.
Proof.
  split; [reflexivity|]. split; [repeat constructor|].
  eexists. split; [vm_compute; reflexivity|].
  split; [reflexivity|]. cbn. discriminate.
Qed.

(** C2 (amended). In a table whose sums are strictly ascending, a sum
    within the tabulated range either is the sum of a row, and
    [convertir_compuesto] returns that row's literal composite, percentile
    and confidence intervals, or lies strictly between two consecutive
    rows [fi], [fs], and (for integers below [2^52] in magnitude) the
    composite is the rounded value of
    [vi + (s - si) / (ss - si) * (vs - vi)] (between [vi] and [vs] when
    [vi <= vs]) with the percentile and both confidence intervals of the
    lower row [fi]. *)
Theorem fila_exacta_o_interpolacion (tablas : gmap string tabla_escala)
    (escala : string) (t : tabla_escala) :
  tablas !! escala = Some t ->
  sumas_ascendentes (datos t) = true ->
  (forall f, In f (datos t) ->
     convertir_compuesto tablas escala (suma f) =
       Ok {| compuesto := valor f; r_percentil := percentil f;
             r_conf_90 := conf_90 f; r_conf_95 := conf_95 f;
             nombre_escala := nombre t |}) /\
  (forall l1 fi fs l2 s,
     datos t = l1 ++ fi :: fs :: l2 -> suma fi < s < suma fs ->
     fila_acotada fi -> fila_acotada fs -> acotado s ->
     exists k,
       interpolacion_redondeada
         (suma fi) (valor fi) (suma fs) (valor fs) s k /\
       (valor fi <= valor fs -> valor fi <= k <= valor fs) /\
       convertir_compuesto tablas escala s =
         Ok {| compuesto := k; r_percentil := percentil fi;
               r_conf_90 := conf_90 fi; r_conf_95 := conf_95 fi;
               nombre_escala := nombre t |}) /\
  (forall minimo maximo s,
     py_min (map suma (datos t)) = Ok minimo ->
     py_max (map suma (datos t)) = Ok maximo ->
     minimo <= s <= maximo ->
     (exists f, In f (datos t) /\ suma f = s) \/
     (exists l1 fi fs l2,
        datos t = l1 ++ fi :: fs :: l2 /\ suma fi < s < suma fs)).
Proof.
  intros Ht Ha. split; [|split].
  - intros f Hf. destruct (in_split _ _ Hf) as (l1 & l2 & E).
    rewrite (convertir_compuesto_en_tabla tablas escala t _ Ht).
    exact (tabla_fila_exacta t l1 f l2 E Ha).
  - intros l1 fi fs l2 s E Hs Hfi Hfs Hsa.
    destruct (tabla_interpolada t l1 fi fs l2 s E Ha Hs Hfi Hfs Hsa)
      as (k & Hk & Ek).
    exists k. split; [exact Hk|]. split.
    + intros Hv.
      apply (interpolacion_cotas (suma fi) (valor fi) (suma fs) (valor fs) s k);
        [lia|lia|exact Hv|exact (proj2 Hfi)|exact (proj2 Hfs)|exact Hk].
    + rewrite (convertir_compuesto_en_tabla tablas escala t s Ht). exact Ek.
  - intros minimo maximo s Hmin Hmax Hs.
    assert (Hnv : datos t <> []).
    { intros E. rewrite E in Hmin. discriminate Hmin. }
    destruct (py_min_spec suma (datos t) Hnv) as (m & Em & _ & f & Hf & Hfm).
    destruct (py_max_spec suma (datos t) Hnv) as (M & EM & _ & g & Hg & HgM).
    rewrite Hmin in Em. injection Em as <-.
    rewrite Hmax in EM. injection EM as <-.
    destruct (ubicacion (datos t) s Hnv Ha) as
      [H|[H|[(l1 & h & l2 & E & Hh)|H]]].
    + rewrite List.Forall_forall in H. specialize (H f Hf). lia.
    + rewrite List.Forall_forall in H. specialize (H g Hg). lia.
    + left. exists h. split; [|exact Hh].
      rewrite E. apply in_or_app. right. left. reflexivity.
    + right. exact H.
Qed.

Lemma fila_exacta_o_interpolacion_testigo :
  convertir_compuesto Ejemplos.tablas_icv "ICV" 12 =
    Ok {| compuesto := 110; r_percentil := JEntero 75;
          r_conf_90 := "103-116"; r_conf_95 := "102-117";
          nombre_escala := "Comprension Verbal" |} /\
  exists k,
    interpolacion_redondeada 10 100 12 110 11 k /\
    (100 <= 110 -> 100 <= k <= 110) /\
    convertir_compuesto Ejemplos.tablas_icv "ICV" 11 =
      Ok {| compuesto := k; r_percentil := JEntero 50;
            r_conf_90 := "94-106"; r_conf_95 := "93-107";
            nombre_escala := "Comprension Verbal" |}.
Proof.
  destruct (fila_exacta_o_interpolacion Ejemplos.tablas_icv "ICV"
              Ejemplos.tabla_icv) as (Hexacta & Hentre & _).
  - reflexivity.
  - reflexivity.
  - split.
    + apply (Hexacta Ejemplos.fila_12). right. left. reflexivity.
    + apply (Hentre [] Ejemplos.fila_10 Ejemplos.fila_12 [Ejemplos.fila_14] 11).
      * reflexivity.
      * split; reflexivity.
      * split; reflexivity.
      * split; reflexivity.
      * reflexivity.
Defined.

(** C3 (amended). In a table whose first two rows [f0], [f1] have
    different sums (integers below [2^52] in magnitude), for a sum [s]
    below every tabulated sum, [convertir_compuesto] returns the rounded
    value of [v0 + (v1 - v0) / (s1 - s0) * (s - s0)] clamped to the
    interval from 40 to 160, with the percentile and both confidence
    intervals of the first row. *)
Theorem extrapolacion_bajo_el_minimo (tablas : gmap string tabla_escala)
    (escala : string) (t : tabla_escala) (f0 f1 : fila) (resto : list fila)
    (s : Z) :
  tablas !! escala = Some t ->
  datos t = f0 :: f1 :: resto ->
  Forall (fun f => s < suma f) (datos t) ->
  suma f1 <> suma f0 ->
  fila_acotada f0 -> fila_acotada f1 -> acotado s ->
  exists k r,
    extrapolacion_baja (suma f0) (valor f0) (suma f1) (valor f1) s k /\
    convertir_compuesto tablas escala s = Ok r /\
    compuesto r = Z.max 40 (Z.min 160 k) /\
    40 <= compuesto r <= 160 /\
    r_percentil r = percentil f0 /\
    r_conf_90 r = conf_90 f0 /\ r_conf_95 r = conf_95 f0 /\
    nombre_escala r = nombre t.
Proof.
  intros Ht Hd Hs Hne Hf0 Hf1 Hsa.
  destruct (tabla_extrapolada_baja t f0 f1 resto s Hd Hs Hne Hf0 Hf1 Hsa)
    as (k & Hk & E).
  rewrite <- (convertir_compuesto_en_tabla tablas escala t s Ht) in E.
  exists k. eexists. split; [exact Hk|]. split; [exact E|].
  cbn [compuesto r_percentil r_conf_90 r_conf_95 nombre_escala].
  split; [reflexivity|]. split; [lia|].
  repeat (split; [reflexivity|]). reflexivity.
Qed.

Lemma extrapolacion_bajo_el_minimo_testigo :
  exists k r,
    extrapolacion_baja 10 100 12 110 9 k /\
    convertir_compuesto Ejemplos.tablas_icv "ICV" 9 = Ok r /\
    compuesto r = Z.max 40 (Z.min 160 k) /\
    40 <= compuesto r <= 160 /\
    r_percentil r = JEntero 50 /\
    r_conf_90 r = "94-106" /\ r_conf_95 r = "93-107" /\
    nombre_escala r = "Comprension Verbal".
Proof.
  apply (extrapolacion_bajo_el_minimo Ejemplos.tablas_icv "ICV"
           Ejemplos.tabla_icv Ejemplos.fila_10 Ejemplos.fila_12
           [Ejemplos.fila_14] 9).
  - reflexivity.
  - reflexivity.
  - repeat constructor.
  - vm_compute. discriminate.
  - split; reflexivity.
  - split; reflexivity.
  - reflexivity.
Defined.

(** C3, as stated, fails: [tabla_repetida] has three rows, the sum 9 lies
    below every tabulated sum, and the first two rows share their sum, so
    the slope divides by zero and no composite is returned. *)
Lemma extrapolacion_baja_sin_pendiente :
  (2 <= length (datos Muestras.tabla_repetida))%nat /\
  Forall (fun f => 9 < suma f) (datos Muestras.tabla_repetida) /\
  convertir_compuesto {[ "IMT" := Muestras.tabla_repetida ]} "IMT" 9 =
    Error ZeroDivisionError.
Proof.
  split; [cbn; lia|]. split; [repeat constructor|].
  vm_compute. reflexivity.
Qed.

(** C4 (amended). In a table of at least two rows whose sums are strictly
    ascending and whose composite values are non-decreasing and start at
    40 or more, all integers below [2^52] in magnitude, the composite
    returned by [convertir_compuesto] is non-decreasing in the sum: for
    [s1 <= s2] both conversions return, and the composite for [s1] is at
    most the one for [s2], whichever branches the two sums take. *)
Theorem compuesto_monotono (tablas : gmap string tabla_escala)
    (escala : string) (t : tabla_escala) (f0 f1 : fila) (resto : list fila)
    (s1 s2 : Z) :
  tablas !! escala = Some t ->
  datos t = f0 :: f1 :: resto ->
  40 <= valor f0 ->
  sumas_ascendentes (datos t) = true ->
  valores_no_decrecientes (datos t) = true ->
  Forall fila_acotada (datos t) ->
  acotado s1 -> acotado s2 -> s1 <= s2 ->
  exists r1 r2,
    convertir_compuesto tablas escala s1 = Ok r1 /\
    convertir_compuesto tablas escala s2 = Ok r2 /\
    compuesto r1 <= compuesto r2.
Proof.
  intros Ht Hd H40 Ha Hv Hb Hs1 Hs2 Hle.
  rewrite !(convertir_compuesto_en_tabla tablas escala t _ Ht).
  apply tabla_monotona; try assumption.
  split; [|split; [exact Ha|split; [exact Hv|exact Hb]]].
  exists f0, f1, resto. split; assumption.
Qed.

Lemma compuesto_monotono_testigo :
  exists r1 r2,
    convertir_compuesto Ejemplos.tablas_icv "ICV" 9 = Ok r1 /\
    convertir_compuesto Ejemplos.tablas_icv "ICV" 13 = Ok r2 /\
    compuesto r1 <= compuesto r2.
Proof.
  apply (compuesto_monotono Ejemplos.tablas_icv "ICV" Ejemplos.tabla_icv
           Ejemplos.fila_10 Ejemplos.fila_12 [Ejemplos.fila_14] 9 13).
  - reflexivity.
  - reflexivity.
  - vm_compute. discriminate.
  - reflexivity.
  - reflexivity.
  - repeat constructor.
  - reflexivity.
  - reflexivity.
  - lia.
Defined.

(** C4, as stated, fails: [tabla_baja] is sorted strictly ascending by sum
    with non-decreasing values, and the composite for the sum 9 exceeds
    the composite for the sum 10. *)
Lemma compuesto_no_monotono :
  sumas_ascendentes (datos Ejemplos.tabla_baja) = true /\
  valores_no_decrecientes (datos Ejemplos.tabla_baja) = true /\
  exists r1 r2,
    convertir_compuesto Ejemplos.tablas_bajas "ICV" 9 = Ok r1 /\
    convertir_compuesto Ejemplos.tablas_bajas "ICV" 10 = Ok r2 /\
    compuesto r1 = 40 /\ compuesto r2 = 30 /\
    ~ compuesto r1 <= compuesto r2.
Proof.
  split; [reflexivity|]. split; [reflexivity|].
  eexists. eexists.
  split; [vm_compute; reflexivity|]. split; [vm_compute; reflexivity|].
  cbn [compuesto]. split; [reflexivity|]. split; [reflexivity|]. lia.
Qed.

(** ** The total scale *)

Lemma convertir_cit_en_datos (tabla_cit : CIT.json_cit)
    (filas : list CIT.fila) (s : Z) :
  CIT.json_datos tabla_cit = Some filas ->
  CIT.convertir_cit tabla_cit s = CIT.convertir_en_datos filas s.
Proof. intros H. unfold CIT.convertir_cit. rewrite H. reflexivity. Qed.

(** C7 (amended). On a loaded CIT table, [convertir_cit] returns the
    composite, percentile and both intervals of the first row for a sum
    below every tabulated sum and those of the last row for a sum above
    every tabulated sum; with the sums strictly ascending, it returns
    those of the row of a tabulated sum and, strictly between two
    consecutive rows (integers below [2^52] in magnitude), the rounded
    value of [ci + (s - si) / (ss - si) * (cs - ci)] with the percentile
    and both confidence intervals of the lower row.
    [calcular_escala_total_cit] calls the converter, with the sum of the
    seven scores, exactly when each of the seven designated subtests has
    a scaled score. *)
Theorem cit_sin_extrapolacion (tabla_cit : CIT.json_cit)
    (filas : list CIT.fila) :
  CIT.json_datos tabla_cit = Some filas ->
  (forall f0 resto s,
     filas = f0 :: resto -> Forall (fun f => s < CIT.suma f) filas ->
     CIT.convertir_cit tabla_cit s =
       Ok {| CIT.compuesto := CIT.cit f0;
             CIT.r_percentil := CIT.percentil f0;
             CIT.r_conf_90 := CIT.conf_90 f0;
             CIT.r_conf_95 := CIT.conf_95 f0 |}) /\
  (forall inicio fm s,
     filas = inicio ++ [fm] -> Forall (fun f => CIT.suma f < s) filas ->
     CIT.convertir_cit tabla_cit s =
       Ok {| CIT.compuesto := CIT.cit fm;
             CIT.r_percentil := CIT.percentil fm;
             CIT.r_conf_90 := CIT.conf_90 fm;
             CIT.r_conf_95 := CIT.conf_95 fm |}) /\
  (sumas_cit_ascendentes filas = true ->
   forall f, In f filas ->
     CIT.convertir_cit tabla_cit (CIT.suma f) =
       Ok {| CIT.compuesto := CIT.cit f;
             CIT.r_percentil := CIT.percentil f;
             CIT.r_conf_90 := CIT.conf_90 f;
             CIT.r_conf_95 := CIT.conf_95 f |}) /\
  (sumas_cit_ascendentes filas = true ->
   forall l1 fi fs l2 s,
     filas = l1 ++ fi :: fs :: l2 -> CIT.suma fi < s < CIT.suma fs ->
     fila_cit_acotada fi -> fila_cit_acotada fs -> acotado s ->
     exists k,
       interpolacion_redondeada (CIT.suma fi) (CIT.cit fi)
                                (CIT.suma fs) (CIT.cit fs) s k /\
       CIT.convertir_cit tabla_cit s =
         Ok {| CIT.compuesto := k; CIT.r_percentil := CIT.percentil fi;
               CIT.r_conf_90 := CIT.conf_90 fi;
               CIT.r_conf_95 := CIT.conf_95 fi |}) /\
  length CIT.subpruebas_principales = 7%nat /\
  (forall p vs,
     Forall2 (fun sub v => p !! sub = Some v) CIT.subpruebas_principales vs ->
     CIT.calcular_escala_total_cit tabla_cit p =
       Some (CIT.convertir_cit tabla_cit (fold_left Z.add vs 0))) /\
  (forall p sub,
     In sub CIT.subpruebas_principales -> p !! sub = None ->
     CIT.calcular_escala_total_cit tabla_cit p = None) /\
  (forall p r,
     CIT.calcular_escala_total_cit tabla_cit p = Some r ->
     exists vs,
       Forall2 (fun sub v => p !! sub = Some v)
               CIT.subpruebas_principales vs /\
       r = CIT.convertir_cit tabla_cit (fold_left Z.add vs 0)).
Proof.
  intros Hd.
  split; [|split; [|split; [|split; [|split; [|split; [|split]]]]]].
  - intros f0 resto s -> Hs.
    rewrite (convertir_cit_en_datos _ _ s Hd).
    exact (cit_bajo_el_minimo f0 resto s Hs).
  - intros inicio fm s -> Hs.
    rewrite (convertir_cit_en_datos _ _ s Hd).
    exact (cit_sobre_el_maximo inicio fm s Hs).
  - intros Ha f Hf. destruct (in_split _ _ Hf) as (l1 & l2 & ->).
    rewrite (convertir_cit_en_datos _ _ _ Hd).
    exact (cit_fila_exacta l1 f l2 Ha).
  - intros Ha l1 fi fs l2 s -> Hs Hfi Hfs Hsa.
    rewrite (convertir_cit_en_datos _ _ s Hd).
    exact (cit_interpolada l1 fi fs l2 s Ha Hs Hfi Hfs Hsa).
  - reflexivity.
  - intros p vs. apply cit_con_las_siete.
  - intros p sub. apply cit_sin_alguna.
  - intros p r. apply cit_calculado.
Qed.

Lemma cit_sin_extrapolacion_testigo :
  CIT.convertir_cit Ejemplos.tabla_cit 50 =
    Ok {| CIT.compuesto := 90; CIT.r_percentil := JEntero 25;
          CIT.r_conf_90 := "85-96"; CIT.r_conf_95 := "84-97" |} /\
  CIT.convertir_cit Ejemplos.tabla_cit 95 =
    Ok {| CIT.compuesto := 110; CIT.r_percentil := JEntero 75;
          CIT.r_conf_90 := "104-115"; CIT.r_conf_95 := "103-116" |} /\
  CIT.calcular_escala_total_cit Ejemplos.tabla_cit
    {[ "CC" := 10; "AN" := 9; "MR" := 11; "RD" := 10; "CLA" := 8;
       "VOC" := 12; "BAL" := 10 ]} =
    Some (CIT.convertir_cit Ejemplos.tabla_cit 70) /\
  CIT.calcular_escala_total_cit Ejemplos.tabla_cit
    {[ "CC" := 10; "AN" := 9; "MR" := 11 ]} = None.
Proof.
  destruct (cit_sin_extrapolacion Ejemplos.tabla_cit Ejemplos.datos_cit)
    as (Hbajo & Halto & _ & _ & _ & Hsiete & Hfalta & _).
  - reflexivity.
  - split; [|split; [|split]].
    + apply (Hbajo _ _ 50 eq_refl). repeat constructor.
    + apply (Halto [_; _] _ 95 eq_refl). repeat constructor.
    + apply (Hsiete _ [10; 9; 11; 10; 8; 12; 10]).
      repeat constructor.
    + apply (Hfalta _ "RD"); [|reflexivity].
      right. right. right. left. reflexivity.
Defined.

(** * Further properties *)

Import OrdenCIT.

(** ** The range of the composite conversion *)

(** X1. On an ordered table whose values lie between 40 and 160, every
    sum converts, and the composite lies between 40 and 160, whichever
    branch the sum takes. *)
Theorem compuesto_en_escala (tablas : gmap string tabla_escala)
    (escala : string) (t : tabla_escala) (f0 f1 : fila) (resto : list fila)
    (s : Z) :
  tablas !! escala = Some t ->
  datos t = f0 :: f1 :: resto ->
  sumas_ascendentes (datos t) = true ->
  valores_no_decrecientes (datos t) = true ->
  Forall fila_acotada (datos t) ->
  Forall (fun f => 40 <= valor f <= 160) (datos t) ->
  acotado s ->
  exists r, convertir_compuesto tablas escala s = Ok r /\
            40 <= compuesto r <= 160.
Proof.
  intros Ht Hd Ha Hv Hb Hr Hs.
  rewrite (convertir_compuesto_en_tabla tablas escala t s Ht).
  pose proof Hr as Hr'. rewrite List.Forall_forall in Hr'.
  pose proof Hb as Hb'. rewrite List.Forall_forall in Hb'.
  assert (Hf0 : In f0 (datos t)) by (rewrite Hd; left; reflexivity).
  assert (Hf1 : In f1 (datos t)) by (rewrite Hd; right; left; reflexivity).
  assert (Hord : tabla_ordenada t).
  { split; [|split; [exact Ha|split; [exact Hv|exact Hb]]].
    exists f0, f1, resto. split; [exact Hd|]. apply (Hr' f0 Hf0). }
  destruct (tabla_cotas t s Hord Hs) as (r & E & L & U).
  exists r. split; [exact E|].
  destruct (ultimas_dos f0 f1 resto) as (ini & fa & fm & Eu).
  rewrite <- Hd in Eu.
  assert (Hfa : In fa (datos t)).
  { rewrite Eu. apply in_or_app. right. left. reflexivity. }
  assert (Hfm : In fm (datos t)).
  { rewrite Eu. apply in_or_app. right. right. left. reflexivity. }
  split.
  - destruct (Z_lt_le_dec s (suma f0)) as [Hlt|Hge].
    + assert (H : Forall (fun f => s < suma f) (datos t)).
      { rewrite Hd in Ha |- *.
        destruct (sumas_ascendentes_app [] f0 (f1 :: resto) Ha) as [_ H1].
        constructor; [exact Hlt|].
        apply (List.Forall_impl _ (fun g (Hg : suma f0 < suma g) => Z.lt_trans _ _ _ Hlt Hg) H1). }
      assert (Hne : suma f1 <> suma f0).
      { rewrite Hd in Ha.
        destruct (sumas_ascendentes_app [] f0 (f1 :: resto) Ha) as [_ H1].
        inversion H1; subst. lia. }
      destruct (tabla_extrapolada_baja t f0 f1 resto s Hd H Hne
                  (Hb' _ Hf0) (Hb' _ Hf1) Hs) as (k & _ & E').
      rewrite E in E'. injection E' as ->. cbn [compuesto]. lia.
    + pose proof (L f0 Hf0 Hge). pose proof (Hr' f0 Hf0). lia.
  - destruct (Z_lt_le_dec (suma fm) s) as [Hlt|Hge].
    + assert (H : Forall (fun f => suma f < s) (datos t)).
      { rewrite Eu in Ha |- *.
        change [fa; fm] with ([fa] ++ [fm]) in Ha |- *.
        rewrite app_assoc in Ha |- *.
        destruct (sumas_ascendentes_app _ fm [] Ha) as [H1 _].
        apply Forall_app. split; [|constructor; [exact Hlt|constructor]].
        apply (List.Forall_impl _ (fun g (Hg : suma g < suma fm) => Z.lt_trans _ _ _ Hg Hlt) H1). }
      assert (Hne : suma fm <> suma fa).
      { rewrite Eu in Ha.
        destruct (sumas_ascendentes_app ini fa [fm] Ha) as [_ H1].
        inversion H1; subst. lia. }
      destruct (tabla_extrapolada_alta t ini fa fm s Eu H Hne
                  (Hb' _ Hfa) (Hb' _ Hfm) Hs) as (k & _ & E').
      rewrite E in E'. injection E' as ->. cbn [compuesto].
      pose proof (Hr' fm Hfm). lia.
    + pose proof (U fm Hfm Hge). pose proof (Hr' fm Hfm). lia.
Qed.

(** ** The total scale on an ordered table *)


Lemma cits_no_decrecientes_app (l1 : list CIT.fila) (f : CIT.fila)
    (l2 : list CIT.fila) :
  cits_no_decrecientes (l1 ++ f :: l2) = true ->
  Forall (fun g => CIT.cit g <= CIT.cit f) l1 /\
  Forall (fun g => CIT.cit f <= CIT.cit g) l2.
Proof.
  intros H. apply (encadenada_app _ (leb_trans CIT.fila CIT.cit)) in H.
  destruct H as [H1 H2]. split.
  - apply (List.Forall_impl _ (fun g Hg => proj1 (Z.leb_le _ _) Hg) H1).
  - apply (List.Forall_impl _ (fun g Hg => proj1 (Z.leb_le _ _) Hg) H2).
Qed.

Lemma cit_orden_coherente (l : list CIT.fila) (g h : CIT.fila) :
  sumas_cit_ascendentes l = true -> cits_no_decrecientes l = true ->
  In g l -> In h l -> CIT.suma g <= CIT.suma h -> CIT.cit g <= CIT.cit h.
Proof.
  intros Ha Hv Hg Hh Hs.
  destruct (in_split _ _ Hh) as (l1 & l2 & ->).
  destruct (sumas_cit_ascendentes_app _ _ _ Ha) as [_ Hs2].
  destruct (cits_no_decrecientes_app _ _ _ Hv) as [Hv1 _].
  rewrite List.Forall_forall in Hs2, Hv1.
  apply in_app_or in Hg. destruct Hg as [Hg|[->|Hg]].
  - apply Hv1. exact Hg.
  - lia.
  - specialize (Hs2 g Hg). lia.
Qed.

Lemma cit_sin_filas_entre (l1 : list CIT.fila) (fi fs : CIT.fila)
    (l2 : list CIT.fila) (g : CIT.fila) :
  sumas_cit_ascendentes (l1 ++ fi :: fs :: l2) = true ->
  In g (l1 ++ fi :: fs :: l2) ->
  CIT.suma g <= CIT.suma fi \/ CIT.suma fs <= CIT.suma g.
Proof.
  intros Ha Hg.
  destruct (sumas_cit_ascendentes_app l1 fi (fs :: l2) Ha) as [H1 _].
  destruct (sumas_cit_ascendentes_app (l1 ++ [fi]) fs l2) as [_ H2].
  { rewrite <- app_assoc. exact Ha. }
  rewrite List.Forall_forall in H1, H2.
  apply in_app_or in Hg. destruct Hg as [Hg|[->|[->|Hg]]].
  - left. specialize (H1 g Hg). lia.
  - left. lia.
  - right. lia.
  - right. specialize (H2 g Hg). lia.
Qed.

Lemma cit_ubicacion (l : list CIT.fila) (s : Z) :
  l <> [] -> sumas_cit_ascendentes l = true ->
  Forall (fun f => s < CIT.suma f) l \/
  Forall (fun f => CIT.suma f < s) l \/
  (exists l1 f l2, l = l1 ++ f :: l2 /\ CIT.suma f = s) \/
  (exists l1 fi fs l2,
     l = l1 ++ fi :: fs :: l2 /\ CIT.suma fi < s < CIT.suma fs).
Proof.
  induction l as [|a l IH]; [congruence|]. intros _ Ha.
  destruct l as [|b l].
  - destruct (Z.lt_trichotomy s (CIT.suma a)) as [H|[H|H]].
    + left. constructor; [exact H|constructor].
    + right. right. left. exists [], a, []. split; [reflexivity|congruence].
    + right. left. constructor; [exact H|constructor].
  - pose proof (sumas_cit_ascendentes_app [] a (b :: l) Ha) as [_ Hab].
    inversion Hab as [|? ? Hab1 _]; subst.
    destruct (IH ltac:(discriminate) (encadenada_cola _ _ _ Ha))
      as [H|[H|[(l1 & f & l2 & E & Hf)|(l1 & fi & fs & l2 & E & Hf)]]].
    + destruct (Z.lt_trichotomy s (CIT.suma a)) as [H'|[H'|H']].
      * left. constructor; assumption.
      * right. right. left. exists [], a, (b :: l).
        split; [reflexivity|congruence].
      * right. right. right. exists [], a, b, l.
        split; [reflexivity|]. inversion H; subst. lia.
    + right. left. constructor; [|exact H]. inversion H; subst. lia.
    + right. right. left. exists (a :: l1), f, l2.
      split; [rewrite E; reflexivity|exact Hf].
    + right. right. right. exists (a :: l1), fi, fs, l2.
      split; [rewrite E; reflexivity|exact Hf].
Qed.


Lemma cit_cotas (l : list CIT.fila) (s : Z) :
  cit_ordenada l -> acotado s ->
  exists r, CIT.convertir_en_datos l s = Ok r /\
    (forall f, In f l -> CIT.suma f <= s -> CIT.cit f <= CIT.compuesto r) /\
    (forall f, In f l -> s <= CIT.suma f -> CIT.compuesto r <= CIT.cit f).
Proof.
  intros (Hnv & Ha & Hv & Hb) Hs.
  pose proof Hb as Hb'. rewrite List.Forall_forall in Hb'.
  destruct (cit_ubicacion l s Hnv Ha) as
    [H|[H|[(l1 & f & l2 & E & Hf)|(l1 & fi & fs & l2 & E & Hf)]]].
  - destruct l as [|f0 resto]; [congruence|].
    rewrite (cit_bajo_el_minimo f0 resto s H).
    eexists. split; [reflexivity|]. cbn [CIT.de_fila CIT.compuesto].
    rewrite List.Forall_forall in H. split.
    + intros f Hin Hle. specialize (H f Hin). lia.
    + intros f Hin Hle.
      apply (cit_orden_coherente (f0 :: resto)); try assumption;
        [left; reflexivity|].
      destruct (sumas_cit_ascendentes_app [] f0 resto Ha) as [_ H1].
      rewrite List.Forall_forall in H1.
      destruct Hin as [<-|Hin]; [lia|]. specialize (H1 f Hin). lia.
  - destruct (exists_last Hnv) as (ini & fm & ->).
    rewrite (cit_sobre_el_maximo ini fm s H).
    eexists. split; [reflexivity|]. cbn [CIT.de_fila CIT.compuesto].
    rewrite List.Forall_forall in H. split.
    + intros f Hin Hle.
      apply (cit_orden_coherente (ini ++ [fm])); try assumption.
      { apply in_or_app. right. left. reflexivity. }
      destruct (sumas_cit_ascendentes_app ini fm [] Ha) as [H1 _].
      rewrite List.Forall_forall in H1.
      apply in_app_or in Hin. destruct Hin as [Hin|[<-|[]]]; [|lia].
      specialize (H1 f Hin). lia.
    + intros f Hin Hle. specialize (H f Hin). lia.
  - subst l s. rewrite (cit_fila_exacta l1 f l2 Ha).
    assert (Hin : In f (l1 ++ f :: l2)).
    { apply in_or_app. right. left. reflexivity. }
    eexists. split; [reflexivity|]. cbn [CIT.de_fila CIT.compuesto]. split.
    + intros g Hg Hle. apply (cit_orden_coherente (l1 ++ f :: l2)); assumption.
    + intros g Hg Hle. apply (cit_orden_coherente (l1 ++ f :: l2)); assumption.
  - subst l.
    assert (Hfi : In fi (l1 ++ fi :: fs :: l2)).
    { apply in_or_app. right. left. reflexivity. }
    assert (Hfs : In fs (l1 ++ fi :: fs :: l2)).
    { apply in_or_app. right. right. left. reflexivity. }
    destruct (cit_interpolada l1 fi fs l2 s Ha Hf
                (Hb' _ Hfi) (Hb' _ Hfs) Hs) as (k & Hk & ->).
    assert (Hvv : CIT.cit fi <= CIT.cit fs).
    { apply (cit_orden_coherente (l1 ++ fi :: fs :: l2)); try assumption. lia. }
    pose proof (interpolacion_cotas (CIT.suma fi) (CIT.cit fi) (CIT.suma fs)
                  (CIT.cit fs) s k ltac:(lia) ltac:(lia) Hvv
                  (proj2 (Hb' _ Hfi)) (proj2 (Hb' _ Hfs)) Hk) as Hkk.
    eexists. split; [reflexivity|]. cbn [CIT.compuesto]. split.
    + intros g Hg Hle.
      assert (CIT.cit g <= CIT.cit fi); [|lia].
      apply (cit_orden_coherente (l1 ++ fi :: fs :: l2)); try assumption.
      destruct (cit_sin_filas_entre l1 fi fs l2 g Ha Hg); lia.
    + intros g Hg Hle.
      assert (CIT.cit fs <= CIT.cit g); [|lia].
      apply (cit_orden_coherente (l1 ++ fi :: fs :: l2)); try assumption.
      destruct (cit_sin_filas_entre l1 fi fs l2 g Ha Hg); lia.
Qed.

(** X2. The total scale is never extrapolated: on an ordered CIT table
    every sum converts, and the composite lies between the values of the
    first and of the last row. *)
Theorem cit_dentro_de_la_tabla (tabla_cit : CIT.json_cit)
    (f0 : CIT.fila) (resto : list CIT.fila) (fm : CIT.fila) (s : Z) :
  CIT.json_datos tabla_cit = Some (f0 :: resto) ->
  List.last (f0 :: resto) f0 = fm ->
  sumas_cit_ascendentes (f0 :: resto) = true ->
  cits_no_decrecientes (f0 :: resto) = true ->
  Forall fila_cit_acotada (f0 :: resto) ->
  acotado s ->
  exists r, CIT.convertir_cit tabla_cit s = Ok r /\
            CIT.cit f0 <= CIT.compuesto r <= CIT.cit fm.
Proof.
  intros Hd Hl Ha Hv Hb Hs.
  rewrite (convertir_cit_en_datos _ _ s Hd).
  assert (Hord : cit_ordenada (f0 :: resto)).
  { split; [discriminate|split; [exact Ha|split; [exact Hv|exact Hb]]]. }
  destruct (cit_cotas _ s Hord Hs) as (r & E & L & U).
  exists r. split; [exact E|].
  assert (Hf0 : In f0 (f0 :: resto)) by (left; reflexivity).
  assert (Hfm : In fm (f0 :: resto)).
  { rewrite <- Hl. destruct (exists_last (l := f0 :: resto) ltac:(discriminate))
      as (ini & x & Ex).
    rewrite Ex, List.last_last. apply in_or_app. right. left. reflexivity. }
  split.
  - destruct (Z_lt_le_dec s (CIT.suma f0)) as [Hlt|Hge].
    + assert (H : Forall (fun f => s < CIT.suma f) (f0 :: resto)).
      { destruct (sumas_cit_ascendentes_app [] f0 resto Ha) as [_ H1].
        constructor; [exact Hlt|].
        apply (List.Forall_impl _ (fun g (Hg : CIT.suma f0 < CIT.suma g) => Z.lt_trans _ _ _ Hlt Hg) H1). }
      rewrite (cit_bajo_el_minimo f0 resto s H) in E.
      injection E as <-. cbn [CIT.de_fila CIT.compuesto]. lia.
    + exact (L f0 Hf0 Hge).
  - destruct (Z_lt_le_dec (CIT.suma fm) s) as [Hlt|Hge].
    + destruct (exists_last (l := f0 :: resto) ltac:(discriminate))
        as (ini & x & Ex).
      rewrite Ex in *. rewrite List.last_last in Hl. subst x.
      assert (H : Forall (fun f => CIT.suma f < s) (ini ++ [fm])).
      { destruct (sumas_cit_ascendentes_app ini fm [] Ha) as [H1 _].
        apply Forall_app. split; [|constructor; [exact Hlt|constructor]].
        apply (List.Forall_impl _ (fun g (Hg : CIT.suma g < CIT.suma fm) => Z.lt_trans _ _ _ Hg Hlt) H1). }
      rewrite (cit_sobre_el_maximo ini fm s H) in E.
      injection E as <-. cbn [CIT.de_fila CIT.compuesto]. lia.
    + exact (U fm Hfm Hge).
Qed.

Lemma cit_monotona (l : list CIT.fila) (s1 s2 : Z) :
  cit_ordenada l -> acotado s1 -> acotado s2 -> s1 <= s2 ->
  exists r1 r2,
    CIT.convertir_en_datos l s1 = Ok r1 /\
    CIT.convertir_en_datos l s2 = Ok r2 /\
    CIT.compuesto r1 <= CIT.compuesto r2.
Proof.
  intros Ht Hs1 Hs2 Hle.
  destruct (cit_cotas l s1 Ht Hs1) as (r1 & E1 & L1 & U1).
  destruct (cit_cotas l s2 Ht Hs2) as (r2 & E2 & L2 & U2).
  exists r1, r2. split; [exact E1|]. split; [exact E2|].
  destruct (Z.eq_dec s1 s2) as [->|Hne].
  { rewrite E1 in E2. injection E2 as ->. lia. }
  destruct Ht as (Hnv & Ha & Hv & Hb).
  pose proof Hb as Hb'. rewrite List.Forall_forall in Hb'.
  destruct (cit_ubicacion l s1 Hnv Ha) as
    [H|[H|[(l1 & f & l2 & E & Hf)|(l1 & fi & fs & l2 & E & Hf)]]].
  - destruct l as [|f0 resto]; [congruence|].
    assert (Hf0 : In f0 (f0 :: resto)) by (left; reflexivity).
    destruct (Z_lt_le_dec s2 (CIT.suma f0)) as [Hlt|Hge].
    + assert (H2 : Forall (fun f => s2 < CIT.suma f) (f0 :: resto)).
      { destruct (sumas_cit_ascendentes_app [] f0 resto Ha) as [_ H1].
        constructor; [exact Hlt|].
        apply (List.Forall_impl _ (fun g (Hg : CIT.suma f0 < CIT.suma g) => Z.lt_trans _ _ _ Hlt Hg) H1). }
      rewrite (cit_bajo_el_minimo f0 resto s1 H) in E1.
      rewrite (cit_bajo_el_minimo f0 resto s2 H2) in E2.
      injection E1 as <-. injection E2 as <-. lia.
    + rewrite List.Forall_forall in H.
      pose proof (U1 f0 Hf0 (Z.lt_le_incl _ _ (H f0 Hf0))).
      pose proof (L2 f0 Hf0 Hge). lia.
  - destruct (exists_last Hnv) as (ini & fm & ->).
    assert (H2 : Forall (fun f => CIT.suma f < s2) (ini ++ [fm])).
    { apply (List.Forall_impl _ (fun g (Hg : CIT.suma g < s1) => Z.lt_le_trans _ _ _ Hg Hle) H). }
    rewrite (cit_sobre_el_maximo ini fm s1 H) in E1.
    rewrite (cit_sobre_el_maximo ini fm s2 H2) in E2.
    injection E1 as <-. injection E2 as <-. lia.
  - assert (Hin : In f l).
    { rewrite E. apply in_or_app. right. left. reflexivity. }
    pose proof (U1 f Hin ltac:(lia)). pose proof (L2 f Hin ltac:(lia)). lia.
  - assert (Hfi : In fi l).
    { rewrite E. apply in_or_app. right. left. reflexivity. }
    assert (Hfs : In fs l).
    { rewrite E. apply in_or_app. right. right. left. reflexivity. }
    destruct (Z_lt_le_dec s2 (CIT.suma fs)) as [Hlt|Hge].
    + assert (Hvv : CIT.cit fi <= CIT.cit fs).
      { apply (cit_orden_coherente l); try assumption. lia. }
      subst l.
      destruct (cit_interpolada l1 fi fs l2 s1 Ha Hf
                  (Hb' _ Hfi) (Hb' _ Hfs) Hs1) as (k1 & Hk1 & E1').
      destruct (cit_interpolada l1 fi fs l2 s2 Ha ltac:(lia)
                  (Hb' _ Hfi) (Hb' _ Hfs) Hs2) as (k2 & Hk2 & E2').
      rewrite E1 in E1'. rewrite E2 in E2'.
      injection E1' as ->. injection E2' as ->. cbn [CIT.compuesto].
      apply (interpolacion_mono (CIT.suma fi) (CIT.cit fi) (CIT.suma fs)
               (CIT.cit fs) s1 s2 k1 k2);
        [lia|exact Hvv|exact Hle|exact Hk1|exact Hk2].
    + pose proof (U1 fs Hfs ltac:(lia)). pose proof (L2 fs Hfs Hge). lia.
Qed.

(** X3. On an ordered CIT table the total scale is non-decreasing in the
    sum of scaled scores: for [s1 <= s2] both conversions return and the
    composite for [s1] is at most the one for [s2]. No floor applies, so
    no lower bound on the tabulated values is needed. *)
Theorem cit_monotono (tabla_cit : CIT.json_cit) (f0 : CIT.fila)
    (resto : list CIT.fila) (s1 s2 : Z) :
  CIT.json_datos tabla_cit = Some (f0 :: resto) ->
  sumas_cit_ascendentes (f0 :: resto) = true ->
  cits_no_decrecientes (f0 :: resto) = true ->
  Forall fila_cit_acotada (f0 :: resto) ->
  acotado s1 -> acotado s2 -> s1 <= s2 ->
  exists r1 r2,
    CIT.convertir_cit tabla_cit s1 = Ok r1 /\
    CIT.convertir_cit tabla_cit s2 = Ok r2 /\
    CIT.compuesto r1 <= CIT.compuesto r2.
Proof.
  intros Hd Ha Hv Hb Hs1 Hs2 Hle.
  rewrite !(convertir_cit_en_datos _ _ _ Hd).
  apply cit_monotona; try assumption.
  split; [discriminate|split; [exact Ha|split; [exact Hv|exact Hb]]].
Qed.

(** ** Degenerate tables *)

(** X4. A composite table of a single row converts the sum of that row and
    no other: below it the branch reads [datos[1]], above it [datos[-2]],
    and both raise [IndexError]. *)
Theorem tabla_de_una_fila (tablas : gmap string tabla_escala)
    (escala : string) (t : tabla_escala) (f : fila) :
  tablas !! escala = Some t ->
  datos t = [f] ->
  convertir_compuesto tablas escala (suma f) = Ok (de_fila t f) /\
  forall s, s <> suma f ->
            convertir_compuesto tablas escala s = Error IndexError.
Proof.
  intros Ht Hd. split.
  - rewrite (convertir_compuesto_en_tabla tablas escala t _ Ht).
    unfold convertir_en_tabla. rewrite Hd. cbn [List.find].
    rewrite Z.eqb_refl. reflexivity.
  - intros s Hs.
    rewrite (convertir_compuesto_en_tabla tablas escala t _ Ht).
    unfold convertir_en_tabla, extrapolar_bajo, extrapolar_alto.
    rewrite Hd. cbn [List.find map py_min py_max fold_left ligar].
    rewrite (proj2 (Z.eqb_neq _ _) (not_eq_sym Hs)).
    destruct (Z.ltb_spec s (suma f)) as [Hlt|Hge]; [reflexivity|].
    replace (s >? suma f) with true
      by (symmetry; rewrite Z.gtb_ltb; apply Z.ltb_lt; lia).
    reflexivity.
Qed.

Lemma ligar_error {A B : Type} (r : resultado A) (k : A -> resultado B)
    (e : excepcion) :
  ligar r k = Error e ->
  r = Error e \/ exists a, r = Ok a /\ k a = Error e.
Proof.
  destruct r as [a|e']; cbn [ligar]; intros H.
  - right. exists a. split; [reflexivity|exact H].
  - left. injection H as ->. reflexivity.
Qed.

Lemma division_real_cero (a b : Z) :
  division_real a b = Error ZeroDivisionError <-> b = 0.
Proof.
  unfold division_real. destruct (Z.eqb_spec b 0) as [Hb|Hb].
  - split; [intros _; exact Hb|reflexivity].
  - split; [|contradiction].
    destruct (a =? 0); [discriminate|].
    destruct (SFdiv _ _ _ _); discriminate.
Qed.

Lemma de_entero_sin_division (n : Z) :
  de_entero n <> Error ZeroDivisionError.
Proof. unfold de_entero. destruct (binary_normalize _ _ _ _ _); discriminate. Qed.

Lemma por_entero_sin_division (x : flotante) (n : Z) :
  por_entero x n <> Error ZeroDivisionError.
Proof.
  unfold por_entero. intros H. apply ligar_error in H.
  destruct H as [H|(y & _ & H)]; [|discriminate H].
  exact (de_entero_sin_division n H).
Qed.

Lemma entero_mas_sin_division (n : Z) (x : flotante) :
  entero_mas n x <> Error ZeroDivisionError.
Proof.
  unfold entero_mas. intros H. apply ligar_error in H.
  destruct H as [H|(y & _ & H)]; [|discriminate H].
  exact (de_entero_sin_division n H).
Qed.

Lemma py_round_sin_division (x : flotante) :
  py_round x <> Error ZeroDivisionError.
Proof. destruct x; discriminate. Qed.

(** What follows the division in the three formulas. *)
Lemma resto_sin_division {A : Type} (x : flotante) (n v : Z)
    (k : Z -> A) :
  (let* producto := por_entero x n in
   let* w := entero_mas v producto in
   let* redondeado := py_round w in
   Ok (k redondeado)) <> Error ZeroDivisionError.
Proof.
  intros H. apply ligar_error in H.
  destruct H as [H|(p & _ & H)]; [exact (por_entero_sin_division _ _ H)|].
  apply ligar_error in H.
  destruct H as [H|(w & _ & H)]; [exact (entero_mas_sin_division _ _ H)|].
  apply ligar_error in H.
  destruct H as [H|(q & _ & H)]; [exact (py_round_sin_division _ H)|].
  discriminate H.
Qed.

Lemma interpolar_entre_division (t : tabla_escala) (fi fs : fila) (s : Z) :
  interpolar_entre t fi fs s = Error ZeroDivisionError ->
  suma fs = suma fi.
Proof.
  unfold interpolar_entre. intros H. apply ligar_error in H.
  destruct H as [H|(x & _ & H)].
  - apply division_real_cero in H. lia.
  - exfalso. exact (resto_sin_division _ _ _ _ H).
Qed.

Lemma interpolar_par (t : tabla_escala) (l : list fila) (s : Z)
    (r : resultado conversion) :
  interpolar t l s = Some r ->
  exists fi fs, In fi l /\ In fs l /\ suma fi <= s <= suma fs /\
                r = interpolar_entre t fi fs s.
Proof.
  induction l as [|a l IH]; [discriminate|].
  destruct l as [|b l]; [discriminate|].
  cbn [interpolar].
  destruct ((suma a <=? s) && (s <=? suma b)) eqn:E.
  - intros H. injection H as <-. apply andb_prop in E.
    destruct E as [E1 E2]. apply Z.leb_le in E1, E2.
    exists a, b. split; [left; reflexivity|].
    split; [right; left; reflexivity|]. split; [lia|reflexivity].
  - intros H. destruct (IH H) as (fi & fs & Hi & Hs & Hr & Er).
    exists fi, fs. split; [right; exact Hi|]. split; [right; exact Hs|].
    split; assumption.
Qed.

Lemma indices_finales {A : Type} (l : list A) (a b : A) :
  indice_desde_el_final l 1 = Ok b -> indice_desde_el_final l 2 = Ok a ->
  exists inicio, l = inicio ++ [a; b].
Proof.
  intros H1 H2.
  destruct l as [|x [|y l]].
  - discriminate H1.
  - discriminate H2.
  - destruct (ultimas_dos x y l) as (ini & u & v & E).
    rewrite E in H1, H2.
    change [u; v] with ([u] ++ [v]) in H1. rewrite app_assoc in H1.
    rewrite indice_final_1 in H1. rewrite indice_final_2 in H2.
    injection H1 as <-. injection H2 as <-. exists ini. exact E.
Qed.

Lemma indice_final_sin_division {A : Type} (l : list A) (k : nat) :
  indice_desde_el_final l k <> Error ZeroDivisionError.
Proof.
  unfold indice_desde_el_final, indice.
  destruct (k <=? length l)%nat; [|discriminate].
  destruct (l !! _); discriminate.
Qed.

Lemma extrapolar_bajo_division (t : tabla_escala) (s : Z) :
  extrapolar_bajo t s = Error ZeroDivisionError <->
  exists f0 f1 resto, datos t = f0 :: f1 :: resto /\ suma f1 = suma f0.
Proof.
  unfold extrapolar_bajo. split.
  - destruct (datos t) as [|f0 [|f1 resto]]; [discriminate|discriminate|].
    cbn [indice lookup list_lookup ligar]. intros H.
    apply ligar_error in H. destruct H as [H|(x & _ & H)].
    + apply division_real_cero in H. exists f0, f1, resto.
      split; [reflexivity|lia].
    + exfalso. exact (resto_sin_division _ _ _ _ H).
  - intros (f0 & f1 & resto & -> & E).
    cbn [indice lookup list_lookup ligar].
    rewrite (proj2 (division_real_cero _ (suma f1 - suma f0))) by lia.
    reflexivity.
Qed.

Lemma extrapolar_alto_division (t : tabla_escala) (s : Z) :
  extrapolar_alto t s = Error ZeroDivisionError <->
  exists inicio fa fm, datos t = inicio ++ [fa; fm] /\ suma fm = suma fa.
Proof.
  unfold extrapolar_alto. split.
  - intros H.
    apply ligar_error in H. destruct H as [H|(fm & E1 & H)];
      [exfalso; exact (indice_final_sin_division _ _ H)|].
    apply ligar_error in H. destruct H as [H|(fa & E2 & H)];
      [exfalso; exact (indice_final_sin_division _ _ H)|].
    destruct (indices_finales _ _ _ E1 E2) as (ini & E).
    exists ini, fa, fm. split; [exact E|].
    apply ligar_error in H. destruct H as [H|(x & _ & H)].
    + apply division_real_cero in H. lia.
    + exfalso. exact (resto_sin_division _ _ _ _ H).
  - intros (ini & fa & fm & E & Es). rewrite E.
    rewrite indice_final_2.
    change [fa; fm] with ([fa] ++ [fm]). rewrite app_assoc, indice_final_1.
    cbn [ligar].
    rewrite (proj2 (division_real_cero _ (suma fm - suma fa))) by lia.
    reflexivity.
Qed.

(** X5. [convertir_compuesto] raises [ZeroDivisionError] exactly when it
    extrapolates over two boundary rows of equal sum: the sum lies below
    every tabulated sum and the first two rows share their sum, or it lies
    above every tabulated sum and the last two rows do. Between the
    smallest and the largest sum the division is never by zero, sorted
    table or not. *)
Theorem division_por_cero_solo_al_extrapolar
    (tablas : gmap string tabla_escala) (escala : string) (t : tabla_escala)
    (s : Z) :
  tablas !! escala = Some t ->
  (convertir_compuesto tablas escala s = Error ZeroDivisionError <->
   (Forall (fun f => s < suma f) (datos t) /\
    exists f0 f1 resto, datos t = f0 :: f1 :: resto /\ suma f1 = suma f0) \/
   (Forall (fun f => suma f < s) (datos t) /\
    exists inicio fa fm,
      datos t = inicio ++ [fa; fm] /\ suma fm = suma fa)).
Proof.
  intros Ht.
  rewrite (convertir_compuesto_en_tabla tablas escala t s Ht).
  unfold convertir_en_tabla. split.
  - destruct (List.find _ (datos t)) as [f|] eqn:Ef; [discriminate|].
    assert (Hno : forall f, In f (datos t) -> suma f <> s).
    { intros f Hf. apply Z.eqb_neq.
      exact (find_none _ _ Ef f Hf). }
    destruct (datos t) as [|a l] eqn:Ed; [discriminate|].
    rewrite <- Ed in *.
    assert (Hnv : datos t <> []) by (rewrite Ed; discriminate).
    destruct (py_min_spec suma (datos t) Hnv) as (m & -> & Hm & _).
    destruct (py_max_spec suma (datos t) Hnv) as (M & -> & HM & _).
    cbn [ligar].
    destruct (Z.ltb_spec s m) as [Hlt|Hge].
    + intros H. left. split.
      * apply (List.Forall_impl _ (fun g (Hg : m <= suma g) => Z.lt_le_trans _ _ _ Hlt Hg) Hm).
      * apply (extrapolar_bajo_division t s). exact H.
    + destruct (s >? M) eqn:EM.
      * intros H. right. split.
        -- rewrite Z.gtb_ltb in EM. apply Z.ltb_lt in EM.
           apply (List.Forall_impl _ (fun g (Hg : suma g <= M) => Z.le_lt_trans _ _ _ Hg EM) HM).
        -- apply (extrapolar_alto_division t s). exact H.
      * destruct (interpolar t (datos t) s) as [r|] eqn:Ei.
        -- intros H. subst r.
           destruct (interpolar_par t _ s _ Ei) as (fi & fs & Hi & Hs & Hr & E).
           symmetry in E. apply interpolar_entre_division in E.
           pose proof (Hno fi Hi). pose proof (Hno fs Hs). lia.
        -- intros H. apply ligar_error in H.
           destruct H as [H|(u & _ & H)]; [|discriminate H].
           exfalso. exact (indice_final_sin_division _ _ H).
  - intros [[Hs Hd]|[Hs Hd]].
    + destruct Hd as (f0 & f1 & resto & Ed & E).
      rewrite find_clave_ninguna.
      2:{ apply (List.Forall_impl _ (fun g (Hg : s < suma g) => not_eq_sym (Z.lt_neq _ _ Hg)) Hs). }
      destruct (py_min_spec suma (datos t)) as (m & -> & _ & f & Hf & <-).
      { rewrite Ed. discriminate. }
      cbn [ligar]. rewrite List.Forall_forall in Hs.
      rewrite (proj2 (Z.ltb_lt _ _) (Hs f Hf)).
      apply extrapolar_bajo_division. exists f0, f1, resto.
      split; assumption.
    + destruct Hd as (ini & fa & fm & Ed & E).
      rewrite find_clave_ninguna.
      2:{ apply (List.Forall_impl _ (fun g (Hg : suma g < s) => Z.lt_neq _ _ Hg) Hs). }
      assert (Hnv : datos t <> []) by (rewrite Ed; destruct ini; discriminate).
      destruct (py_min_spec suma (datos t) Hnv) as (m & -> & _ & f & Hf & <-).
      destruct (py_max_spec suma (datos t) Hnv) as (M & -> & _ & g & Hg & <-).
      cbn [ligar]. rewrite List.Forall_forall in Hs.
      pose proof (Hs f Hf). pose proof (Hs g Hg).
      rewrite (proj2 (Z.ltb_ge _ _)) by lia.
      replace (s >? suma g) with true
        by (symmetry; rewrite Z.gtb_ltb; apply Z.ltb_lt; lia).
      apply extrapolar_alto_division. exists ini, fa, fm.
      split; assumption.
Qed.

Lemma cit_interpolar_par (l : list CIT.fila) (s : Z)
    (r : resultado CIT.conversion) :
  CIT.interpolar l s = Some r ->
  exists fi fs, In fi l /\ In fs l /\ CIT.suma fi <= s <= CIT.suma fs /\
                r = CIT.interpolar_entre fi fs s.
Proof.
  induction l as [|a l IH]; [discriminate|].
  destruct l as [|b l]; [discriminate|].
  cbn [CIT.interpolar].
  destruct ((CIT.suma a <=? s) && (s <=? CIT.suma b)) eqn:E.
  - intros H. injection H as <-. apply andb_prop in E.
    destruct E as [E1 E2]. apply Z.leb_le in E1, E2.
    exists a, b. split; [left; reflexivity|].
    split; [right; left; reflexivity|]. split; [lia|reflexivity].
  - intros H. destruct (IH H) as (fi & fs & Hi & Hs & Hr & Er).
    exists fi, fs. split; [right; exact Hi|]. split; [right; exact Hs|].
    split; assumption.
Qed.

(** X6. [convertir_cit] never raises [ZeroDivisionError], whatever the
    table (sorted or not, with repeated sums or not) and whatever the
    sum: a division is reached only strictly between two rows. *)
Theorem cit_sin_division_por_cero (tabla_cit : CIT.json_cit) (s : Z) :
  CIT.convertir_cit tabla_cit s <> Error ZeroDivisionError.
Proof.
  unfold CIT.convertir_cit. intros H. apply ligar_error in H.
  destruct H as [H|(l & _ & H)].
  { destruct (CIT.json_datos tabla_cit); discriminate H. }
  unfold CIT.convertir_en_datos in H.
  destruct l as [|a l'] eqn:El; [discriminate H|]. rewrite <- El in *.
  destruct (List.find _ l) as [f|] eqn:Ef; [discriminate H|].
  assert (Hno : forall f, In f l -> CIT.suma f <> s).
  { intros f Hf. apply Z.eqb_neq. exact (find_none _ _ Ef f Hf). }
  assert (Hnv : l <> []) by (rewrite El; discriminate).
  destruct (py_min_spec CIT.suma l Hnv) as (m & Em & _ & _).
  destruct (py_max_spec CIT.suma l Hnv) as (M & EM & _ & _).
  rewrite Em in H. cbn [ligar] in H.
  destruct (s <? m).
  { apply ligar_error in H. destruct H as [H|(u & _ & H)]; [|discriminate H].
    unfold indice in H. destruct (l !! _); discriminate H. }
  rewrite EM in H. cbn [ligar] in H.
  destruct (s >? M).
  { apply ligar_error in H. destruct H as [H|(u & _ & H)]; [|discriminate H].
    exact (indice_final_sin_division _ _ H). }
  destruct (CIT.interpolar l s) as [r|] eqn:Ei.
  - subst r. destruct (cit_interpolar_par _ s _ Ei)
      as (fi & fs & Hi & Hs & Hr & E).
    symmetry in E. unfold CIT.interpolar_entre in E.
    apply ligar_error in E. destruct E as [E|(x & _ & E)].
    + apply division_real_cero in E.
      pose proof (Hno fi Hi). pose proof (Hno fs Hs). lia.
    + exact (resto_sin_division _ _ _ _ E).
  - apply ligar_error in H. destruct H as [H|(u & _ & H)]; [|discriminate H].
    exact (indice_final_sin_division _ _ H).
Qed.

(** ** Printing and reading integers *)

Lemma cifras_sin_espacios (d : Decimal.uint) :
  Forall (fun c => es_espacio c = false)
         (list_ascii_of_string (NilEmpty.string_of_uint d)).
Proof.
  induction d; cbn [NilEmpty.string_of_uint list_ascii_of_string];
    constructor; try reflexivity; assumption.
Qed.

Lemma quitar_espacios_izq_id (l : list ascii) :
  Forall (fun c => es_espacio c = false) l -> quitar_espacios_izq l = l.
Proof.
  intros H. destruct H as [|c l Hc _]; [reflexivity|].
  cbn [quitar_espacios_izq]. rewrite Hc. reflexivity.
Qed.

Lemma quitar_espacios_id (l : list ascii) :
  Forall (fun c => es_espacio c = false) l -> quitar_espacios l = l.
Proof.
  intros H. unfold quitar_espacios.
  rewrite (quitar_espacios_izq_id l H).
  rewrite quitar_espacios_izq_id.
  - apply rev_involutive.
  - apply List.Forall_rev. exact H.
Qed.

Lemma sin_espacio_sin_blanco (c : ascii) :
  es_espacio c = false -> es_blanco c = false.
Proof.
  unfold es_espacio, es_blanco. intros H.
  apply orb_false_iff in H as [H1 H2]. rewrite H1. cbn [orb].
  apply Z.eqb_neq. intros E. rewrite E in H2. discriminate H2.
Qed.

Lemma quitar_blancos_izq_id (l : list ascii) :
  Forall (fun c => es_espacio c = false) l -> quitar_blancos_izq l = l.
Proof.
  intros H. destruct H as [|c l Hc _]; [reflexivity|].
  cbn [quitar_blancos_izq]. rewrite (sin_espacio_sin_blanco c Hc).
  reflexivity.
Qed.

Lemma quitar_blancos_id (l : list ascii) :
  Forall (fun c => es_espacio c = false) l -> quitar_blancos l = l.
Proof.
  intros H. unfold quitar_blancos.
  rewrite (quitar_blancos_izq_id l H).
  rewrite quitar_blancos_izq_id.
  - apply rev_involutive.
  - apply List.Forall_rev. exact H.
Qed.

Lemma leer_digitos_cifras (d : Decimal.uint) :
  (forall a : positive,
     leer_digitos (Zpos a) false
       (list_ascii_of_string (NilEmpty.string_of_uint d)) =
     Some (Zpos (Pos.of_uint_acc d a))) /\
  leer_digitos 0 false (list_ascii_of_string (NilEmpty.string_of_uint d)) =
    Some (Z.of_N (Pos.of_uint d)).
Proof.
  induction d as [|d [IHa IH0]|d [IHa IH0]|d [IHa IH0]|d [IHa IH0]
                  |d [IHa IH0]|d [IHa IH0]|d [IHa IH0]|d [IHa IH0]
                  |d [IHa IH0]|d [IHa IH0]];
    (split; [intros a|]);
    cbn [NilEmpty.string_of_uint list_ascii_of_string leer_digitos
         Pos.of_uint_acc Pos.of_uint];
    try reflexivity;
    match goal with
    | |- context [es_digito ?c] =>
        change (es_digito c) with true; cbv iota;
        change (valor_digito c) with
          (ltac:(let v := eval vm_compute in (valor_digito c) in exact v))
    end;
    try (exact IH0);
    try (exact (IHa _));
    try (rewrite <- IHa; f_equal; lia).
Qed.

Lemma leer_natural_cifras (p : positive) :
  leer_natural (list_ascii_of_string (NilEmpty.string_of_uint (Pos.to_uint p)))
  = Some (Zpos p).
Proof.
  pose proof (DecimalPos.Unsigned.of_to p) as Hp.
  pose proof (proj2 (leer_digitos_cifras (Pos.to_uint p))) as H.
  rewrite Hp in H. cbn [Z.of_N] in H. rewrite <- H.
  destruct (Pos.to_uint p); try reflexivity.
  discriminate Hp.
Qed.

Lemma uint_no_vacio (p : positive) : Pos.to_uint p <> Decimal.Nil.
Proof.
  intros E. pose proof (DecimalPos.Unsigned.of_to p) as Hp.
  rewrite E in Hp. discriminate Hp.
Qed.

Lemma leer_entero_cifras (p : positive) :
  leer_entero (list_ascii_of_string (NilEmpty.string_of_uint (Pos.to_uint p)))
  = Some (Zpos p).
Proof.
  unfold leer_entero.
  rewrite (quitar_blancos_id _ (cifras_sin_espacios _)).
  pose proof (leer_natural_cifras p) as H.
  pose proof (uint_no_vacio p) as Hn.
  destruct (Pos.to_uint p); try congruence;
    cbn [NilEmpty.string_of_uint list_ascii_of_string] in *; exact H.
Qed.

(** [int(str(n)) == n] *)
Lemma py_int_py_str (n : Z) : py_int (py_str (JEntero n)) = Ok n.
Proof.
  unfold py_int, py_str, NilZero.string_of_int, Z.to_int.
  destruct n as [|p|p].
  - reflexivity.
  - unfold NilZero.string_of_uint.
    pose proof (leer_entero_cifras p) as H.
    pose proof (uint_no_vacio p) as Hn.
    destruct (Pos.to_uint p); try congruence; rewrite H; reflexivity.
  - unfold NilZero.string_of_uint.
    pose proof (leer_natural_cifras p) as H.
    pose proof (uint_no_vacio p) as Hn.
    assert (E : leer_entero
                  (list_ascii_of_string
                     (String "-" (NilEmpty.string_of_uint (Pos.to_uint p))))
                = Some (Zneg p)).
    { unfold leer_entero. cbn [list_ascii_of_string].
      rewrite quitar_blancos_id
        by (constructor; [reflexivity|apply cifras_sin_espacios]).
      change (Ascii.eqb "-" guion) with true. cbv iota.
      rewrite H. reflexivity. }
    destruct (Pos.to_uint p); try congruence; rewrite E; reflexivity.
Qed.

(** ** Loading and converting *)

Lemma primera_ruta_existente {A : Type} (ausentes : nat) (f : archivo A)
    (rutas : list (archivo A)) :
  f <> Ausente ->
  primera_ruta (replicate ausentes Ausente ++ f :: rutas) = Ok f.
Proof.
  intros Hf. unfold primera_ruta.
  induction ausentes as [|n IH]; cbn [replicate app List.find].
  - destruct f; [congruence|reflexivity|reflexivity].
  - exact IH.
Qed.

(** X7. [cargar_tablas_compuestos] reads the first candidate path that
    exists and no other: when that file is malformed or lacks the key
    ['tablas_conversion'], the tables are empty, whatever the later paths
    hold, and every conversion then raises the [ValueError] of tables not
    loaded, for every index and every sum. *)
Theorem compuestos_solo_la_primera_ruta (ausentes : nat)
    (f : archivo (option (gmap string tabla_escala)))
    (rutas : list (archivo (option (gmap string tabla_escala))))
    (escala : string) (s : Z) :
  f <> Ausente ->
  cargar_tablas_compuestos (replicate ausentes Ausente ++ f :: rutas) =
    cargar_tablas_compuestos [f] /\
  ((forall tablas, f <> Contenido (Some tablas)) ->
   cargar_tablas_compuestos (replicate ausentes Ausente ++ f :: rutas) = ∅ /\
   convertir_compuesto
     (cargar_tablas_compuestos (replicate ausentes Ausente ++ f :: rutas))
     escala s = Error (ValueError TablasNoCargadas)).
Proof.
  intros Hf.
  assert (E : cargar_tablas_compuestos
                (replicate ausentes Ausente ++ f :: rutas) =
              cargar_tablas_compuestos [f]).
  { unfold cargar_tablas_compuestos.
    rewrite (primera_ruta_existente ausentes f rutas Hf).
    rewrite (primera_ruta_existente 0 f [] Hf : primera_ruta [f] = Ok f). reflexivity. }
  split; [exact E|]. intros Hno. rewrite E.
  assert (Ev : cargar_tablas_compuestos [f] = ∅).
  { unfold cargar_tablas_compuestos.
    rewrite (primera_ruta_existente 0 f [] Hf : primera_ruta [f] = Ok f). cbn [ligar].
    destruct f as [| |[tablas|]]; try reflexivity.
    exfalso. exact (Hno tablas eq_refl). }
  split; [exact Ev|]. rewrite Ev. unfold convertir_compuesto.
  destruct (decide (∅ = ∅)) as [_|Hne]; [reflexivity|congruence].
Qed.

(** X8. [cargar_tabla_cit] prints the key ['tabla'] inside its [try]: a
    file that is malformed or lacks that key is replaced by the empty
    table even if it holds rows. [convertir_cit] then raises the
    [ValueError] of a table not loaded for every sum, and the row of the
    total scale is cleared for every score sheet. *)
Theorem cit_no_cargada (ausentes : nat) (f : archivo CIT.json_cit)
    (rutas : list (archivo CIT.json_cit)) (s : Z) (p : gmap string Z) :
  f <> Ausente ->
  (forall j, f = Contenido j -> CIT.tiene_tabla j = false) ->
  let tabla_cit :=
    CIT.cargar_tabla_cit (replicate ausentes Ausente ++ f :: rutas) in
  CIT.json_datos tabla_cit = Some [] /\
  CIT.convertir_cit tabla_cit s = Error (ValueError TablaCITNoCargada) /\
  (CIT.calcular_escala_total_cit tabla_cit p = None \/
   CIT.calcular_escala_total_cit tabla_cit p =
     Some (Error (ValueError TablaCITNoCargada))).
Proof.
  intros Hf Hno tabla_cit.
  assert (E : tabla_cit =
              {| CIT.tiene_tabla := false; CIT.json_datos := Some [] |}).
  { unfold tabla_cit, CIT.cargar_tabla_cit.
    rewrite (primera_ruta_existente ausentes f rutas Hf). cbn [ligar].
    destruct f as [| |j]; try reflexivity. cbn [abrir_y_leer ligar].
    rewrite (Hno j eq_refl). reflexivity. }
  rewrite E. split; [reflexivity|]. split; [reflexivity|].
  unfold CIT.calcular_escala_total_cit.
  destruct (_ =? 7)%nat; [right; reflexivity|left; reflexivity].
Qed.

(** ** The order of the checks in the raw-to-scaled conversion *)

Section OrdenDeLasComprobaciones.
Import Converter Lectura.

(** X9. [convertir_puntaje] checks the age first, then the subtest, then
    the band table: an age that does not resolve gives the age's error
    whatever the subtest and the score; an unknown subtest other than
    ["INF"] gives the [ValueError] of a subtest not found even when the
    band table is missing; a missing band table gives [KeyError]; and an
    undeclared ["INF"] is looked up under the column ["IN"], declared or
    not. *)
Theorem convertir_puntaje_orden (d : datos) (edad sub : string) (p : Z) :
  (forall e, _convertir_edad_a_grupo edad = Error e ->
             convertir_puntaje d edad sub p = Error e) /\
  (forall g, _convertir_edad_a_grupo edad = Ok g ->
     (sub ∉ subpruebas d -> sub <> "INF" ->
      convertir_puntaje d edad sub p =
        Error (ValueError SubpruebaNoEncontrada)) /\
     ((sub ∈ subpruebas d \/ sub = "INF") ->
      grupos_etarios d !! g = None ->
      convertir_puntaje d edad sub p = Error KeyError) /\
     (forall tabla, "INF" ∉ subpruebas d ->
        grupos_etarios d !! g = Some tabla ->
        convertir_puntaje d edad "INF" p =
          match List.find (fun f => en_celda p (celdas f !! "IN")) tabla with
          | Some f => Ok (puntaje_escala f)
          | None => Error (ValueError PuntajeFueraDeRango)
          end)).
Proof.
  split.
  - intros e He. unfold convertir_puntaje. rewrite He. reflexivity.
  - intros g Hg. unfold convertir_puntaje. rewrite Hg. cbn [ligar].
    split; [|split].
    + intros Hno Hinf. unfold resolver_subprueba.
      destruct (decide (sub ∈ subpruebas d)) as [Hin|_]; [contradiction|].
      rewrite (proj2 (String.eqb_neq _ _) Hinf). reflexivity.
    + intros Hsub Hnone. unfold resolver_subprueba.
      destruct (decide (sub ∈ subpruebas d)) as [Hin|Hno].
      * cbn [ligar]. rewrite Hnone. reflexivity.
      * destruct Hsub as [Hin| ->]; [contradiction|].
        cbn [String.eqb Ascii.eqb Bool.eqb ligar]. rewrite Hnone. reflexivity.
    + intros tabla Hno Htabla. unfold resolver_subprueba.
      destruct (decide ("INF" ∈ subpruebas d)) as [Hin|_]; [contradiction|].
      cbn [String.eqb Ascii.eqb Bool.eqb ligar]. rewrite Htabla. cbn [ligar].
      apply buscar_en_tabla_find.
Qed.

(** X10. The months of an age are not checked against 0..11: only the
    total [years * 12 + months] counts, so two ages of equal total
    resolve alike (or fail alike), and convert every score alike. *)
Theorem edad_solo_total_de_meses (e1 e2 : string) (a1 m1 a2 m2 : Z) :
  leer_edad e1 = Ok (a1, m1) -> leer_edad e2 = Ok (a2, m2) ->
  a1 * 12 + m1 = a2 * 12 + m2 ->
  _convertir_edad_a_grupo e1 = _convertir_edad_a_grupo e2 /\
  forall d sub p,
    match convertir_puntaje d e1 sub p, convertir_puntaje d e2 sub p with
    | Ok x, Ok y => x = y
    | Error _, Error _ => True
    | _, _ => False
    end.
Proof.
  intros H1 H2 E.
  assert (Eg : _convertir_edad_a_grupo e1 = _convertir_edad_a_grupo e2).
  { rewrite (convertir_edad_leida e1 a1 m1 H1).
    rewrite (convertir_edad_leida e2 a2 m2 H2). rewrite E. reflexivity. }
  split; [exact Eg|]. intros d sub p. unfold convertir_puntaje.
  rewrite Eg. destruct (ligar _ _); [reflexivity|exact I].
Qed.

End OrdenDeLasComprobaciones.

(** ** The band files that are loaded *)

Section ArchivosCargados.
Import Converter TablasWiscv TablasCargadas.

Lemma In_insertar_por_clave {A : Type} (clave : A -> Z) (x y : A)
    (l : list A) :
  In y (insertar_por_clave clave x l) <-> y = x \/ In y l.
Proof.
  induction l as [|a l IH]; cbn [insertar_por_clave].
  - cbn. intuition.
  - destruct (clave x <=? clave a); cbn [In] in *; [intuition|].
    rewrite IH. intuition.
Qed.

Lemma In_ordenar_por_clave {A : Type} (clave : A -> Z) (y : A) (l : list A) :
  In y (ordenar_por_clave clave l) <-> In y l.
Proof.
  unfold ordenar_por_clave. induction l as [|a l IH]; cbn [fold_right In].
  - reflexivity.
  - rewrite In_insertar_por_clave, IH. intuition.
Qed.


Lemma cargar_archivos_claves (l : list (string * archivo tabla_grupo))
    (tablas : gmap string tabla_grupo) (n : nat) (k : string) :
  is_Some (fst (cargar_archivos l tablas n) !! k) <->
  is_Some (tablas !! k) \/
  exists nombre t, In (nombre, Contenido t) l /\ k = nombre_de_grupo nombre.
Proof.
  revert tablas n. induction l as [|[nombre f] l IH]; intros tablas n.
  - cbn [cargar_archivos fst]. split; [intros H; left; exact H|].
    intros [H|(nombre & t & [] & _)]. exact H.
  - cbn [cargar_archivos]. destruct f as [| |t]; cbn [abrir_y_leer].
    + rewrite IH. split.
      * intros [H|(x & u & Hin & E)]; [left; exact H|].
        right. exists x, u. split; [right; exact Hin|exact E].
      * intros [H|(x & u & [Hin|Hin] & E)]; [left; exact H|discriminate Hin|].
        right. exists x, u. split; assumption.
    + rewrite IH. split.
      * intros [H|(x & u & Hin & E)]; [left; exact H|].
        right. exists x, u. split; [right; exact Hin|exact E].
      * intros [H|(x & u & [Hin|Hin] & E)]; [left; exact H|discriminate Hin|].
        right. exists x, u. split; assumption.
    + rewrite IH. fold (nombre_de_grupo nombre). split.
      * intros [H|(x & u & Hin & E)].
        -- destruct (decide (nombre_de_grupo nombre = k)) as [E|Hne].
           ++ right. exists nombre, t. split; [left; reflexivity|].
              symmetry. exact E.
           ++ left. rewrite lookup_insert_ne in H by exact Hne. exact H.
        -- right. exists x, u. split; [right; exact Hin|exact E].
      * intros [H|(x & u & [Hin|Hin] & E)].
        -- left. destruct (decide (nombre_de_grupo nombre = k)) as [<-|Hne].
           ++ rewrite lookup_insert_eq. eexists. reflexivity.
           ++ rewrite lookup_insert_ne by exact Hne. exact H.
        -- injection Hin as -> ->. left. subst k.
           rewrite lookup_insert_eq. eexists. reflexivity.
        -- right. exists x, u. split; assumption.
Qed.

Lemma cargar_archivos_cuenta (l : list (string * archivo tabla_grupo))
    (tablas : gmap string tabla_grupo) (n : nat) :
  (n <= snd (cargar_archivos l tablas n))%nat /\
  ((exists nombre t, In (nombre, Contenido t) l) ->
   (n < snd (cargar_archivos l tablas n))%nat).
Proof.
  revert tablas n. induction l as [|[nombre f] l IH]; intros tablas n.
  - cbn. split; [lia|]. intros (x & t & [] ).
  - cbn [cargar_archivos]. destruct f as [| |t]; cbn [abrir_y_leer].
    + destruct (IH tablas n) as [H1 H2]. split; [exact H1|].
      intros (x & u & [Hin|Hin]); [discriminate Hin|].
      apply H2. exists x, u. exact Hin.
    + destruct (IH tablas n) as [H1 H2]. split; [exact H1|].
      intros (x & u & [Hin|Hin]); [discriminate Hin|].
      apply H2. exists x, u. exact Hin.
    + destruct (IH (<[nombre_de_grupo nombre := t]> tablas) (S n)) as [H1 _].
      fold (nombre_de_grupo nombre). split; [lia|]. intros _. lia.
Qed.

(** X11. When at least one band file of the folder can be read,
    [cargar_tablas_completas] returns a dictionary whose keys are exactly
    the names of the readable files that end in [.json] and are not
    [INFO.json], with [.json] removed and every [_] turned into [:];
    unreadable files are skipped and the built-in default band is not
    added. *)
Theorem claves_de_las_tablas_cargadas
    (entradas : list (string * archivo tabla_grupo))
    (nombre0 : string) (t0 : tabla_grupo) :
  In (nombre0, Contenido t0) entradas ->
  es_archivo_de_tabla nombre0 = true ->
  exists tablas,
    cargar_tablas_completas (Carpeta entradas) = Ok tablas /\
    forall k,
      is_Some (tablas !! k) <->
      exists nombre t,
        In (nombre, Contenido t) entradas /\
        es_archivo_de_tabla nombre = true /\
        k = nombre_de_grupo nombre.
Proof.
  intros Hin0 Hn0. unfold cargar_tablas_completas. cbn [listdir ligar].
  set (ordenados := ordenar_por_clave _ _).
  assert (Hord : forall x, In x ordenados <->
                           In x entradas /\ es_archivo_de_tabla (fst x) = true).
  { intros x. unfold ordenados. rewrite In_ordenar_por_clave.
    rewrite <- !list_elem_of_In, list_elem_of_filter. tauto. }
  pose proof (cargar_archivos_claves ordenados ∅ 0) as Hk.
  pose proof (cargar_archivos_cuenta ordenados ∅ 0) as [_ Hc].
  destruct (cargar_archivos ordenados ∅ 0) as [tablas n] eqn:E.
  cbn [fst snd] in *.
  assert (Hpos : (0 < n)%nat).
  { apply Hc. exists nombre0, t0. apply Hord. split; assumption. }
  rewrite (proj2 (Nat.ltb_lt _ _) Hpos).
  exists tablas. split; [reflexivity|]. intros k. rewrite Hk. split.
  - intros [H|(x & u & Hin & Ek)].
    + rewrite lookup_empty in H. destruct H as [? H]. discriminate H.
    + apply Hord in Hin. destruct Hin as [Hin Hx].
      exists x, u. split; [exact Hin|]. split; [exact Hx|exact Ek].
  - intros (x & u & Hin & Hx & Ek). right. exists x, u.
    split; [|exact Ek]. apply Hord. split; assumption.
Qed.

End ArchivosCargados.

(** ** The patient file *)


Section FichaDePacientes.
Import BaseDatos Pacientes.

Lemma filter_todos {A : Type} (P : A -> Prop) `{forall x, Decision (P x)}
    (l : list A) :
  Forall P l -> filter P l = l.
Proof.
  induction 1 as [|x l Hx _ IH]; [reflexivity|].
  rewrite filter_cons_True by exact Hx. rewrite IH. reflexivity.
Qed.

Lemma NoDup_map_filter {A B : Type} (f : A -> B) (P : A -> Prop)
    `{forall x, Decision (P x)} (l : list A) :
  NoDup (map f l) -> NoDup (map f (filter P l)).
Proof.
  induction l as [|x l IH]; intros Hn; [constructor|].
  cbn [map] in Hn. apply NoDup_cons in Hn. destruct Hn as [Hx Hl].
  rewrite filter_cons. destruct (decide (P x)); [|exact (IH Hl)].
  cbn [map]. apply NoDup_cons. split; [|exact (IH Hl)].
  intros Hin. apply Hx. rewrite list_elem_of_In in *.
  apply in_map_iff in Hin. destruct Hin as (y & E & Hy).
  apply in_map_iff. exists y. split; [exact E|].
  rewrite <- list_elem_of_In in *. apply list_elem_of_filter in Hy. apply Hy.
Qed.

Lemma base_eta (db : base) :
  {| pacientes := pacientes db; evaluaciones := evaluaciones db |} = db.
Proof. destruct db. reflexivity. Qed.

(** X12. [eliminar_paciente] sends both statements whatever the outcome
    of the first: it returns [True] exactly when both were committed, yet
    the evaluations of the patient are gone as soon as either one was, so
    a [False] return can leave the patient without its evaluations; when
    neither was committed nothing changes, and deleting again changes
    nothing more. *)
Theorem eliminar_paciente_parcial (ok_eval ok_pac : bool) (id : string)
    (db : base) :
  let '(db', exito) := eliminar_paciente ok_eval ok_pac id db in
  exito = ok_eval && ok_pac /\
  (ok_eval || ok_pac = true ->
   evaluaciones db' = sin_evaluaciones_de id (evaluaciones db)) /\
  (ok_pac = false -> pacientes db' = pacientes db) /\
  (ok_pac = true ->
   pacientes db' = filter (fun p => p_id p ≠ id) (pacientes db)) /\
  (ok_eval || ok_pac = false -> db' = db) /\
  eliminar_paciente true true id (fst (eliminar_paciente true true id db)) =
    eliminar_paciente true true id db.
Proof.
  assert (Hidem : eliminar_paciente true true id
                    (fst (eliminar_paciente true true id db)) =
                  eliminar_paciente true true id db).
  { unfold eliminar_paciente, ejecutar_consulta, aplicar.
    cbn [fst pacientes evaluaciones andb].
    rewrite !sin_evaluaciones_de_idem.
    rewrite (list_filter_filter _ _ (pacientes db)).
    f_equal. f_equal. apply list_filter_iff. intros p. tauto. }
  set (Q := _ = eliminar_paciente true true id db) in *. clearbody Q.
  destruct ok_eval, ok_pac;
    unfold eliminar_paciente, ejecutar_consulta, aplicar;
    cbn [fst pacientes evaluaciones andb orb];
    rewrite ?sin_evaluaciones_de_idem;
    (split; [reflexivity|]);
    (split; [intros H; try discriminate H; reflexivity|]);
    (split; [intros H; try discriminate H; reflexivity|]);
    (split; [intros H; try discriminate H; reflexivity|]);
    (split; [intros H; try discriminate H; reflexivity|]);
    exact Hidem.
Qed.

Lemma find_por_id (l : list paciente) (p : paciente) (id : string) :
  id ∉ map p_id l -> p_id p = id ->
  List.find (fun q => bool_decide (p_id q = id)) (l ++ [p]) = Some p.
Proof.
  intros Hno Hp. induction l as [|a l IH]; cbn [app List.find].
  - rewrite bool_decide_eq_true_2 by exact Hp. reflexivity.
  - cbn [map] in Hno. apply not_elem_of_cons in Hno. destruct Hno as [Ha Hl].
    rewrite bool_decide_eq_false_2 by (intros E; apply Ha; symmetry; exact E).
    exact (IH Hl).
Qed.

Lemma find_otro_id (l : list paciente) (p : paciente) (id : string) :
  p_id p <> id ->
  List.find (fun q => bool_decide (p_id q = id)) (l ++ [p]) =
  List.find (fun q => bool_decide (p_id q = id)) l.
Proof.
  intros Hp. induction l as [|a l IH]; cbn [app List.find].
  - rewrite bool_decide_eq_false_2 by exact Hp. reflexivity.
  - destruct (bool_decide (p_id a = id)); [reflexivity|exact IH].
Qed.

(** X13. A patient that [agregar_paciente] reports as added is the one
    [obtener_paciente] returns for the new id, with the fields given, and
    the other ids read as before; when it returns [None] (SQLite raised,
    or the eight characters of the id were taken) the file is unchanged. *)
Theorem agregar_y_obtener_paciente (sqlite_ok : bool)
    (uuid8 ahora nombre : string) (dni : option string)
    (fecha_nacimiento : string) (notas : option string) (db : base) :
  let '(db', id_nuevo) :=
    agregar_paciente sqlite_ok uuid8 ahora nombre dni fecha_nacimiento notas
      db in
  match id_nuevo with
  | Some id =>
      id = uuid8 /\ sqlite_ok = true /\
      (uuid8 ∉ map p_id (pacientes db)) /\
      obtener_paciente true id db' =
        Some {| p_id := uuid8; p_nombre := nombre; p_dni := dni;
                p_fecha_nacimiento := fecha_nacimiento; p_notas := notas;
                p_fecha_registro := ahora |} /\
      (forall otro, otro <> id ->
         obtener_paciente true otro db' = obtener_paciente true otro db) /\
      evaluaciones db' = evaluaciones db
  | None =>
      db' = db /\ (sqlite_ok = false \/ uuid8 ∈ map p_id (pacientes db))
  end.
Proof.
  unfold agregar_paciente, insertar_paciente. cbn [p_id].
  destruct sqlite_ok; [|split; [reflexivity|left; reflexivity]].
  destruct (decide (uuid8 ∈ map p_id (pacientes db))) as [Hin|Hno].
  - split; [reflexivity|right; exact Hin].
  - split; [reflexivity|]. split; [reflexivity|]. split; [exact Hno|].
    unfold obtener_paciente. cbn [pacientes evaluaciones]. split.
    + apply find_por_id; [exact Hno|reflexivity].
    + split; [|reflexivity]. intros otro Hotro.
      apply find_otro_id. cbn [p_id]. congruence.
Qed.

(** X14. With foreign keys switched on in every connection,
    [agregar_evaluacion] returns [None] and stores nothing for a patient
    id that is not in the file, whatever the data; in particular for a
    patient that [eliminar_paciente] has just deleted. *)
Theorem evaluacion_sin_paciente (sqlite_ok : bool) (uuid8 ahora : string)
    (paciente_id : string) (primer_json segundo_json : option string)
    (db : base) :
  (paciente_id ∉ map p_id (pacientes db) ->
   agregar_evaluacion sqlite_ok uuid8 ahora paciente_id primer_json
     segundo_json db = (db, None)) /\
  agregar_evaluacion sqlite_ok uuid8 ahora paciente_id primer_json
    segundo_json (fst (eliminar_paciente true true paciente_id db)) =
    (fst (eliminar_paciente true true paciente_id db), None).
Proof.
  assert (H : forall db0, paciente_id ∉ map p_id (pacientes db0) ->
    agregar_evaluacion sqlite_ok uuid8 ahora paciente_id primer_json
      segundo_json db0 = (db0, None)).
  { intros db0 Hno. unfold agregar_evaluacion, insertar_evaluacion.
    cbn [e_id e_paciente_id].
    destruct primer_json as [j|]; [|destruct segundo_json as [j|]];
      try reflexivity;
      (destruct sqlite_ok; [|reflexivity]);
      (destruct (decide (uuid8 ∈ _)); [reflexivity|]);
      (destruct (decide (paciente_id ∈ _)); [contradiction|reflexivity]). }
  split; [apply H|]. apply H.
  unfold eliminar_paciente, ejecutar_consulta, aplicar.
  cbn [fst pacientes]. intros Hin.
  rewrite list_elem_of_In in Hin. apply in_map_iff in Hin.
  destruct Hin as (p & E & Hp). rewrite <- list_elem_of_In in Hp.
  apply list_elem_of_filter in Hp. destruct Hp as [Hne _]. contradiction.
Qed.

(** X15. [actualizar_paciente] reports success whenever the statement ran:
    for an id that no patient has it returns [True] and changes nothing.
    For an id that is in the file, the patient read back has the new
    fields, its id and its registration date kept. *)
Theorem actualizar_paciente_inexistente (paciente_id nombre : string)
    (dni : option string) (fecha_nacimiento : string) (notas : option string)
    (db : base) :
  (paciente_id ∉ map p_id (pacientes db) ->
   actualizar_paciente true paciente_id nombre dni fecha_nacimiento notas db
   = (db, true)) /\
  (forall p, obtener_paciente true paciente_id db = Some p ->
     obtener_paciente true paciente_id
       (fst (actualizar_paciente true paciente_id nombre dni
               fecha_nacimiento notas db)) =
       Some {| p_id := paciente_id; p_nombre := nombre; p_dni := dni;
               p_fecha_nacimiento := fecha_nacimiento; p_notas := notas;
               p_fecha_registro := p_fecha_registro p |}).
Proof.
  split.
  - intros Hno. unfold actualizar_paciente.
    match goal with
    | |- ({| pacientes := map ?g _; evaluaciones := _ |}, _) = _ =>
        assert (E : map g (pacientes db) = pacientes db)
    end.
    { induction (pacientes db) as [|a l IH]; [reflexivity|].
      cbn [map] in *. apply not_elem_of_cons in Hno. destruct Hno as [Ha Hl].
      rewrite bool_decide_eq_false_2 by (intros E; apply Ha; symmetry; exact E).
      rewrite (IH Hl). reflexivity. }
    rewrite E, base_eta. reflexivity.
  - intros p. unfold obtener_paciente, actualizar_paciente.
    cbn [fst pacientes].
    induction (pacientes db) as [|a l IH]; [discriminate|].
    cbn [map List.find].
    destruct (bool_decide (p_id a = paciente_id)) eqn:Ea.
    + intros H. injection H as <-. cbn [p_id].
      apply bool_decide_eq_true_1 in Ea.
      rewrite bool_decide_eq_true_2 by exact Ea. rewrite Ea. reflexivity.
    + rewrite Ea. exact IH.
Qed.

Lemma integra_sin_evaluaciones (id : string) (db : base) :
  integra db ->
  integra {| pacientes := pacientes db;
             evaluaciones := sin_evaluaciones_de id (evaluaciones db) |}.
Proof.
  intros (Hp & He & Hf). unfold integra. cbn [pacientes evaluaciones].
  split; [exact Hp|]. split.
  - apply NoDup_map_filter. exact He.
  - unfold sin_evaluaciones_de. rewrite List.Forall_forall in *.
    intros e Hin. apply Hf. rewrite <- list_elem_of_In in *.
    apply list_elem_of_filter in Hin. apply Hin.
Qed.

Lemma integra_sin_paciente (id : string) (db : base) :
  integra db ->
  integra {| pacientes := filter (fun p => p_id p ≠ id) (pacientes db);
             evaluaciones := sin_evaluaciones_de id (evaluaciones db) |}.
Proof.
  intros (Hp & He & Hf). unfold integra. cbn [pacientes evaluaciones].
  split; [apply NoDup_map_filter; exact Hp|]. split.
  - apply NoDup_map_filter. exact He.
  - unfold sin_evaluaciones_de. rewrite List.Forall_forall in *.
    intros e Hin. rewrite <- list_elem_of_In in Hin.
    apply list_elem_of_filter in Hin. destruct Hin as [Hne Hin].
    rewrite list_elem_of_In in Hin. specialize (Hf e Hin).
    rewrite list_elem_of_In in *. apply in_map_iff in Hf.
    destruct Hf as (p & E & Hpin). apply in_map_iff. exists p.
    split; [exact E|]. rewrite <- list_elem_of_In in *.
    apply list_elem_of_filter. split; [congruence|exact Hpin].
Qed.

(** X16. The primary keys and the foreign key are kept by every writing
    operation: from a file where patient ids and evaluation ids are
    unique and every evaluation belongs to a patient of the file,
    [agregar_paciente], [actualizar_paciente], [agregar_evaluacion] and
    [eliminar_paciente] lead to such a file again, whether they succeed
    or fail. *)
Theorem operaciones_integras (db : base) (sqlite_ok ok_eval ok_pac : bool)
    (uuid8 ahora nombre id fecha_nacimiento : string)
    (dni notas primer_json segundo_json : option string) :
  integra db ->
  integra (fst (agregar_paciente sqlite_ok uuid8 ahora nombre dni
                  fecha_nacimiento notas db)) /\
  integra (fst (actualizar_paciente sqlite_ok id nombre dni
                  fecha_nacimiento notas db)) /\
  integra (fst (agregar_evaluacion sqlite_ok uuid8 ahora id primer_json
                  segundo_json db)) /\
  integra (fst (eliminar_paciente ok_eval ok_pac id db)).
Proof.
  intros Hdb. pose proof Hdb as (Hp & He & Hf).
  split; [|split; [|split]].
  - unfold agregar_paciente, insertar_paciente. cbn [p_id].
    destruct sqlite_ok; [|exact Hdb].
    destruct (decide (uuid8 ∈ map p_id (pacientes db))) as [Hin|Hno];
      [exact Hdb|].
    unfold integra. cbn [fst pacientes evaluaciones].
    rewrite List.map_app. cbn [map p_id]. split; [|split; [exact He|]].
    + apply NoDup_app. split; [exact Hp|]. split; [|apply NoDup_singleton].
      intros x Hx Hx'. apply list_elem_of_singleton in Hx'. subst x.
      exact (Hno Hx).
    + apply (List.Forall_impl _ (fun e (H : e_paciente_id e ∈ map p_id (pacientes db)) => proj2 (elem_of_app _ _ _) (or_introl H)) Hf).
  - unfold actualizar_paciente. destruct sqlite_ok; [|exact Hdb].
    unfold integra. cbn [fst pacientes evaluaciones].
    match goal with
    | |- context [map p_id (map ?g (pacientes db))] =>
        assert (E : map p_id (map g (pacientes db)) = map p_id (pacientes db))
    end.
    { rewrite List.map_map. apply List.map_ext. intros p.
      destruct (bool_decide (p_id p = id)); reflexivity. }
    rewrite E. split; [exact Hp|split; [exact He|exact Hf]].
  - unfold agregar_evaluacion, insertar_evaluacion.
    cbn [e_id e_paciente_id].
    assert (Hins : forall j,
      integra (fst (if sqlite_ok then
         match (if decide (uuid8 ∈ map e_id (evaluaciones db)) then None
                else if decide (id ∈ map p_id (pacientes db))
                then Some {| pacientes := pacientes db;
                             evaluaciones := evaluaciones db ++
                               [{| e_id := uuid8; e_paciente_id := id;
                                   e_fecha_evaluacion := ahora;
                                   e_datos_evaluacion := j |}] |}
                else None) with
         | Some db' => (db', Some uuid8)
         | None => (db, None)
         end else (db, None)))).
    { intros j. destruct sqlite_ok; [|exact Hdb].
      destruct (decide (uuid8 ∈ _)) as [|Hno]; [exact Hdb|].
      destruct (decide (id ∈ _)) as [Hin|]; [|exact Hdb].
      unfold integra. cbn [fst pacientes evaluaciones].
      split; [exact Hp|]. rewrite List.map_app. cbn [map e_id]. split.
      - apply NoDup_app. split; [exact He|]. split; [|apply NoDup_singleton].
        intros x Hx Hx'. apply list_elem_of_singleton in Hx'. subst x.
        exact (Hno Hx).
      - apply Forall_app. split; [exact Hf|].
        constructor; [exact Hin|constructor]. }
    destruct primer_json as [j|]; [apply Hins|].
    destruct segundo_json as [j|]; [apply Hins|exact Hdb].
  - unfold eliminar_paciente, ejecutar_consulta, aplicar.
    destruct ok_eval, ok_pac; cbn [fst pacientes evaluaciones].
    + rewrite sin_evaluaciones_de_idem. apply integra_sin_paciente. exact Hdb.
    + apply integra_sin_evaluaciones. exact Hdb.
    + apply integra_sin_paciente. exact Hdb.
    + exact Hdb.
Qed.

End FichaDePacientes.

(** ** The score form *)


Section Formulario.
Import Converter Lectura Interfaz.

Lemma partir_sin_separador (sep : ascii) (s : string) :
  contiene_caracter sep s = false -> partir sep s = [s].
Proof.
  induction s as [|c s IH]; [reflexivity|].
  cbn [contiene_caracter partir]. intros H. apply orb_false_elim in H.
  destruct H as [Hc Hs]. rewrite Hc, (IH Hs). reflexivity.
Qed.

Lemma partir_en_el_separador (sep : ascii) (a b : string) :
  contiene_caracter sep a = false ->
  partir sep (a ++ String sep b) = a :: partir sep b.
Proof.
  induction a as [|c a IH].
  - intros _. change (String.append "" (String sep b)) with (String sep b).
    cbn [partir]. rewrite Ascii.eqb_refl. reflexivity.
  - change (String.append (String c a) (String sep b))
      with (String c (String.append a (String sep b))).
    cbn [contiene_caracter partir].
    intros H. apply orb_false_elim in H. destruct H as [Hc Ha].
    rewrite Hc, (IH Ha). reflexivity.
Qed.

Lemma cifras_sin_dos_puntos (d : Decimal.uint) :
  contiene_caracter dos_puntos (NilEmpty.string_of_uint d) = false.
Proof.
  induction d; cbn [NilEmpty.string_of_uint contiene_caracter];
    try reflexivity; exact IHd.
Qed.

Lemma texto_de_entero_sin_dos_puntos (n : Z) :
  contiene_caracter dos_puntos (texto_de_entero n) = false.
Proof.
  unfold texto_de_entero, py_str, NilZero.string_of_int, Z.to_int.
  destruct n as [|p|p]; [reflexivity| |];
    unfold NilZero.string_of_uint;
    pose proof (cifras_sin_dos_puntos (Pos.to_uint p)) as H;
    destruct (Pos.to_uint p); try reflexivity;
    cbn [contiene_caracter]; exact H.
Qed.

Lemma cifras_o_cero_sin_espacios (d : Decimal.uint) :
  Forall (fun c => es_espacio c = false)
         (list_ascii_of_string (NilZero.string_of_uint d)).
Proof.
  destruct d; [repeat constructor|..]; apply cifras_sin_espacios.
Qed.

Lemma texto_de_entero_sin_espacios (n : Z) :
  Forall (fun c => es_espacio c = false)
         (list_ascii_of_string (texto_de_entero n)).
Proof.
  unfold texto_de_entero, py_str, NilZero.string_of_int, Z.to_int.
  destruct n as [|p|p].
  - repeat constructor.
  - apply cifras_o_cero_sin_espacios.
  - cbn [list_ascii_of_string]. constructor; [reflexivity|].
    apply cifras_o_cero_sin_espacios.
Qed.

Lemma strip_id (s : string) :
  Forall (fun c => es_espacio c = false) (list_ascii_of_string s) ->
  strip s = s.
Proof.
  intros H. unfold strip. rewrite (quitar_espacios_id _ H).
  apply string_of_list_ascii_of_string.
Qed.

(** The text of an integer starts with a digit or with the minus sign. *)
Lemma texto_de_entero_cabeza (n : Z) :
  exists c s, texto_de_entero n = String c s /\
              In c ["0"; "1"; "2"; "3"; "4"; "5"; "6"; "7"; "8"; "9";
                    "-"]%char.
Proof.
  unfold texto_de_entero, py_str, NilZero.string_of_int, Z.to_int.
  destruct n as [|p|p].
  - exists "0"%char, "". split; [reflexivity|]. cbn. tauto.
  - unfold NilZero.string_of_uint.
    destruct (Pos.to_uint p); cbn [NilEmpty.string_of_uint];
      eexists; eexists; (split; [reflexivity|]); cbn; tauto.
  - eexists; eexists. split; [reflexivity|]. cbn. tauto.
Qed.

Lemma leer_etiqueta_de_entero (n : Z) :
  leer_etiqueta (texto_de_entero n) = Some n.
Proof.
  unfold leer_etiqueta.
  rewrite (strip_id _ (texto_de_entero_sin_espacios n)).
  change (py_int (texto_de_entero n)) with (py_int (py_str (JEntero n))).
  rewrite py_int_py_str.
  destruct (texto_de_entero_cabeza n) as (c & s & -> & Hc).
  cbn [In] in Hc.
  repeat (destruct Hc as [<-|Hc]; [reflexivity|]). destruct Hc.
Qed.

(** X17. The age [calcular_edad_actual] stores as ["years:months"] is read
    back by the converter as those years and months, and the warning of
    an age out of range is shown exactly when the converter will refuse
    the age: without warning the age resolves to a band, with a warning
    every conversion raises the out-of-range [ValueError]. *)
Theorem edad_guardada_y_convertida (nacimiento : Z * Z * Z)
    (diferencia : relativedelta) :
  let '(e, aviso) := guardar_edad nacimiento diferencia in
  leer_edad (edad_formato e) = Ok (years diferencia, months diferencia) /\
  (aviso = None <->
   exists g, _convertir_edad_a_grupo (edad_formato e) = Ok g) /\
  (aviso <> None ->
   forall d sub p,
     convertir_puntaje d (edad_formato e) sub p =
       Error (ValueError (ErrorConvertirEdad EdadFueraDeRango))).
Proof.
  unfold guardar_edad. cbn [edad_formato edad_meses].
  set (y := years diferencia). set (m := months diferencia).
  set (t := y * 12 + m).
  assert (Hleer : leer_edad (texto_de_entero y ++ ":" ++ texto_de_entero m)%string
                  = Ok (y, m)).
  { unfold leer_edad.
    change (":" ++ texto_de_entero m)%string
      with (String dos_puntos (texto_de_entero m)).
    rewrite (partir_en_el_separador _ _ _ (texto_de_entero_sin_dos_puntos y)).
    rewrite (partir_sin_separador _ _ (texto_de_entero_sin_dos_puntos m)).
    unfold texto_de_entero. rewrite !py_int_py_str. reflexivity. }
  pose proof (convertir_edad_leida _ y m Hleer) as Hconv. fold t in Hconv.
  split; [exact Hleer|].
  assert (Hdentro : 72 <= t <= 203 ->
                    exists g, _convertir_edad_a_grupo
                                (texto_de_entero y ++ ":" ++ texto_de_entero m)%string
                              = Ok g).
  { intros Ht. destruct (grupos_cubren t Ht) as (g & Hin & Hg).
    exists (grupo_id g). rewrite Hconv.
    rewrite (buscar_grupo_primero grupos t g Hin Hg); [reflexivity|].
    intros g' Hin' Hg'. exact (grupos_disjuntos t g g' Hin Hin' Hg Hg'). }
  assert (Hfuera : ~ 72 <= t <= 203 ->
                   _convertir_edad_a_grupo
                     (texto_de_entero y ++ ":" ++ texto_de_entero m)%string
                   = Error (ValueError (ErrorConvertirEdad EdadFueraDeRango))).
  { intros Ht. rewrite Hconv, buscar_grupo_ninguno; [reflexivity|].
    intros g Hin. destruct (en_grupo t g) eqn:Hg; [|reflexivity].
    pose proof (grupos_dentro t g Hin Hg). lia. }
  destruct (Z.ltb_spec t 72) as [H1|H1].
  - split.
    + split; [discriminate|]. intros [g Hg].
      rewrite Hfuera in Hg by lia. discriminate Hg.
    + intros _ d sub p. unfold convertir_puntaje.
      rewrite Hfuera by lia. reflexivity.
  - destruct (t >? 203) eqn:H2.
    + rewrite Z.gtb_ltb in H2. apply Z.ltb_lt in H2. split.
      * split; [discriminate|]. intros [g Hg].
        rewrite Hfuera in Hg by lia. discriminate Hg.
      * intros _ d sub p. unfold convertir_puntaje.
        rewrite Hfuera by lia. reflexivity.
    + rewrite Z.gtb_ltb in H2. apply Z.ltb_ge in H2. split.
      * split; [intros _; apply Hdentro; lia|reflexivity].
      * intros H. congruence.
Qed.

(** X18. The label [calcular_puntajes] writes for a subtest is read back
    by [calcular_puntajes_compuestos] as the scaled score exactly when
    the entry held an integer that the converter accepted: an empty
    entry, a text that is not an integer and a score the converter
    refuses (labels [""], ["Inválido"], ["Error"]) contribute no score. *)
Theorem etiqueta_leida (conversor : datos)
    (edad subprueba entrada : string) :
  leer_etiqueta (etiqueta_de conversor edad subprueba entrada) =
    if String.eqb (strip entrada) "" then None
    else match (let* puntaje_bruto := py_int (strip entrada) in
                convertir_puntaje conversor edad subprueba puntaje_bruto) with
         | Ok puntaje_escala => Some puntaje_escala
         | Error _ => None
         end.
Proof.
  unfold etiqueta_de.
  destruct (String.eqb (strip entrada) ""); [reflexivity|].
  destruct (ligar _ _) as [n|e].
  - apply leer_etiqueta_de_entero.
  - destruct (es_ValueError e); reflexivity.
Qed.

Lemma puntajes_escalares_sin_clave (etiquetas : list (string * string))
    (acc : gmap string Z) (k : string) :
  k ∉ map fst etiquetas ->
  puntajes_escalares_de etiquetas acc !! k = acc !! k.
Proof.
  revert acc. induction etiquetas as [|[sub texto] l IH]; intros acc Hno;
    [reflexivity|].
  cbn [map fst] in Hno. apply not_elem_of_cons in Hno. destruct Hno as [Hk Hl].
  cbn [puntajes_escalares_de]. rewrite (IH _ Hl).
  destruct (leer_etiqueta texto); [|reflexivity].
  apply lookup_insert_ne. congruence.
Qed.

Lemma puntajes_escalares_de_clave (etiquetas : list (string * string))
    (acc : gmap string Z) (k texto : string) :
  NoDup (map fst etiquetas) -> In (k, texto) etiquetas ->
  puntajes_escalares_de etiquetas acc !! k =
    match leer_etiqueta texto with
    | Some n => Some n
    | None => acc !! k
    end.
Proof.
  revert acc. induction etiquetas as [|[sub t] l IH]; intros acc Hn Hin;
    [destruct Hin|].
  cbn [map fst] in Hn. apply NoDup_cons in Hn. destruct Hn as [Hsub Hl].
  cbn [puntajes_escalares_de]. destruct Hin as [E|Hin].
  - injection E as -> ->. rewrite (puntajes_escalares_sin_clave _ _ _ Hsub).
    destruct (leer_etiqueta texto); [apply lookup_insert_eq|reflexivity].
  - rewrite (IH _ Hl Hin). destruct (leer_etiqueta texto); [reflexivity|].
    destruct (leer_etiqueta t); [|reflexivity].
    apply lookup_insert_ne. intros ->. apply Hsub.
    rewrite list_elem_of_In. apply in_map_iff. exists (k, texto).
    split; [reflexivity|exact Hin].
Qed.

(** X19. An index is computed from the subtests that have a score, not
    from all of them: when one of its two subtests has an accepted score
    [n] and the label of the other holds no score (empty, ["Inválido"] or
    ["Error"]), the row shows the sum [n] and the composite of the sum
    [n] alone. (The total scale, by contrast, needs its seven scores.) *)
Theorem indice_con_un_solo_puntaje
    (tablas : gmap string Compuestos.tabla_escala)
    (nivel escala abreviatura a b ta tb : string) (n : Z)
    (etiquetas : list (string * string)) (previa : fila_mostrada)
    (r : Compuestos.conversion) :
  NoDup (map fst etiquetas) ->
  In (a, ta) etiquetas -> In (b, tb) etiquetas ->
  leer_etiqueta ta = Some n -> leer_etiqueta tb = None ->
  buscar_clave escala mapeo_escalas_json = Some abreviatura ->
  Compuestos.convertir_compuesto tablas abreviatura n = Ok r ->
  let puntajes_escalares := puntajes_escalares_de etiquetas ∅ in
  puntajes_escalares !! a = Some n /\ puntajes_escalares !! b = None /\
  fila_compuesta tablas nivel escala [a; b] puntajes_escalares previa =
    {| texto_suma := texto_de_entero n;
       texto_compuesto := texto_de_entero (Compuestos.compuesto r);
       color_compuesto := obtener_color_puntaje (Compuestos.compuesto r);
       texto_percentil := (py_str (Compuestos.r_percentil r) ++ "%")%string;
       texto_confianza :=
         if String.eqb nivel "90%" then Compuestos.r_conf_90 r
         else Compuestos.r_conf_95 r |} /\
  fila_compuesta tablas nivel escala [b; a] puntajes_escalares previa =
  fila_compuesta tablas nivel escala [a; b] puntajes_escalares previa.
Proof.
  intros Hn Ha Hb Hta Htb Hescala Hr puntajes_escalares.
  assert (Ea : puntajes_escalares !! a = Some n).
  { unfold puntajes_escalares.
    rewrite (puntajes_escalares_de_clave _ _ a ta Hn Ha), Hta. reflexivity. }
  assert (Eb : puntajes_escalares !! b = None).
  { unfold puntajes_escalares.
    rewrite (puntajes_escalares_de_clave _ _ b tb Hn Hb), Htb.
    apply lookup_empty. }
  split; [exact Ea|]. split; [exact Eb|].
  assert (E1 : omap (fun s => puntajes_escalares !! s) [a; b] = [n]).
  { cbn. rewrite Ea, Eb. reflexivity. }
  assert (E2 : omap (fun s => puntajes_escalares !! s) [b; a] = [n]).
  { cbn. rewrite Ea, Eb. reflexivity. }
  unfold fila_compuesta. rewrite E1, E2, Hescala.
  cbn [fold_left]. change (0 + n) with n. rewrite Hr.
  split; reflexivity.
Qed.

Lemma buscar_clave_map {A B : Type} (F : string -> A -> B)
    (l : list (string * A)) (k : string) :
  buscar_clave k (map (fun '(e, d) => (e, F e d)) l) =
    F k <$> buscar_clave k l.
Proof.
  induction l as [|[e d] l IH]; [reflexivity|].
  cbn [map buscar_clave]. destruct (String.eqb e k) eqn:E; [|exact IH].
  apply String.eqb_eq in E. subst e. reflexivity.
Qed.

Lemma puntajes_escalares_no_vacio (etiquetas : list (string * string))
    (acc : gmap string Z) :
  acc <> ∅ -> puntajes_escalares_de etiquetas acc <> ∅.
Proof.
  revert acc. induction etiquetas as [|[sub texto] l IH]; intros acc Hacc;
    [exact Hacc|].
  cbn [puntajes_escalares_de]. apply IH.
  destruct (leer_etiqueta texto); [apply insert_non_empty|exact Hacc].
Qed.

Lemma puntajes_escalares_con_puntaje (etiquetas : list (string * string))
    (acc : gmap string Z) (sub texto : string) (n : Z) :
  In (sub, texto) etiquetas -> leer_etiqueta texto = Some n ->
  puntajes_escalares_de etiquetas acc <> ∅.
Proof.
  revert acc. induction etiquetas as [|[s t] l IH]; intros acc Hin Hn;
    [destruct Hin|].
  cbn [puntajes_escalares_de]. destruct Hin as [E|Hin].
  - injection E as -> ->. rewrite Hn.
    apply puntajes_escalares_no_vacio, insert_non_empty.
  - apply (IH _ Hin Hn).
Qed.

Lemma puntajes_escalares_sin_puntajes (etiquetas : list (string * string))
    (acc : gmap string Z) :
  (forall sub texto, In (sub, texto) etiquetas -> leer_etiqueta texto = None) ->
  puntajes_escalares_de etiquetas acc = acc.
Proof.
  revert acc. induction etiquetas as [|[s t] l IH]; intros acc H;
    [reflexivity|].
  cbn [puntajes_escalares_de]. rewrite (H s t (or_introl eq_refl)).
  apply IH. intros sub texto Hin. apply (H sub texto). right. exact Hin.
Qed.

Lemma fila_calculada_de_indice (tablas : gmap string Compuestos.tabla_escala)
    (tabla_cit : CIT.json_cit) (nivel : string)
    (etiquetas : list (string * string)) (ui : resultados) (escala : string)
    (datos : resultado_compuesto) :
  puntajes_escalares_de etiquetas ∅ <> ∅ ->
  buscar_clave escala (labels_resultados_compuestos ui) = Some datos ->
  buscar_clave escala
    (labels_resultados_compuestos
       (calcular_puntajes_compuestos tablas tabla_cit nivel etiquetas ui)) =
    Some (fila_calculada tablas tabla_cit nivel
            (puntajes_escalares_de etiquetas ∅) escala datos).
Proof.
  intros Hp Hd. unfold calcular_puntajes_compuestos.
  destruct (decide (puntajes_escalares_de etiquetas ∅ = ∅)) as [E|_];
    [contradiction|].
  cbn [labels_resultados_compuestos].
  rewrite (buscar_clave_map
             (fun e d => fila_calculada tablas tabla_cit nivel
                           (puntajes_escalares_de etiquetas ∅) e d)).
  rewrite Hd. reflexivity.
Qed.

Lemma recolectar_fila_compuesta
    (tablas : gmap string Compuestos.tabla_escala)
    (nivel escala : string) (subtests_escala : list string)
    (puntajes_escalares : gmap string Z) (previa : fila_mostrada) :
  recolectar_compuesto
    (fila_compuesta tablas nivel escala subtests_escala puntajes_escalares
       previa) =
  match omap (fun s => puntajes_escalares !! s) subtests_escala with
  | [] => None
  | disponibles =>
      match buscar_clave escala mapeo_escalas_json with
      | Some abreviatura =>
          match Compuestos.convertir_compuesto tablas abreviatura
                  (fold_left Z.add disponibles 0) with
          | Ok r =>
              Some {| suma_escalar :=
                        texto_de_entero (fold_left Z.add disponibles 0);
                      g_compuesto := Compuestos.compuesto r;
                      g_percentil :=
                        (py_str (Compuestos.r_percentil r) ++ "%")%string;
                      intervalo_confianza :=
                        if String.eqb nivel "90%"
                        then Compuestos.r_conf_90 r
                        else Compuestos.r_conf_95 r |}
          | Error _ => None
          end
      | None => None
      end
  end.
Proof.
  unfold fila_compuesta.
  destruct (omap _ subtests_escala) as [|x l]; [reflexivity|].
  destruct (buscar_clave escala mapeo_escalas_json) as [abreviatura|];
    [|reflexivity].
  destruct (Compuestos.convertir_compuesto _ _ _) as [r|e]; [|reflexivity].
  unfold recolectar_compuesto.
  cbn [texto_compuesto texto_suma texto_percentil texto_confianza].
  rewrite (strip_id _ (texto_de_entero_sin_espacios _)).
  change (py_int (texto_de_entero (Compuestos.compuesto r)))
    with (py_int (py_str (JEntero (Compuestos.compuesto r)))).
  rewrite py_int_py_str.
  destruct (texto_de_entero_cabeza (Compuestos.compuesto r))
    as (c & s & -> & _).
  reflexivity.
Qed.

(** X20. After [calcular_puntajes_compuestos] ran with at least one
    scaled score on the form, what [recolectar_datos_evaluacion] stores
    for an index is what was computed for it: the composite read back
    from the label is the one the converter returned, with the sum,
    percentile and interval shown, and for a row that was cleared (no
    score among its subtests, no table for the index, or a conversion
    that raised) nothing is stored. Without any scaled score on the form
    the method returns before its loop, and the table of results and the
    values kept for the chart are what they were. *)
Theorem compuesto_guardado_es_el_calculado
    (tablas : gmap string Compuestos.tabla_escala)
    (tabla_cit : CIT.json_cit) (nivel : string)
    (etiquetas : list (string * string)) (ui : resultados) (escala : string)
    (datos : resultado_compuesto) :
  buscar_clave escala (labels_resultados_compuestos ui) = Some datos ->
  escala <> "Escala Total (CIT)" ->
  let puntajes_escalares := puntajes_escalares_de etiquetas ∅ in
  let ui' :=
    calcular_puntajes_compuestos tablas tabla_cit nivel etiquetas ui in
  (puntajes_escalares = ∅ -> ui' = ui) /\
  (puntajes_escalares <> ∅ ->
   exists datos',
     buscar_clave escala (labels_resultados_compuestos ui') = Some datos' /\
     subtests datos' = subtests datos /\
     abreviatura datos' = abreviatura datos /\
     labels datos' =
       fila_compuesta tablas nivel escala (subtests datos)
         puntajes_escalares (labels datos) /\
     recolectar_compuesto (labels datos') =
       match omap (fun s => puntajes_escalares !! s) (subtests datos) with
       | [] => None
       | disponibles =>
           match buscar_clave escala mapeo_escalas_json with
           | Some abreviatura_json =>
               match Compuestos.convertir_compuesto tablas abreviatura_json
                       (fold_left Z.add disponibles 0) with
               | Ok r =>
                   Some {| suma_escalar :=
                             texto_de_entero (fold_left Z.add disponibles 0);
                           g_compuesto := Compuestos.compuesto r;
                           g_percentil :=
                             (py_str (Compuestos.r_percentil r) ++ "%")%string;
                           intervalo_confianza :=
                             if String.eqb nivel "90%"
                             then Compuestos.r_conf_90 r
                             else Compuestos.r_conf_95 r |}
               | Error _ => None
               end
           | None => None
           end
       end).
Proof.
  intros Hd Hescala puntajes_escalares ui'. split.
  - intros E. unfold ui', calcular_puntajes_compuestos.
    fold puntajes_escalares.
    destruct (decide (puntajes_escalares = ∅)); [reflexivity|contradiction].
  - intros Hp.
    exists (fila_calculada tablas tabla_cit nivel puntajes_escalares escala
              datos).
    split; [exact (fila_calculada_de_indice _ _ _ _ _ _ _ Hp Hd)|].
    split; [reflexivity|]. split; [reflexivity|].
    assert (E : labels (fila_calculada tablas tabla_cit nivel
                          puntajes_escalares escala datos) =
                fila_compuesta tablas nivel escala (subtests datos)
                  puntajes_escalares (labels datos)).
    { cbn [fila_calculada labels].
      destruct (String.eqb escala "Escala Total (CIT)") eqn:Ee;
        [|reflexivity].
      apply String.eqb_eq in Ee. contradiction. }
    split; [exact E|]. rewrite E. apply recolectar_fila_compuesta.
Qed.

Lemma compuesto_guardado_es_el_calculado_testigo :
  exists datos',
    buscar_clave "Comprensión Verbal (ICV)"
      (labels_resultados_compuestos
         (calcular_puntajes_compuestos Ejemplos.tablas_icv Ejemplos.tabla_cit
            "95%" Muestras.etiquetas_del_formulario
            Muestras.resultados_iniciales)) = Some datos' /\
    recolectar_compuesto (labels datos') =
      Some {| suma_escalar := "10"; g_compuesto := 100;
              g_percentil := "50%"; intervalo_confianza := "93-107" |}.
Proof.
  destruct (compuesto_guardado_es_el_calculado Ejemplos.tablas_icv
              Ejemplos.tabla_cit "95%" Muestras.etiquetas_del_formulario
              Muestras.resultados_iniciales "Comprensión Verbal (ICV)"
              {| labels := fila_limpia "black"; subtests := ["AN"; "VOC"];
                 abreviatura := "ICV" |})
    as [_ H].
  - reflexivity.
  - discriminate.
  - destruct H as (datos' & E1 & _ & _ & _ & E2).
    + intros E. apply (f_equal (fun m => m !! "AN")) in E.
      vm_compute in E. discriminate E.
    + exists datos'. split; [exact E1|]. rewrite E2.
      vm_compute. reflexivity.
Defined.

End Formulario.

(** ** The accuracy of the interpolation *)

Lemma redondea_pos_error (x y : R) :
  (0 < x)%R -> redondea_pos x y ->
  (- (bpow (-53) * (x + 1)) <= y - x <= bpow (-53) * (x + 1))%R.
Proof.
  intros Hx (c & k & Hc & [Hk _] & ->).
  pose proof (bpow_gt_0 c) as Hbc. pose proof (bpow_gt_0 (-53)) as He.
  assert (Hinv : (bpow (- c) * bpow c = 1)%R).
  { rewrite <- bpow_plus. replace (- c + c) with 0 by lia. apply bpow_0. }
  assert (Hmed : (- (bpow c / 2) <= IZR k * bpow c - x <= bpow c / 2)%R).
  { set (u := (x * bpow (- c))%R) in *.
    assert (Hu : (x = u * bpow c)%R).
    { unfold u. rewrite Rmult_assoc, Hinv. lra. }
    rewrite Hu. nra. }
  assert (Hc2 : (bpow c / 2 <= bpow (-53) * (x + 1))%R).
  { destruct Hc as [[-> _]|[Hc1 [Hc2 _]]].
    - pose proof (bpow_le (-1074) (-53) ltac:(lia)). nra.
    - assert (E : (bpow c / 2 = bpow (c + 52) * bpow (-53))%R).
      { rewrite <- bpow_plus, <- bpow_pred. f_equal. lia. }
      rewrite E. nra. }
  lra.
Qed.

Lemma redondea_error (x y M : R) :
  redondea x y -> (- M <= x <= M)%R ->
  (- (bpow (-53) * (M + 1)) <= y - x <= bpow (-53) * (M + 1))%R.
Proof.
  intros H HM. pose proof (bpow_gt_0 (-53)) as He.
  destruct H as [[-> ->]|[[Hx H]|[Hx H]]].
  - nra.
  - pose proof (redondea_pos_error x y Hx H). nra.
  - pose proof (redondea_pos_error (- x) (- y) ltac:(lra) H). nra.
Qed.

Lemma epsilon_cota :
  (bpow (-53) * IZR (2 ^ 24) = bpow (-29))%R /\ (bpow (-29) < / 4)%R.
Proof.
  split.
  - rewrite (IZR_pow2 24) by lia. rewrite <- bpow_plus. reflexivity.
  - assert (E : (bpow (-29) * bpow 29 = 1)%R).
    { rewrite <- bpow_plus. apply bpow_0. }
    rewrite (bpow_IZR 29) in E by lia.
    assert (H : (4 < IZR (2 ^ 29))%R) by (apply IZR_lt; reflexivity).
    pose proof (bpow_gt_0 (-29)). apply Rmult_lt_reg_r with (IZR (2 ^ 29)); nra.
Qed.


Lemma interpolacion_error (si vi ss vs s k : Z) :
  si <= s <= ss -> si < ss -> Z.abs vi < 2 ^ 20 -> Z.abs vs < 2 ^ 20 ->
  interpolacion_redondeada si vi ss vs s k ->
  (- (/ 2 + bpow (-29)) <= IZR k - interpolacion_exacta si vi ss vs s
   <= / 2 + bpow (-29))%R.
Proof.
  intros Hs Hss Hvi Hvs (ratio & p & w & Hr & Hp & Hw & [Hk _]).
  unfold interpolacion_exacta.
  pose proof (cociente_unidad (s - si) (ss - si) ltac:(lia) ltac:(lia))
    as [Hu0 Hu1].
  set (u := (IZR (s - si) / IZR (ss - si))%R) in *.
  set (D := IZR (vs - vi)) in *.
  pose proof (bpow_gt_0 (-53)) as He.
  destruct epsilon_cota as [E24 _].
  assert (H24 : IZR (2 ^ 24) = 16777216%R) by reflexivity.
  assert (Hr0 : (0 <= ratio)%R) by (eapply redondea_nonneg; eassumption).
  assert (Hr1 : (ratio <= 1)%R).
  { apply (redondea_mono _ _ _ _ Hu1 Hr).
    apply (redondea_de_entero 1). reflexivity. }
  assert (HD : (- 2097152 <= D <= 2097152)%R).
  { unfold D. split; [apply (IZR_le (-2097152))|apply (IZR_le _ 2097152)];
      change (2 ^ 20) with 1048576 in *; lia. }
  assert (Hv : (- 1048576 <= IZR vi <= 1048576)%R).
  { split; [apply (IZR_le (-1048576))|apply (IZR_le _ 1048576)];
      change (2 ^ 20) with 1048576 in *; lia. }
  pose proof (redondea_error _ _ 1 Hr ltac:(lra)) as Er.
  assert (HrD : (- 2097152 <= ratio * D <= 2097152)%R) by nra.
  pose proof (redondea_error _ _ 2097152 Hp HrD) as Ep.
  assert (Heps : (bpow (-53) <= / 16777216)%R).
  { destruct epsilon_cota as [_ H29].
    apply Rmult_le_reg_r with 16777216%R; [lra|]. rewrite <- H24, E24. lra. }
  assert (Hpb : (- 2097153 <= p <= 2097153)%R) by nra.
  pose proof (redondea_error _ _ 3145729 Hw ltac:(lra)) as Ew.
  assert (EuD : (- (bpow (-53) * 4194304) <= ratio * D - u * D
                 <= bpow (-53) * 4194304)%R) by nra.
  rewrite <- E24, H24. lra.
Qed.

Lemma interpolacion_entera (si vi ss vs s k q : Z) :
  si <= s <= ss -> si < ss -> Z.abs vi < 2 ^ 20 -> Z.abs vs < 2 ^ 20 ->
  (s - si) * (vs - vi) = q * (ss - si) ->
  interpolacion_redondeada si vi ss vs s k -> k = vi + q.
Proof.
  intros Hs Hss Hvi Hvs Hq Hk.
  pose proof (interpolacion_error si vi ss vs s k Hs Hss Hvi Hvs Hk) as He.
  assert (Eq : interpolacion_exacta si vi ss vs s = IZR (vi + q)).
  { unfold interpolacion_exacta. rewrite plus_IZR. f_equal.
    assert (Hd : IZR (ss - si) <> 0%R) by (apply not_0_IZR; lia).
    apply (f_equal IZR) in Hq. rewrite !mult_IZR in Hq.
    unfold Rdiv. rewrite Rmult_assoc, (Rmult_comm (/ _)), <- Rmult_assoc, Hq.
    rewrite Rmult_assoc, Rinv_r by exact Hd. lra. }
  rewrite Eq in He. destruct epsilon_cota as [_ H29].
  rewrite <- minus_IZR in He.
  assert (H1 : (IZR (-1) < IZR (k - (vi + q)))%R) by lra.
  assert (H2 : (IZR (k - (vi + q)) < IZR 1)%R) by lra.
  apply lt_IZR in H1, H2. lia.
Qed.

(** C2, as stated, fails on a table whose rows are not in the order of
    their sums: the sum 15 lies within the tabulated range of
    [tabla_desordenada] and is the sum of no row; the rows that bracket it
    have the sums 10 and 20, between which the interpolation is 110 with
    the percentile 50; what is returned is the last row of the table, of
    sum 5, as it is. *)
Lemma fila_final_en_tabla_desordenada :
  py_min (map suma (datos Muestras.tabla_desordenada)) = Ok 5 /\
  py_max (map suma (datos Muestras.tabla_desordenada)) = Ok 20 /\
  Forall (fun f => suma f <> 15) (datos Muestras.tabla_desordenada) /\
  In (Ejemplos.fila_compuesta 10 100 (JEntero 50) "94-106" "93-107")
     (datos Muestras.tabla_desordenada) /\
  In (Ejemplos.fila_compuesta 20 120 (JEntero 91) "113-125" "112-126")
     (datos Muestras.tabla_desordenada) /\
  (forall k, interpolacion_redondeada 10 100 20 120 15 k -> k = 110) /\
  convertir_compuesto {[ "IRF" := Muestras.tabla_desordenada ]} "IRF" 15 =
    Ok {| compuesto := 90; r_percentil := JEntero 25;
          r_conf_90 := "85-96"; r_conf_95 := "84-97";
          nombre_escala := "Razonamiento Fluido" |}.
Proof.
  split; [reflexivity|]. split; [reflexivity|].
  split; [repeat (constructor; [cbn; lia|]); constructor|].
  split; [right; left; reflexivity|]. split; [left; reflexivity|].
  split; [|vm_compute; reflexivity].
  intros k Hk.
  apply (interpolacion_entera 10 100 20 120 15 k 10); [lia|lia|lia|lia|lia|].
  exact Hk.
Qed.

(** C7, as stated, fails on rows that are not in the order of their sums:
    the sum 70 lies within the tabulated range of
    [datos_cit_desordenados] and is the sum of no row; the rows that
    bracket it have the sums 60 and 80, between which the interpolation
    is 100 with the percentile 25; what is returned is the last row, of
    sum 40, as it is. *)
Lemma cit_fila_final_en_tabla_desordenada :
  py_min (map CIT.suma Muestras.datos_cit_desordenados) = Ok 40 /\
  py_max (map CIT.suma Muestras.datos_cit_desordenados) = Ok 80 /\
  Forall (fun f => CIT.suma f <> 70) Muestras.datos_cit_desordenados /\
  In (Ejemplos.fila_cit 60 90 (JEntero 25) "85-96" "84-97")
     Muestras.datos_cit_desordenados /\
  In (Ejemplos.fila_cit 80 110 (JEntero 75) "104-115" "103-116")
     Muestras.datos_cit_desordenados /\
  (forall k, interpolacion_redondeada 60 90 80 110 70 k -> k = 100) /\
  CIT.convertir_cit Muestras.tabla_cit_desordenada 70 =
    Ok {| CIT.compuesto := 70; CIT.r_percentil := JEntero 2;
          CIT.r_conf_90 := "66-77"; CIT.r_conf_95 := "65-78" |}.
Proof.
  split; [reflexivity|]. split; [reflexivity|].
  split; [repeat (constructor; [cbn; lia|]); constructor|].
  split; [right; left; reflexivity|]. split; [left; reflexivity|].
  split; [|vm_compute; reflexivity].
  intros k Hk.
  apply (interpolacion_entera 60 90 80 110 70 k 10); [lia|lia|lia|lia|lia|].
  exact Hk.
Qed.

(** X21. The binary64 evaluation does not spoil the interpolation: for
    composite values below [2^20] in magnitude, the composite returned
    strictly between two rows of an ordered table is within
    [1/2 + 2^-29] of the exact value
    [vi + (s - si) * (vs - vi) / (ss - si)], and it is that value exactly
    whenever the division leaves no remainder. *)
Theorem interpolacion_sin_artefactos (tablas : gmap string tabla_escala)
    (escala : string) (t : tabla_escala) (l1 : list fila) (fi fs : fila)
    (l2 : list fila) (s : Z) :
  tablas !! escala = Some t ->
  datos t = l1 ++ fi :: fs :: l2 ->
  sumas_ascendentes (datos t) = true ->
  suma fi < s < suma fs ->
  acotado (suma fi) -> acotado (suma fs) -> acotado s ->
  Z.abs (valor fi) < 2 ^ 20 -> Z.abs (valor fs) < 2 ^ 20 ->
  exists r,
    convertir_compuesto tablas escala s = Ok r /\
    (- (/ 2 + bpow (-29)) <=
     IZR (compuesto r) -
     interpolacion_exacta (suma fi) (valor fi) (suma fs) (valor fs) s
     <= / 2 + bpow (-29))%R /\
    forall q, (s - suma fi) * (valor fs - valor fi) = q * (suma fs - suma fi) ->
              compuesto r = valor fi + q.
Proof.
  intros Ht Hd Ha Hs Hsi Hss Hsa Hvi Hvs.
  assert (H52 : forall v, Z.abs v < 2 ^ 20 -> acotado v).
  { intros v Hv. unfold acotado.
    change (2 ^ 20) with 1048576 in Hv.
    change (2 ^ 52) with 4503599627370496. lia. }
  destruct (tabla_interpolada t l1 fi fs l2 s Hd Ha Hs
              (conj Hsi (H52 _ Hvi)) (conj Hss (H52 _ Hvs)) Hsa)
    as (k & Hk & E).
  rewrite <- (convertir_compuesto_en_tabla tablas escala t s Ht) in E.
  eexists. split; [exact E|]. cbn [compuesto]. split.
  - apply interpolacion_error; [lia|lia|exact Hvi|exact Hvs|exact Hk].
  - intros q Hq.
    apply (interpolacion_entera (suma fi) (valor fi) (suma fs) (valor fs) s);
      [lia|lia|exact Hvi|exact Hvs|exact Hq|exact Hk].
Qed.

(** X22. The same for the total scale: between two rows of an ordered CIT
    table the composite is within [1/2 + 2^-29] of the exact
    interpolation, and equal to it when it is an integer. *)
Theorem cit_interpolacion_sin_artefactos (tabla_cit : CIT.json_cit)
    (l1 : list CIT.fila) (fi fs : CIT.fila) (l2 : list CIT.fila) (s : Z) :
  CIT.json_datos tabla_cit = Some (l1 ++ fi :: fs :: l2) ->
  sumas_cit_ascendentes (l1 ++ fi :: fs :: l2) = true ->
  CIT.suma fi < s < CIT.suma fs ->
  acotado (CIT.suma fi) -> acotado (CIT.suma fs) -> acotado s ->
  Z.abs (CIT.cit fi) < 2 ^ 20 -> Z.abs (CIT.cit fs) < 2 ^ 20 ->
  exists r,
    CIT.convertir_cit tabla_cit s = Ok r /\
    (- (/ 2 + bpow (-29)) <=
     IZR (CIT.compuesto r) -
     interpolacion_exacta (CIT.suma fi) (CIT.cit fi) (CIT.suma fs)
       (CIT.cit fs) s
     <= / 2 + bpow (-29))%R /\
    forall q,
      (s - CIT.suma fi) * (CIT.cit fs - CIT.cit fi) =
        q * (CIT.suma fs - CIT.suma fi) ->
      CIT.compuesto r = CIT.cit fi + q.
Proof.
  intros Hd Ha Hs Hsi Hss Hsa Hvi Hvs.
  assert (H52 : forall v, Z.abs v < 2 ^ 20 -> acotado v).
  { intros v Hv. unfold acotado.
    change (2 ^ 20) with 1048576 in Hv.
    change (2 ^ 52) with 4503599627370496. lia. }
  destruct (cit_interpolada l1 fi fs l2 s Ha Hs
              (conj Hsi (H52 _ Hvi)) (conj Hss (H52 _ Hvs)) Hsa)
    as (k & Hk & E).
  rewrite <- (convertir_cit_en_datos tabla_cit _ s Hd) in E.
  eexists. split; [exact E|]. cbn [CIT.compuesto]. split.
  - apply interpolacion_error; [lia|lia|exact Hvi|exact Hvs|exact Hk].
  - intros q Hq.
    apply (interpolacion_entera (CIT.suma fi) (CIT.cit fi) (CIT.suma fs)
             (CIT.cit fs) s);
      [lia|lia|exact Hvi|exact Hvs|exact Hq|exact Hk].
Qed.

(** ** The properties on the sample data *)

Lemma compuesto_en_escala_testigo :
  exists r, convertir_compuesto Ejemplos.tablas_icv "ICV" 25 = Ok r /\
            40 <= compuesto r <= 160.
Proof.
  apply (compuesto_en_escala Ejemplos.tablas_icv "ICV" Ejemplos.tabla_icv
           Ejemplos.fila_10 Ejemplos.fila_12 [Ejemplos.fila_14] 25).
  - reflexivity.
  - reflexivity.
  - reflexivity.
  - reflexivity.
  - repeat constructor.
  - repeat constructor; vm_compute; discriminate.
  - reflexivity.
Defined.

Lemma cit_dentro_de_la_tabla_testigo :
  exists r, CIT.convertir_cit Ejemplos.tabla_cit 65 = Ok r /\
            90 <= CIT.compuesto r <= 110.
Proof.
  apply (cit_dentro_de_la_tabla Ejemplos.tabla_cit
           (Ejemplos.fila_cit 60 90 (JEntero 25) "85-96" "84-97")
           [Ejemplos.fila_cit 70 100 (JEntero 50) "95-105" "94-106";
            Ejemplos.fila_cit 80 110 (JEntero 75) "104-115" "103-116"]
           (Ejemplos.fila_cit 80 110 (JEntero 75) "104-115" "103-116") 65).
  - reflexivity.
  - reflexivity.
  - reflexivity.
  - reflexivity.
  - repeat constructor.
  - reflexivity.
Defined.

Lemma cit_monotono_testigo :
  exists r1 r2,
    CIT.convertir_cit Ejemplos.tabla_cit 50 = Ok r1 /\
    CIT.convertir_cit Ejemplos.tabla_cit 65 = Ok r2 /\
    CIT.compuesto r1 <= CIT.compuesto r2.
Proof.
  apply (cit_monotono Ejemplos.tabla_cit
           (Ejemplos.fila_cit 60 90 (JEntero 25) "85-96" "84-97")
           [Ejemplos.fila_cit 70 100 (JEntero 50) "95-105" "94-106";
            Ejemplos.fila_cit 80 110 (JEntero 75) "104-115" "103-116"]
           50 65).
  - reflexivity.
  - reflexivity.
  - reflexivity.
  - repeat constructor.
  - reflexivity.
  - reflexivity.
  - lia.
Defined.

Lemma tabla_de_una_fila_testigo :
  convertir_compuesto {[ "IVP" := Muestras.tabla_unica ]} "IVP" 10 =
    Ok (de_fila Muestras.tabla_unica Ejemplos.fila_10) /\
  convertir_compuesto {[ "IVP" := Muestras.tabla_unica ]} "IVP" 11 =
    Error IndexError.
Proof.
  destruct (tabla_de_una_fila {[ "IVP" := Muestras.tabla_unica ]} "IVP"
              Muestras.tabla_unica Ejemplos.fila_10) as [H1 H2].
  - reflexivity.
  - reflexivity.
  - split; [exact H1|]. apply H2. vm_compute. discriminate.
Defined.

Lemma division_por_cero_solo_al_extrapolar_testigo :
  convertir_compuesto {[ "IMT" := Muestras.tabla_repetida ]} "IMT" 9 =
    Error ZeroDivisionError.
Proof.
  apply (division_por_cero_solo_al_extrapolar
           {[ "IMT" := Muestras.tabla_repetida ]} "IMT"
           Muestras.tabla_repetida 9); [reflexivity|].
  left. split; [repeat constructor|].
  eexists. eexists. eexists. split; reflexivity.
Defined.

Lemma compuestos_solo_la_primera_ruta_testigo :
  cargar_tablas_compuestos
    [Ausente; Malformado; Contenido (Some Ejemplos.tablas_icv)] = ∅ /\
  convertir_compuesto
    (cargar_tablas_compuestos
       [Ausente; Malformado; Contenido (Some Ejemplos.tablas_icv)])
    "ICV" 12 = Error (ValueError TablasNoCargadas).
Proof.
  destruct (compuestos_solo_la_primera_ruta 1 Malformado
              [Contenido (Some Ejemplos.tablas_icv)] "ICV" 12) as [_ H].
  - discriminate.
  - apply H. discriminate.
Defined.

Lemma cit_no_cargada_testigo :
  CIT.json_datos
    (CIT.cargar_tabla_cit [Ausente; Contenido Muestras.cit_sin_clave]) =
    Some [] /\
  CIT.convertir_cit
    (CIT.cargar_tabla_cit [Ausente; Contenido Muestras.cit_sin_clave]) 70 =
    Error (ValueError TablaCITNoCargada).
Proof.
  destruct (cit_no_cargada 1 (Contenido Muestras.cit_sin_clave) [] 70 ∅)
    as (H1 & H2 & _).
  - discriminate.
  - intros j Hj. injection Hj as <-. reflexivity.
  - split; [exact H1|exact H2].
Defined.

Lemma edad_solo_total_de_meses_testigo :
  Converter._convertir_edad_a_grupo "7:18" =
  Converter._convertir_edad_a_grupo "8:6".
Proof.
  apply (edad_solo_total_de_meses "7:18" "8:6" 7 18 8 6).
  - vm_compute. reflexivity.
  - vm_compute. reflexivity.
  - reflexivity.
Defined.

Lemma claves_de_las_tablas_cargadas_testigo :
  exists tablas,
    TablasWiscv.cargar_tablas_completas
      (TablasWiscv.Carpeta Muestras.carpeta_de_tablas) = Ok tablas /\
    forall k,
      is_Some (tablas !! k) <->
      exists nombre t,
        In (nombre, Contenido t) Muestras.carpeta_de_tablas /\
        TablasWiscv.es_archivo_de_tabla nombre = true /\
        k = TablasCargadas.nombre_de_grupo nombre.
Proof.
  apply (claves_de_las_tablas_cargadas Muestras.carpeta_de_tablas
           "8_6-8_11.json" Muestras.banda_minima).
  - left. reflexivity.
  - vm_compute. reflexivity.
Defined.

Lemma operaciones_integras_testigo :
  Pacientes.integra
    (fst (Pacientes.agregar_paciente true "a1b2c3d4" "2024-06-01 09:00:00"
            "Eva" None "2014-01-20" None Ejemplos.base_ejemplo)) /\
  Pacientes.integra
    (fst (BaseDatos.eliminar_paciente true false "p1" Ejemplos.base_ejemplo)).
Proof.
  destruct (operaciones_integras Ejemplos.base_ejemplo true true false
              "a1b2c3d4" "2024-06-01 09:00:00" "Eva" "p1" "2014-01-20"
              None None None None) as (H1 & _ & _ & H4).
  - split; [|split].
    + apply (bool_decide_unpack _). vm_compute. exact I.
    + apply (bool_decide_unpack _). vm_compute. exact I.
    + apply (bool_decide_unpack _). vm_compute. exact I.
  - split; [exact H1|exact H4].
Defined.

Lemma indice_con_un_solo_puntaje_testigo :
  Interfaz.puntajes_escalares_de Muestras.etiquetas_del_formulario ∅
    !! "AN" = Some 10 /\
  Interfaz.texto_suma
    (Interfaz.fila_compuesta Ejemplos.tablas_icv "95%"
       "Comprensión Verbal (ICV)" ["AN"; "VOC"]
       (Interfaz.puntajes_escalares_de Muestras.etiquetas_del_formulario ∅)
       (Interfaz.fila_limpia "#27ae60")) = "10".
Proof.
  destruct (indice_con_un_solo_puntaje Ejemplos.tablas_icv "95%"
              "Comprensión Verbal (ICV)" "ICV" "AN" "VOC" "10" "Inválido" 10
              Muestras.etiquetas_del_formulario
              (Interfaz.fila_limpia "#27ae60")
              (de_fila Ejemplos.tabla_icv Ejemplos.fila_10))
    as (H1 & _ & H3 & _).
  - apply (bool_decide_unpack _). vm_compute. exact I.
  - right. left. reflexivity.
  - right. right. right. left. reflexivity.
  - vm_compute. reflexivity.
  - vm_compute. reflexivity.
  - vm_compute. reflexivity.
  - vm_compute. reflexivity.
  - split; [exact H1|]. rewrite H3. reflexivity.
Defined.

Lemma interpolacion_sin_artefactos_testigo :
  exists r, convertir_compuesto Ejemplos.tablas_icv "ICV" 11 = Ok r /\
            compuesto r = 105.
Proof.
  destruct (interpolacion_sin_artefactos Ejemplos.tablas_icv "ICV"
              Ejemplos.tabla_icv [] Ejemplos.fila_10 Ejemplos.fila_12
              [Ejemplos.fila_14] 11) as (r & E & _ & H).
  - reflexivity.
  - reflexivity.
  - reflexivity.
  - split; reflexivity.
  - reflexivity.
  - reflexivity.
  - reflexivity.
  - reflexivity.
  - reflexivity.
  - exists r. split; [exact E|]. apply (H 5). reflexivity.
Defined.

Lemma cit_interpolacion_sin_artefactos_testigo :
  exists r, CIT.convertir_cit Ejemplos.tabla_cit 65 = Ok r /\
            CIT.compuesto r = 95.
Proof.
  destruct (cit_interpolacion_sin_artefactos Ejemplos.tabla_cit []
              (Ejemplos.fila_cit 60 90 (JEntero 25) "85-96" "84-97")
              (Ejemplos.fila_cit 70 100 (JEntero 50) "95-105" "94-106")
              [Ejemplos.fila_cit 80 110 (JEntero 75) "104-115" "103-116"] 65)
    as (r & E & _ & H).
  - reflexivity.
  - reflexivity.
  - split; reflexivity.
  - reflexivity.
  - reflexivity.
  - reflexivity.
  - reflexivity.
  - reflexivity.
  - exists r. split; [exact E|]. apply (H 5). reflexivity.
Defined.

(** ** Cells written as ranges *)

Section CeldasEscritas.
Import Converter Lectura Interfaz.

Lemma cifras_sin_guion (d : Decimal.uint) :
  contiene_caracter guion (NilEmpty.string_of_uint d) = false.
Proof.
  induction d; cbn [NilEmpty.string_of_uint contiene_caracter];
    try reflexivity; exact IHd.
Qed.

Lemma texto_de_natural_sin_guion (n : Z) :
  0 <= n -> contiene_caracter guion (texto_de_entero n) = false.
Proof.
  intros Hn. unfold texto_de_entero, py_str, NilZero.string_of_int, Z.to_int.
  destruct n as [|p|p]; [reflexivity| |lia].
  unfold NilZero.string_of_uint.
  pose proof (cifras_sin_guion (Pos.to_uint p)) as H.
  destruct (Pos.to_uint p); try reflexivity; exact H.
Qed.

Lemma contiene_caracter_app (c : ascii) (a b : string) :
  contiene_caracter c (a ++ String c b)%string = true.
Proof.
  induction a as [|d a IH].
  - change (String.append "" (String c b)) with (String c b).
    cbn [contiene_caracter]. rewrite Ascii.eqb_refl. reflexivity.
  - change (String.append (String d a) (String c b))
      with (String d (String.append a (String c b))).
    cbn [contiene_caracter]. rewrite IH. apply orb_true_r.
Qed.

(** X23. A cell written ["lo-hi"] with bounds that are not negative holds
    a score exactly when [lo <= score <= hi], so a cell whose bounds are
    reversed holds no score at all; and a cell that starts with the minus
    sign (a negative number, or a range from one) never holds any score,
    because the text before the first hyphen is empty. *)
Theorem celda_escrita_como_rango (puntaje lo hi : Z) (resto : string) :
  _esta_en_rango puntaje (Some (String guion resto)) = Ok false /\
  (0 <= lo -> 0 <= hi ->
   _esta_en_rango puntaje
     (Some (texto_de_entero lo ++ "-" ++ texto_de_entero hi)%string) =
     Ok ((lo <=? puntaje) && (puntaje <=? hi)) /\
   (hi < lo ->
    _esta_en_rango puntaje
      (Some (texto_de_entero lo ++ "-" ++ texto_de_entero hi)%string) =
      Ok false)).
Proof.
  split.
  - unfold _esta_en_rango.
    destruct resto as [|c r]; [reflexivity|].
    change (String.eqb (String guion (String c r)) "") with false.
    replace (String.eqb (String guion (String c r)) "-") with false
      by reflexivity.
    cbn [orb contiene_caracter]. rewrite Ascii.eqb_refl.
    cbn [orb partir]. rewrite Ascii.eqb_refl.
    destruct (partir guion (String c r)); reflexivity.
  - intros Hlo Hhi.
    assert (E : _esta_en_rango puntaje
                  (Some (texto_de_entero lo ++ "-" ++ texto_de_entero hi)%string)
                = Ok ((lo <=? puntaje) && (puntaje <=? hi))).
    { unfold _esta_en_rango.
      change ("-" ++ texto_de_entero hi)%string
        with (String guion (texto_de_entero hi)).
      destruct (texto_de_entero_cabeza lo) as (c & s & Ec & Hc).
      assert (Hg : contiene_caracter guion (texto_de_entero lo) = false)
        by (apply texto_de_natural_sin_guion; exact Hlo).
      rewrite (contiene_caracter_app guion).
      rewrite (partir_en_el_separador _ _ _ Hg).
      rewrite (partir_sin_separador _ _
                 (texto_de_natural_sin_guion hi Hhi)).
      cbn [desempaquetar_dos_enteros].
      change (py_int (texto_de_entero lo)) with (py_int (py_str (JEntero lo))).
      change (py_int (texto_de_entero hi)) with (py_int (py_str (JEntero hi))).
      rewrite !py_int_py_str.
      cbn [ligar salvo_ValueError].
      rewrite Ec in *.
      change (String.append (String c s) (String guion (texto_de_entero hi)))
        with (String c (String.append s (String guion (texto_de_entero hi)))).
      cbn [String.eqb].
      destruct (Ascii.eqb c "-") eqn:Eg; [|reflexivity].
      cbn [contiene_caracter] in Hg. unfold guion in Hg.
      rewrite Eg in Hg. discriminate Hg. }
    split; [exact E|]. intros Hrev. rewrite E. f_equal.
    destruct (Z.leb_spec lo puntaje); [|reflexivity].
    destruct (Z.leb_spec puntaje hi); [lia|reflexivity].
Qed.

End CeldasEscritas.

(** ** The stored composites and the predictor *)

Section CompuestosGuardados.
Import Interfaz Predictor.

Lemma indice_en_su_escala (k clave : string) :
  In k (map fst escalas_compuestas) ->
  In clave (map fst escalas_compuestas) ->
  contiene (obtener_abreviatura_escala clave) k = String.eqb k clave.
Proof.
  cbn [map fst escalas_compuestas In]. intros Hk Hc.
  repeat (destruct Hk as [<-|Hk];
          [repeat (destruct Hc as [<-|Hc]; [vm_compute; reflexivity|]);
           destruct Hc|]).
  destruct Hk.
Qed.

(** X24. The composites are stored under the names of the six scales, and
    the predictor looks an index up by its abbreviation inside those
    names: for every such dictionary, in any order, the value found for
    the abbreviation of a scale is the composite stored under that scale,
    and 0 when the scale is absent or its entry has no composite. No
    abbreviation occurs inside the name of another scale. *)
Theorem indice_leido_de_su_escala (compuestos : list (string * option Z))
    (clave : string) :
  Forall (fun e => In (fst e) (map fst escalas_compuestas)) compuestos ->
  In clave (map fst escalas_compuestas) ->
  _obtener_puntaje_compuesto compuestos (obtener_abreviatura_escala clave) =
    match buscar_clave clave compuestos with
    | Some (Some v) => v
    | _ => 0
    end.
Proof.
  intros Hk Hc. induction Hk as [|[k d] l Hk _ IH]; [reflexivity|].
  cbn [_obtener_puntaje_compuesto buscar_clave fst] in *.
  rewrite (indice_en_su_escala k clave Hk Hc).
  destruct (String.eqb k clave); [destruct d; reflexivity|exact IH].
Qed.

Lemma indice_leido_de_su_escala_testigo :
  _obtener_puntaje_compuesto
    [("Escala Total (CIT)", Some 104); ("Visoespacial (IVE)", None);
     ("Comprensión Verbal (ICV)", Some 110)] "ICV" = 110.
Proof.
  apply (indice_leido_de_su_escala
           [("Escala Total (CIT)", Some 104); ("Visoespacial (IVE)", None);
            ("Comprensión Verbal (ICV)", Some 110)]
           "Comprensión Verbal (ICV)").
  - repeat constructor; cbn; tauto.
  - cbn. tauto.
Defined.

Lemma fila_total_sin_alguna (tabla_cit : CIT.json_cit) (nivel : string)
    (p : gmap string Z) (previa : fila_mostrada) (sub : string) :
  In sub CIT.subpruebas_principales -> p !! sub = None ->
  fila_total tabla_cit nivel p previa = fila_limpia (color_compuesto previa).
Proof.
  intros Hin Hsub. unfold fila_total.
  pose proof (omap_falta (fun s => p !! s) _ _ Hin Hsub) as H.
  change (length CIT.subpruebas_principales) with 7%nat in H.
  rewrite (proj2 (Nat.eqb_neq _ _)) by lia. reflexivity.
Qed.

Lemma fila_total_con_las_siete (tabla_cit : CIT.json_cit) (nivel : string)
    (p : gmap string Z) (previa : fila_mostrada) (vs : list Z) :
  Forall2 (fun sub v => p !! sub = Some v) CIT.subpruebas_principales vs ->
  fila_total tabla_cit nivel p previa =
    match CIT.convertir_cit tabla_cit (fold_left Z.add vs 0) with
    | Ok r =>
        {| texto_suma := texto_de_entero (fold_left Z.add vs 0);
           texto_compuesto := texto_de_entero (CIT.compuesto r);
           color_compuesto := obtener_color_puntaje (CIT.compuesto r);
           texto_percentil := (py_str (CIT.r_percentil r) ++ "%")%string;
           texto_confianza :=
             if String.eqb nivel "90%" then CIT.r_conf_90 r
             else CIT.r_conf_95 r |}
    | Error _ => fila_limpia (color_compuesto previa)
    end.
Proof.
  intros H. unfold fila_total. rewrite (omap_todos _ _ _ H).
  rewrite <- (Forall2_length _ _ _ H). reflexivity.
Qed.

(** X25. [calcular_puntajes_compuestos] computes the total scale from the
    labels of the form exactly when each of its seven subtests has a
    label that holds a score. With no score at all on the form the
    method returns before its loop and the row of the total scale, like
    the rest of the table, is left as it was. With a score somewhere and
    a label among the seven that is missing, empty, ["Inválido"] or
    ["Error"], the row is cleared. With the seven scores the converter
    receives their sum and the row shows its result, or is cleared when
    the conversion raised. *)
Theorem escala_total_desde_las_etiquetas
    (tablas : gmap string Compuestos.tabla_escala)
    (tabla_cit : CIT.json_cit) (nivel : string)
    (etiquetas : list (string * string)) (ui : resultados)
    (datos : resultado_compuesto) :
  NoDup (map fst etiquetas) ->
  buscar_clave "Escala Total (CIT)" (labels_resultados_compuestos ui) =
    Some datos ->
  let ui' :=
    calcular_puntajes_compuestos tablas tabla_cit nivel etiquetas ui in
  let fila' :=
    labels <$>
      buscar_clave "Escala Total (CIT)" (labels_resultados_compuestos ui') in
  ((forall sub texto,
      In (sub, texto) etiquetas -> leer_etiqueta texto = None) ->
   ui' = ui) /\
  (forall sub0 texto0 n0 sub,
     In (sub0, texto0) etiquetas -> leer_etiqueta texto0 = Some n0 ->
     In sub CIT.subpruebas_principales ->
     (sub ∉ map fst etiquetas) \/
     (exists texto, In (sub, texto) etiquetas /\ leer_etiqueta texto = None) ->
     fila' = Some (fila_limpia (color_compuesto (labels datos)))) /\
  (forall textos vs,
     Forall2 (fun sub texto => In (sub, texto) etiquetas)
             CIT.subpruebas_principales textos ->
     Forall2 (fun texto v => leer_etiqueta texto = Some v) textos vs ->
     fila' =
       Some match CIT.convertir_cit tabla_cit (fold_left Z.add vs 0) with
            | Ok r =>
                {| texto_suma := texto_de_entero (fold_left Z.add vs 0);
                   texto_compuesto := texto_de_entero (CIT.compuesto r);
                   color_compuesto :=
                     obtener_color_puntaje (CIT.compuesto r);
                   texto_percentil :=
                     (py_str (CIT.r_percentil r) ++ "%")%string;
                   texto_confianza :=
                     if String.eqb nivel "90%" then CIT.r_conf_90 r
                     else CIT.r_conf_95 r |}
            | Error _ => fila_limpia (color_compuesto (labels datos))
            end).
Proof.
  intros Hn Hd ui' fila'. split; [|split].
  - intros Hno. unfold ui', calcular_puntajes_compuestos.
    rewrite (puntajes_escalares_sin_puntajes etiquetas ∅ Hno).
    destruct (decide (∅ = ∅ :> gmap string Z)); [reflexivity|contradiction].
  - intros sub0 texto0 n0 sub Hin0 Hn0 Hsub Hfalta.
    pose proof (puntajes_escalares_con_puntaje etiquetas ∅ _ _ _ Hin0 Hn0)
      as Hp.
    unfold fila', ui'.
    rewrite (fila_calculada_de_indice _ _ _ _ _ _ _ Hp Hd).
    cbn [fmap option_fmap option_map fila_calculada labels].
    change (String.eqb "Escala Total (CIT)" "Escala Total (CIT)") with true.
    cbv iota. f_equal.
    apply (fila_total_sin_alguna _ _ _ _ sub Hsub).
    destruct Hfalta as [Hno|(texto & Hin & Hno)].
    + rewrite (puntajes_escalares_sin_clave _ _ _ Hno). apply lookup_empty.
    + rewrite (puntajes_escalares_de_clave _ _ sub texto Hn Hin), Hno.
      apply lookup_empty.
  - intros textos vs Ht Hv.
    assert (Hs : Forall2 (fun sub v =>
                            puntajes_escalares_de etiquetas ∅ !! sub = Some v)
                         CIT.subpruebas_principales vs).
    { revert vs Hv. induction Ht as [|sub texto subs textos Hin _ IH];
        intros vs Hv.
      - inversion Hv. constructor.
      - inversion Hv as [|? v ? vs' Hleer Hresto]; subst. constructor.
        + rewrite (puntajes_escalares_de_clave _ _ sub texto Hn Hin), Hleer.
          reflexivity.
        + apply IH. exact Hresto. }
    assert (Hp : puntajes_escalares_de etiquetas ∅ <> ∅).
    { inversion Hs as [|? v ? ? Hcc _]; subst.
      intros E. rewrite E, lookup_empty in Hcc. discriminate Hcc. }
    unfold fila', ui'.
    rewrite (fila_calculada_de_indice _ _ _ _ _ _ _ Hp Hd).
    cbn [fmap option_fmap option_map fila_calculada labels].
    change (String.eqb "Escala Total (CIT)" "Escala Total (CIT)") with true.
    cbv iota. f_equal.
    apply (fila_total_con_las_siete _ _ _ _ vs Hs).
Qed.

Lemma escala_total_desde_las_etiquetas_testigo :
  labels <$>
    buscar_clave "Escala Total (CIT)"
      (labels_resultados_compuestos
         (calcular_puntajes_compuestos Ejemplos.tablas_icv Ejemplos.tabla_cit
            "95%" Muestras.etiquetas_del_formulario
            Muestras.resultados_iniciales)) =
  Some (fila_limpia "black").
Proof.
  destruct (escala_total_desde_las_etiquetas Ejemplos.tablas_icv
              Ejemplos.tabla_cit "95%" Muestras.etiquetas_del_formulario
              Muestras.resultados_iniciales
              {| labels := fila_limpia "black";
                 subtests := ["CC"; "AN"; "MR"; "RD"; "CLA"; "VOC"; "BAL"];
                 abreviatura := "CIT" |}) as (_ & H & _).
  - apply (bool_decide_unpack _). vm_compute. exact I.
  - reflexivity.
  - apply (H "AN" "10" 10 "MR").
    + cbn. tauto.
    + vm_compute. reflexivity.
    + cbn. tauto.
    + right. exists "Error". split; [cbn; tauto|vm_compute; reflexivity].
Defined.

End CompuestosGuardados.
